(** * directus-template-api: the extract/apply pipeline

    A shallow embedding of the content loader ([load-data.ts]), the relation
    loader, the apply orchestrator, the collection filters of the extractors
    and the authentication middleware of the HTTP wrapper, together with the
    properties of the specification that concern them.

    Asynchronous code is embedded as a tree of requests to the remote
    instance ([Prog]): [Await] is [await api.client.request(..)], [AwaitAll]
    is [await Promise.all(..)].  Two semantics are given to such trees: an
    interleaving small-step relation in which the remote instance may answer
    anything at any time, and a deterministic interpreter against a stateful
    instance. *)

From Stdlib Require Import ZArith String Ascii List Lia.
From stdpp Require Import base option list gmap strings pretty.

Set Warnings "-register-all".

(** ** JavaScript values *)

Inductive JVal : Type :=
| JUndef
| JNull
| JBool (b : bool)
| JNum (n : Z)
| JStr (s : string)
| JArr (l : list JVal)
| JObj (m : gmap string JVal).

(** The comparison of [Set.prototype.has]/[add] (SameValueZero).  Arrays and
    objects are compared by reference; the values compared by the loader come
    from two different parses (a template file, a response), so two of them
    are never the same reference. *)
Definition sameValueZero (a b : JVal) : bool :=
  match a, b with
  | JUndef, JUndef => true
  | JNull, JNull => true
  | JBool x, JBool y => Bool.eqb x y
  | JNum x, JNum y => Z.eqb x y
  | JStr x, JStr y => String.eqb x y
  | _, _ => false
  end.

(** A JavaScript [Set] of values, in insertion order. *)
Module JSet.
Definition t := list JVal.
Definition empty : t := [].
Definition has (s : t) (v : JVal) : bool := existsb (sameValueZero v) s.
Definition add (s : t) (v : JVal) : t := if has s v then s else s ++ [v].
End JSet.

(** [o[k]]: reading a property that is absent gives [undefined].  Only own
    properties are modelled. *)
Definition getProp (o : gmap string JVal) (k : string) : JVal :=
  default JUndef (o !! k).

(** [!!s] for a string. *)
Definition truthy (s : string) : bool := negb (String.eqb s "").

(** ** Data model *)

Record CollectionSchema := { schema_name : string }.

Record CollectionMeta := { group : option string; singleton : bool }.

(** [schema] and [meta] are [null] when [None]. *)
Record Collection := {
  collection : string;
  schema : option CollectionSchema;
  meta : option CollectionMeta
}.

Record FieldSchema := { is_primary_key : bool }.

Record Field := {
  field_collection : string;
  field : string;
  field_schema : option FieldSchema
}.

(** [related_collection] and [rel_meta] are [null] when [None]; [rel_meta]
    is the [meta] object, whose [id] is the surrogate key. *)
Record Relation := {
  rel_collection : string;
  rel_field : string;
  related_collection : option string;
  rel_meta : option (gmap string JVal)
}.

(** A content file holds either the rows of a collection or the single object
    of a singleton. *)
Inductive Content :=
| Rows (rows : list (gmap string JVal))
| Single (row : gmap string JVal).

(** The template directory: one optional blob per name, [None] when the file
    does not exist. *)
Record Template := {
  blob_collections : option (list Collection);
  blob_fields : option (list Field);
  blob_relations : option (list Relation);
  blob_content : gmap string Content
}.

(** ** Requests to the remote instance and to the blob store *)

Record ItemsQuery := {
  q_fields : option (list string);
  q_limit : Z;
  q_page : option Z
}.

Inductive Blob :=
| BCollections (cs : list Collection)
| BItems (rows : list (gmap string JVal)).

Inductive Request :=
| ReadCollections
| ReadRelations
| ReadItems (name : string) (query : ItemsQuery)
| CreateItems (name : string) (items : list (gmap string JVal))
| UpdateItemsBatch (name : string) (items : list (gmap string JVal))
| UpdateSingleton (name : string) (item : gmap string JVal)
| CreateRelation (relation : Relation)
| WriteToFile (name : string) (content : Blob) (dir : string).

Definition Response (r : Request) : Type :=
  match r with
  | ReadCollections => list Collection
  | ReadRelations => list Relation
  | ReadItems _ _ => list (gmap string JVal)
  | _ => unit
  end.

(** A settled promise. *)
Inductive Result (A : Type) :=
| Resolved (a : A)
| Rejected (error : string).
Arguments Resolved {A} a.
Arguments Rejected {A} error.

Definition Reply (r : Request) : Type := Result (Response r).

(** How a run ends early: through the error-capture point with
    [fatal: true], or by an exception nobody catches. *)
Inductive Failure :=
| Fatal (error : string) (context : list (string * JVal))
| Uncaught (error : string).

(** ** Asynchronous programs *)

Inductive Prog : Type :=
| Stop
| Fail (f : Failure)
| Spin
| Await (r : Request) (k : Reply r -> Prog)
| AwaitAll (ps : list Prog) (k : Prog).

(** Functions that return a value take the rest of the caller as a
    continuation. *)
Definition M (A : Type) : Type := (A -> Prog) -> Prog.

Definition ret {A} (a : A) : M A := fun k => k a.
Definition bind {A B} (m : M A) (f : A -> M B) : M B :=
  fun k => m (fun a => f a k).
Definition throw {A} (f : Failure) : M A := fun _ => Fail f.
Definition request (r : Request) : M (Reply r) := fun k => Await r k.
Definition promiseAll (ps : list Prog) : M unit := fun k => AwaitAll ps (k tt).
Definition exec (m : M unit) : Prog := m (fun _ => Stop).

#[global] Instance M_ret : MRet M := @ret.
#[global] Instance M_bind : MBind M := fun A B f m => bind m f.

(** ** Helpers of the repository that the loaders call *)

(** Modelled from the spec: [utils/catch-error.js] is missing from the listing.
    The single error-capture point "either escalates (process-level fatal
    exit) or records-and-continues, controlled by an explicit [fatal] flag on
    the call site". *)
Definition catchError (error : string) (context : list (string * JVal))
    (fatal : bool) : M unit :=
  if fatal then throw (Fatal error context) else ret tt.

(** Modelled from the spec: [utils/chunk-array.js] is missing from the
    listing.  "Batching/chunking" into "fixed-size batches": consecutive
    slices of [size] elements, the last one shorter; nothing for an empty
    array. *)
Fixpoint chunk_from {A} (steps : nat) (array : list A) (size : nat)
    : list (list A) :=
  match steps with
  | O => []
  | S steps' =>
      match array with
      | [] => []
      | _ => take size array :: chunk_from steps' (drop size array) size
      end
  end.

Definition chunkArray {A} (array : list A) (size : nat) : list (list A) :=
  chunk_from (length array) array size.

(** Modelled from the spec: [utils/read-file.js] is missing from the listing.
    [readBlob(name, dir, {allowMissing}) -> value | null]: a missing blob is
    [null] in the "allow missing" read mode and "a true missing-file error"
    otherwise. *)
Definition readFile {A} (blob : option A) (name : string) : M A :=
  match blob with
  | Some value => ret value
  | None => throw (Uncaught ("ENOENT: " +:+ name +:+ ".json"))
  end.

Definition readFile_allowMissing (name : string) (dir : Template)
    : option Content :=
  blob_content dir !! name.

(** Modelled from the spec: [utils/check-template.js] is missing from the
    listing.  "A compatibility check verifies the minimum required blobs
    (collections, fields, relations) exist." *)
Definition checkTemplate (dir : Template) : bool :=
  bool_decide (is_Some (blob_collections dir))
  && bool_decide (is_Some (blob_fields dir))
  && bool_decide (is_Some (blob_relations dir)).

(** [array.filter(f)] when evaluating [f] on an element may throw. *)
Fixpoint filter_throwing {A} (f : A -> option bool) (array : list A)
    : option (list A) :=
  match array with
  | [] => Some []
  | x :: rest =>
      match f x with
      | None => None
      | Some keep =>
          match filter_throwing f rest with
          | None => None
          | Some rest' => Some (if keep then x :: rest' else rest')
          end
      end
  end.

(** [{user_created, user_updated, ...cleaned} = row]. *)
Definition stripUserFields (row : gmap string JVal) : gmap string JVal :=
  delete "user_updated" (delete "user_created" row).

(** The own enumerable properties of an array are its indices. *)
Definition arrayAsObject (rows : list (gmap string JVal)) : gmap string JVal :=
  list_to_map (imap (fun i row => (pretty i, JObj row)) rows).

(** ** load-data.ts *)

Definition BATCH_SIZE : nat := 50.

Definition getTargetCollectionNames : M (gset string) :=
  collections ← request ReadCollections;
  match collections with
  | Resolved collections => ret (list_to_set (collection <$> collections))
  | Rejected error => throw (Uncaught error)
  end.

(** The body of the [while (true)] loop, unrolled at most [rounds] times. *)
Fixpoint getExistingPrimaryKeys_from (rounds : nat) (name primaryKeyField : string)
    (existingKeys : JSet.t) (page : Z) : M JSet.t :=
  match rounds with
  | O => fun _ => Spin
  | S rounds' =>
      let limit := 1000%Z in
      response ← request (ReadItems name
          {| q_fields := Some [primaryKeyField];
             q_limit := limit; q_page := Some page |});
      match response with
      | Resolved response =>
          if (length response =? 0)%nat then ret existingKeys
          else
            let existingKeys :=
              fold_left (fun keys item => JSet.add keys (getProp item primaryKeyField))
                        response existingKeys in
            if (Z.of_nat (length response) <? limit)%Z then ret existingKeys
            else getExistingPrimaryKeys_from rounds' name primaryKeyField
                   existingKeys (page + 1)%Z
      | Rejected error =>
          catchError error
            [("collection", JStr name);
             ("operation", JStr "getExistingPrimaryKeys");
             ("page", JNum page);
             ("primaryKeyField", JStr primaryKeyField)] true ;;
          ret existingKeys
      end
  end.

Definition getExistingPrimaryKeys (rounds : nat) (name primaryKeyField : string)
    : M JSet.t :=
  getExistingPrimaryKeys_from rounds name primaryKeyField JSet.empty 1%Z.

Definition uploadBatch (name : string) (batch : list (gmap string JVal))
    (method : string -> list (gmap string JVal) -> Request) (batchIndex : nat)
    : M unit :=
  reply ← request (method name batch);
  match reply with
  | Resolved _ => ret tt
  | Rejected error =>
      catchError error
        [("batchIndex", JNum (Z.of_nat batchIndex));
         ("batchSize", JNum (Z.of_nat (length batch)));
         ("collection", JStr name);
         ("operation", JStr "uploadBatch")] true
  end.

(** *** Plain objects used as maps

    [getCollectionPrimaryKeys] fills the object [{}] as a map from collection
    names to field names.  Reading [o[k]] gives the own property [k] of [o]
    or else the member [k] that every object inherits from
    [Object.prototype].  Such a member is a function (for [__proto__] it is
    the prototype itself); where the loader goes on with it, it is used as a
    property key, and the model writes it as the string that it gives
    there. *)
Definition objectPrototype : gmap string string :=
  list_to_map
    [("constructor", "function Object() { [native code] }");
     ("__defineGetter__", "function __defineGetter__() { [native code] }");
     ("__defineSetter__", "function __defineSetter__() { [native code] }");
     ("hasOwnProperty", "function hasOwnProperty() { [native code] }");
     ("__lookupGetter__", "function __lookupGetter__() { [native code] }");
     ("__lookupSetter__", "function __lookupSetter__() { [native code] }");
     ("isPrototypeOf", "function isPrototypeOf() { [native code] }");
     ("propertyIsEnumerable", "function propertyIsEnumerable() { [native code] }");
     ("toString", "function toString() { [native code] }");
     ("valueOf", "function valueOf() { [native code] }");
     ("toLocaleString", "function toLocaleString() { [native code] }");
     ("__proto__", "[object Object]")].

Record PlainObject := { ownProperties : gmap string string }.

(** [o[k]]. *)
#[global] Instance PlainObject_lookup : Lookup string string PlainObject :=
  fun k o =>
    match ownProperties o !! k with
    | Some v => Some v
    | None => objectPrototype !! k
    end.

(** [o[k] = v] for a string [v]: the assignment to [__proto__] of a value
    that is no object does nothing. *)
Definition setProperty (k v : string) (o : PlainObject) : PlainObject :=
  if String.eqb k "__proto__" then o
  else {| ownProperties := <[k := v]> (ownProperties o) |}.

(** [Object.keys(o)]. *)
Definition objectKeys (o : PlainObject) : list string :=
  (map_to_list (ownProperties o)).*1.

(** The loop of [getCollectionPrimaryKeys] over the fields. *)
Definition primaryKeysOf (fields : list Field) : PlainObject :=
  fold_left
    (fun (primaryKeys : PlainObject) f =>
       match field_schema f with
       | Some s =>
           if is_primary_key s
           then setProperty (field_collection f) (field f) primaryKeys
           else primaryKeys
       | None => primaryKeys
       end)
    fields {| ownProperties := ∅ |}.

Definition getCollectionPrimaryKeys (dir : Template) : M PlainObject :=
  fields ← readFile (blob_fields dir) "fields";
  ret (primaryKeysOf fields).

Definition getPrimaryKey (collectionsMap : PlainObject) (name : string)
    : M string :=
  let found := collectionsMap !! name in
  (if negb (from_option truthy false found)
   then catchError ("Collection " +:+ name +:+ " not found in collections map")
          [("availableCollections", JArr (JStr <$> objectKeys collectionsMap));
           ("collection", JStr name);
           ("operation", JStr "getPrimaryKey")] true
   else ret tt) ;;
  ret (default "undefined" found).

Definition nullDeref (property : string) : Failure :=
  Uncaught ("TypeError: Cannot read properties of null (reading '"
            +:+ property +:+ "')").

(** The filter chain shared by [loadSkeletonRecords] and [loadFullData];
    [item.meta.singleton] throws when [meta] is [null]. *)
Definition userCollectionsOf (collections : list Collection)
    (targetCollections : gset string) : M (list Collection) :=
  let step1 := List.filter (fun item => negb (String.prefix "directus_" (collection item)))
                      collections in
  let step2 := List.filter (fun item => bool_decide (schema item ≠ None)) step1 in
  match filter_throwing (fun item => (fun m => negb (singleton m)) <$> meta item) step2 with
  | None => throw (nullDeref "singleton")
  | Some step3 =>
      ret (List.filter (fun item => bool_decide (collection item ∈ targetCollections)) step3)
  end.

Definition singletonCollectionsOf (collections : list Collection)
    (targetCollections : gset string) : M (list Collection) :=
  let step1 := List.filter (fun item => negb (String.prefix "directus_" (collection item)))
                      collections in
  match filter_throwing (fun item => singleton <$> meta item) step1 with
  | None => throw (nullDeref "singleton")
  | Some step2 =>
      ret (List.filter (fun item => bool_decide (collection item ∈ targetCollections)) step2)
  end.

(** The callback that [loadSkeletonRecords] maps over the user collections. *)
Definition skeletonRecordsOf (rounds : nat) (dir : Template)
    (primaryKeyMap : PlainObject) (item : Collection) : M unit :=
  let name := collection item in
  match readFile_allowMissing name dir with
  | None => ret tt
  | Some data =>
      primaryKeyField ← getPrimaryKey primaryKeyMap name;
      existingPrimaryKeys ← getExistingPrimaryKeys rounds name primaryKeyField;
      match data with
      | Single _ => throw (Uncaught "TypeError: data.filter is not a function")
      | Rows data =>
          let newData :=
            List.filter (fun entry =>
                      negb (JSet.has existingPrimaryKeys (getProp entry primaryKeyField)))
                   data in
          if (length newData =? 0)%nat then ret tt
          else
            let batches :=
              (fun batch : list (gmap string JVal) =>
                 (fun entry => ({[primaryKeyField := getProp entry primaryKeyField]}
                                : gmap string JVal)) <$> batch)
                <$> chunkArray newData BATCH_SIZE in
            promiseAll (imap (fun index batch =>
                                exec (uploadBatch name batch CreateItems index))
                             batches)
      end
  end.

Definition loadSkeletonRecords (rounds : nat) (dir : Template)
    (targetCollections : gset string) : M unit :=
  collections ← readFile (blob_collections dir) "collections";
  primaryKeyMap ← getCollectionPrimaryKeys dir;
  userCollections ← userCollectionsOf collections targetCollections;
  promiseAll ((fun item => exec (skeletonRecordsOf rounds dir primaryKeyMap item))
                <$> userCollections).

(** The callback that [loadFullData] maps over the user collections.  What
    [chunkArray] does with a value that is not an array is not specified; the
    model lets it produce no batch. *)
Definition fullDataOf (dir : Template) (item : Collection) : M unit :=
  let name := collection item in
  match readFile_allowMissing name dir with
  | None => ret tt
  | Some data =>
      let rows := match data with Rows rows => rows | Single _ => [] end in
      let batches :=
        (fun batch : list (gmap string JVal) => stripUserFields <$> batch) <$> chunkArray rows BATCH_SIZE in
      promiseAll (imap (fun index batch =>
                          exec (uploadBatch name batch UpdateItemsBatch index))
                       batches)
  end.

Definition loadFullData (dir : Template) (targetCollections : gset string)
    : M unit :=
  collections ← readFile (blob_collections dir) "collections";
  userCollections ← userCollectionsOf collections targetCollections;
  promiseAll ((fun item => exec (fullDataOf dir item)) <$> userCollections).

(** The callback that [loadSingletons] maps over the singleton collections. *)
Definition singletonOf (dir : Template) (item : Collection) : M unit :=
  let name := collection item in
  match readFile_allowMissing name dir with
  | None => ret tt
  | Some data =>
      let cleanedData :=
        stripUserFields
          match data with Single row => row | Rows rows => arrayAsObject rows end in
      reply ← request (UpdateSingleton name cleanedData);
      match reply with
      | Resolved _ => ret tt
      | Rejected error =>
          catchError error
            [("collection", JStr name); ("operation", JStr "loadSingletons")] true
      end
  end.

Definition loadSingletons (dir : Template) (targetCollections : gset string)
    : M unit :=
  collections ← readFile (blob_collections dir) "collections";
  singletonCollections ← singletonCollectionsOf collections targetCollections;
  promiseAll ((fun item => exec (singletonOf dir item)) <$> singletonCollections).

Definition loadData (rounds : nat) (dir : Template) : M unit :=
  collections ← readFile (blob_collections dir) "collections";
  targetCollections ← getTargetCollectionNames;
  loadSkeletonRecords rounds dir targetCollections ;;
  loadFullData dir targetCollections ;;
  loadSingletons dir targetCollections.

(** ** load-relations.ts *)

(** [`${relation.collection}:${relation.field}:${relation.related_collection}`];
    a [null] is printed as "null". *)
Definition relationKey (relation : Relation) : string :=
  rel_collection relation +:+ ":" +:+ rel_field relation +:+ ":"
  +:+ default "null" (related_collection relation).

(** [item.meta?.group === '_extensions']. *)
Definition inExtensionsGroup (item : Collection) : bool :=
  match meta item with
  | Some m => bool_decide (group m = Some "_extensions")
  | None => false
  end.

(** [{...relation}] followed by [cleanRelation.meta.id = undefined], which
    throws a [TypeError] when [meta] is [null]: [None]. *)
Definition cleanRelation (relation : Relation) : option Relation :=
  match rel_meta relation with
  | Some m =>
      Some {| rel_collection := rel_collection relation;
              rel_field := rel_field relation;
              related_collection := related_collection relation;
              rel_meta := Some (<["id" := JUndef]> m) |}
  | None => None
  end.

Fixpoint addRelations (relations : list Relation) : M unit :=
  match relations with
  | [] => ret tt
  | relation :: rest =>
      reply ← request (CreateRelation relation);
      match reply with
      | Resolved _ => ret tt
      | Rejected error =>
          catchError error
            [("collection", JStr (rel_collection relation));
             ("field", JStr (rel_field relation));
             ("operation", JStr "addRelations");
             ("relatedCollection",
              from_option JStr JNull (related_collection relation))] true
      end ;;
      addRelations rest
  end.

Definition extensionCollectionNamesOf (collections : list Collection)
    : gset string :=
  list_to_set (collection <$> List.filter inExtensionsGroup collections).

(** The value of the local [relationsToAdd]; [None] when the [map] over the
    relations that are left throws. *)
Definition relationsToAddOf (relations existingRelations : list Relation)
    : option (list Relation) :=
  let existingRelationKeys : gset string :=
    list_to_set (relationKey <$> existingRelations) in
  mapM cleanRelation
    (List.filter (fun relation =>
                    if bool_decide (relationKey relation ∈ existingRelationKeys)
                    then false else true)
                 relations).

Definition nullAssign (property : string) : Failure :=
  Uncaught ("TypeError: Cannot set properties of null (setting '"
            +:+ property +:+ "')").

Definition loadRelations (dir : Template) : M unit :=
  allRelations ← readFile (blob_relations dir) "relations";
  collections ← readFile (blob_collections dir) "collections";
  let extensionCollectionNames := extensionCollectionNamesOf collections in
  let relations :=
    List.filter
      (fun relation =>
         negb (bool_decide (rel_collection relation ∈ extensionCollectionNames))
         && negb (from_option (fun n => bool_decide (n ∈ extensionCollectionNames))
                              false (related_collection relation)))
      allRelations in
  if (0 <? length relations)%nat then
    existingRelations ← request ReadRelations;
    match existingRelations with
    | Resolved existingRelations =>
        match relationsToAddOf relations existingRelations with
        | Some relationsToAdd => addRelations relationsToAdd
        | None => throw (nullAssign "id")
        end
    | Rejected error => throw (Uncaught error)
    end
  else ret tt.

(** ** extract-collections.ts and extract-content.ts *)








(** ** api/middleware/auth.ts *)

(** Strings are taken as sequences of code units below 256; these are the
    ones [String.prototype.trim] removes. *)
Definition isWhiteSpace (c : ascii) : bool :=
  let n := nat_of_ascii c in
  ((9 <=? n) && (n <=? 13) || (n =? 32) || (n =? 160))%nat.

Fixpoint dropWhiteSpace (chars : list ascii) : list ascii :=
  match chars with
  | c :: rest => if isWhiteSpace c then dropWhiteSpace rest else chars
  | [] => []
  end.

Definition trim (s : string) : string :=
  string_of_list_ascii
    (rev (dropWhiteSpace (rev (dropWhiteSpace (list_ascii_of_string s))))).

Record Headers := {
  authorization : option string;
  x_api_key : option string
}.

Inductive Handled :=
| next
| status_json (code : Z) (error message : string).

Definition getApiToken (API_AUTH_TOKEN : option string) : option string :=
  API_AUTH_TOKEN.

Definition isAuthEnabled (API_AUTH_TOKEN : option string) : bool :=
  match getApiToken API_AUTH_TOKEN with
  | Some token => truthy token && (0 <? String.length (trim token))%nat
  | None => false
  end.

(** The value of the local [providedToken] of [authMiddleware]. *)
Definition providedTokenOf (headers : Headers) : option string :=
  let authHeader := authorization headers in
  let apiKeyHeader := x_api_key headers in
  if from_option truthy false authHeader then
    (fun authHeader =>
       if String.prefix "Bearer " authHeader
       then String.substring 7 (String.length authHeader - 7) authHeader
       else authHeader) <$> authHeader
  else if from_option truthy false apiKeyHeader then apiKeyHeader
  else None.

Definition authMiddleware (API_AUTH_TOKEN : option string) (headers : Headers)
    : Handled :=
  let apiToken := getApiToken API_AUTH_TOKEN in
  if negb (from_option truthy false apiToken)
     || (String.length (trim (default "" apiToken)) =? 0)%nat
  then next
  else
    let providedToken := providedTokenOf headers in
    if negb (from_option truthy false providedToken) then
      status_json 401 "Unauthorized"
        ("Authentication token is required. "
         +:+ "Provide it via Authorization header or X-API-Key header.")
    else if negb (bool_decide (providedToken = apiToken)) then
      status_json 403 "Forbidden" "Invalid authentication token."
    else next.

(** ** Semantics 1: interleaving small steps

    A configuration is a tree of promises.  The remote instance may settle
    any request in flight, with any reply; the branches of a [Promise.all]
    advance in any order and the continuation starts once every branch has
    returned.  A branch that failed never returns, so nothing after the
    enclosing [Promise.all] runs; whether the other branches go on (the
    failure was an exception) or not (the process exited) is left open: the
    relation allows both. *)

Inductive Cfg : Type :=
| CRun (p : Prog)
| CWait (r : Request) (k : Reply r -> Prog)
| CJoin (cs : list Cfg) (k : Prog).

Inductive Event :=
| Issued (r : Request)
| Settled (r : Request) (accepted : bool).

Definition isResolved {A} (reply : Result A) : bool :=
  match reply with Resolved _ => true | Rejected _ => false end.

Inductive step : Cfg -> option Event -> Cfg -> Prop :=
| step_issue r k :
    step (CRun (Await r k)) (Some (Issued r)) (CWait r k)
| step_settle r k reply :
    step (CWait r k) (Some (Settled r (isResolved reply))) (CRun (k reply))
| step_fork ps k :
    step (CRun (AwaitAll ps k)) None (CJoin (CRun <$> ps) k)
| step_join cs k :
    Forall (fun c => c = CRun Stop) cs ->
    step (CJoin cs k) None (CRun k)
| step_branch cs1 c c' cs2 k e :
    step c e c' ->
    step (CJoin (cs1 ++ c :: cs2) k) e (CJoin (cs1 ++ c' :: cs2) k).

Definition observe (e : option Event) : list Event :=
  match e with Some ev => [ev] | None => [] end.

Inductive steps : Cfg -> list Event -> Cfg -> Prop :=
| steps_nil c : steps c [] c
| steps_cons c1 e c2 t c3 :
    step c1 e c2 -> steps c2 t c3 -> steps c1 (observe e ++ t) c3.

(** Requests in flight that satisfy [P]. *)
Fixpoint inFlight (P : Request -> bool) (c : Cfg) : nat :=
  match c with
  | CRun _ => 0
  | CWait r _ => if P r then 1 else 0
  | CJoin cs _ => foldr (fun c n => inFlight P c + n) 0 cs
  end.

Definition issuedIn (P : Request -> bool) (t : list Event) : nat :=
  length (List.filter (fun e => match e with Issued r => P r | _ => false end) t).

Definition settledIn (P : Request -> bool) (t : list Event) : nat :=
  length (List.filter (fun e => match e with Settled r _ => P r | _ => false end) t).

(** Every request of the program satisfies [R]. *)
Fixpoint uses (R : Request -> Prop) (p : Prog) : Prop :=
  match p with
  | Await r k => R r /\ forall reply, uses R (k reply)
  | AwaitAll ps k => foldr (fun p rest => uses R p /\ rest) True ps /\ uses R k
  | _ => True
  end.

(** The program first makes requests of [P] only and, behind a
    [Promise.all] over branches that make requests of [P] only, goes on in a
    part that makes requests of [Q] only. *)
Fixpoint staged (P Q : Request -> Prop) (p : Prog) : Prop :=
  uses Q p
  \/ match p with
     | Await r k => P r /\ forall reply, staged P Q (k reply)
     | AwaitAll ps k => foldr (fun p rest => uses P p /\ rest) True ps /\ staged P Q k
     | _ => True
     end.

Fixpoint cuses (R : Request -> Prop) (c : Cfg) : Prop :=
  match c with
  | CRun p => uses R p
  | CWait r k => R r /\ forall reply, uses R (k reply)
  | CJoin cs k => foldr (fun c rest => cuses R c /\ rest) True cs /\ uses R k
  end.

Definition cstaged (P Q : Request -> Prop) (c : Cfg) : Prop :=
  cuses Q c
  \/ match c with
     | CRun p => staged P Q p
     | CWait r k => P r /\ forall reply, staged P Q (k reply)
     | CJoin cs k => foldr (fun c rest => cuses P c /\ rest) True cs /\ staged P Q k
     end.

(** No [Promise.all]: one request after the other. *)
Fixpoint sequential (p : Prog) : Prop :=
  match p with
  | Await r k => forall reply, sequential (k reply)
  | AwaitAll _ _ => False
  | _ => True
  end.

Definition csequential (c : Cfg) : Prop :=
  match c with
  | CRun p => sequential p
  | CWait r k => forall reply, sequential (k reply)
  | CJoin _ _ => False
  end.

(** The kinds of request of the three phases of [loadData]. *)
Definition isCreateItems (r : Request) : bool :=
  match r with CreateItems _ _ => true | _ => false end.
Definition isUpdateItemsBatch (r : Request) : bool :=
  match r with UpdateItemsBatch _ _ => true | _ => false end.
Definition isUpdateSingleton (r : Request) : bool :=
  match r with UpdateSingleton _ _ => true | _ => false end.
Definition isCreateRelation (r : Request) : bool :=
  match r with CreateRelation _ => true | _ => false end.
Definition isReadItems (r : Request) : bool :=
  match r with ReadItems _ _ => true | _ => false end.
Definition anyRequest (r : Request) : bool := true.

Definition skeletonStage (r : Request) : Prop :=
  match r with
  | ReadCollections | ReadItems _ _ | CreateItems _ _ => True
  | _ => False
  end.
Definition fullStage (r : Request) : Prop :=
  match r with UpdateItemsBatch _ _ => True | _ => False end.
Definition singletonStage (r : Request) : Prop :=
  match r with UpdateSingleton _ _ => True | _ => False end.

(** ** Semantics 2: a deterministic run against a stateful instance

    [handle] is the remote instance together with the blob store: it answers
    a request and moves to its next state.  The trace lists the requests in
    the order in which the instance handles them, each followed by how it was
    settled.  The branches of a
    [Promise.all] are handled one branch after the other, in array order
    (one of the orders the network allows); a branch that fails before its
    first [await] does so while the array of promises is still being built,
    before any request of that [Promise.all] is handled.  The run ends with
    the first branch that fails: what the instance handles of the other
    branches after that is not in the trace, although the source has by then
    made the first request of each of them.  What holds of all the requests
    of a [Promise.all] is therefore stated over the interleaving semantics,
    which has every order; [run] describes the runs that complete and
    exhibits executions of the interleaving semantics. *)

Inductive Outcome :=
| Completed
| Failed (f : Failure)
| Diverged.

Fixpoint headFailure (p : Prog) : option Failure :=
  match p with
  | Fail f => Some f
  | AwaitAll ps _ =>
      foldr (fun p rest => match headFailure p with
                           | Some f => Some f
                           | None => rest
                           end) None ps
  | _ => None
  end.

Section Run.
Context {St : Type} (handle : St -> forall r : Request, Reply r * St).

Definition runEach (run : Prog -> St -> Outcome * St * list Event)
    : list Prog -> St -> Outcome * St * list Event :=
  fix go ps s :=
    match ps with
    | [] => (Completed, s, [])
    | p :: ps' =>
        let '(o, s1, t1) := run p s in
        match o with
        | Completed => let '(o2, s2, t2) := go ps' s1 in (o2, s2, t1 ++ t2)
        | _ => (o, s1, t1)
        end
    end.

Fixpoint run (p : Prog) (s : St) : Outcome * St * list Event :=
  match p with
  | Stop => (Completed, s, [])
  | Fail f => (Failed f, s, [])
  | Spin => (Diverged, s, [])
  | Await r k =>
      let '(reply, s1) := handle s r in
      let '(o, s2, t) := run (k reply) s1 in
      (o, s2, Issued r :: Settled r (isResolved reply) :: t)
  | AwaitAll ps k =>
      match headFailure (AwaitAll ps k) with
      | Some f => (Failed f, s, [])
      | None =>
          let '(o, s1, t1) := runEach run ps s in
          match o with
          | Completed => let '(o2, s2, t2) := run k s1 in (o2, s2, t1 ++ t2)
          | _ => (o, s1, t1)
          end
      end
  end.

(** The target serves [pages] as the successive pages of [name], starting
    at page [page] in state [s] and ending in state [s']. *)
Inductive serves (name primaryKeyField : string)
    : St -> Z -> list (list (gmap string JVal)) -> St -> Prop :=
| serves_nil s page : serves name primaryKeyField s page [] s
| serves_cons s page response s1 pages s2 :
    handle s (ReadItems name
                {| q_fields := Some [primaryKeyField];
                   q_limit := 1000%Z; q_page := Some page |})
      = (Resolved response, s1) ->
    serves name primaryKeyField s1 (page + 1)%Z pages s2 ->
    serves name primaryKeyField s page (response :: pages) s2.
End Run.

(** The requests of a trace, in the order in which they were issued. *)
Definition requestsOf (t : list Event) : list Request :=
  omap (fun ev => match ev with Issued r => Some r | Settled _ _ => None end) t.

(** The requests for [n] successive pages, from page [page] on. *)
Fixpoint pageRequests (name primaryKeyField : string) (page : Z) (n : nat)
    : list Request :=
  match n with
  | O => []
  | S n' =>
      ReadItems name {| q_fields := Some [primaryKeyField];
                        q_limit := 1000%Z; q_page := Some page |}
      :: pageRequests name primaryKeyField (page + 1)%Z n'
  end.

(** A request answered as soon as it is issued. *)
Definition answered (accepted : bool) (r : Request) : list Event :=
  [Issued r; Settled r accepted].

(** The set of the primary-key values of the items received. *)
Definition keysOf (primaryKeyField : string) (existingKeys : JSet.t)
    (pages : list (list (gmap string JVal))) : JSet.t :=
  fold_left (fun keys item => JSet.add keys (getProp item primaryKeyField))
            (concat pages) existingKeys.

(** The batches that the skeleton phase creates for [data] when the target
    holds the keys [existingPrimaryKeys]. *)
Definition skeletonBatches (primaryKeyField : string) (existingPrimaryKeys : JSet.t)
    (data : list (gmap string JVal)) : list (list (gmap string JVal)) :=
  (fun batch : list (gmap string JVal) =>
     (fun entry => ({[primaryKeyField := getProp entry primaryKeyField]}
                    : gmap string JVal)) <$> batch)
    <$> chunkArray
          (List.filter (fun entry =>
                          negb (JSet.has existingPrimaryKeys
                                         (getProp entry primaryKeyField)))
                       data)
          BATCH_SIZE.

(** Scalars: the values a primary key takes. *)
Definition isScalar (v : JVal) : bool :=
  match v with JNum _ | JStr _ => true | _ => false end.

(** The trace of [n] successive pages, from page [page] on, each served. *)
Definition pageEvents (name primaryKeyField : string) (page : Z) (n : nat)
    : list Event :=
  concat (answered true <$> pageRequests name primaryKeyField page n).

(** The four conditions of the filter chain of [loadSkeletonRecords] and
    [loadFullData]. *)
Definition eligible (targetCollections : gset string) (item : Collection) : bool :=
  negb (String.prefix "directus_" (collection item))
  && bool_decide (schema item ≠ None)
  && from_option (fun m => negb (singleton m)) false (meta item)
  && bool_decide (collection item ∈ targetCollections).

(** The filter chain evaluates without a [TypeError]: every collection that
    reaches [item.meta.singleton] has a [meta]. *)
Definition metaPresent (collections : list Collection) : Prop :=
  forall item,
    item ∈ collections ->
    String.prefix "directus_" (collection item) = false ->
    schema item ≠ None -> meta item ≠ None.

(** What the specification asks of a request of the full-data phase and of
    the singleton phase: it submits records of the template's content without
    their audit fields. *)
Definition submittedFrom (dir : Template) (r : Request) : Prop :=
  match r with
  | UpdateItemsBatch name items =>
      exists rows,
        blob_content dir !! name = Some (Rows rows)
        /\ Forall (fun item => exists row, row ∈ rows /\ item = stripUserFields row)
                  items
  | UpdateSingleton name item =>
      exists data,
        blob_content dir !! name = Some data
        /\ item = stripUserFields
                    match data with
                    | Single row => row
                    | Rows rows => arrayAsObject rows
                    end
  | _ => False
  end.

(** The fatal failure of [getPrimaryKey]. *)
Definition noPrimaryKey (collectionsMap : PlainObject) (name : string)
    : Failure :=
  Fatal ("Collection " +:+ name +:+ " not found in collections map")
        [("availableCollections", JArr (JStr <$> objectKeys collectionsMap));
         ("collection", JStr name);
         ("operation", JStr "getPrimaryKey")].

(** A collection of the chain with content but no primary-key field. *)
Definition lacksKey (dir : Template) (primaryKeyMap : PlainObject)
    (item : Collection) : bool :=
  bool_decide (is_Some (readFile_allowMissing (collection item) dir))
  && negb (from_option truthy false (primaryKeyMap !! collection item)).

(** The requests of [loadData] before the full phase, and the records the two
    later phases may submit. *)
Definition skeletonOrSubmitted (dir : Template) (r : Request) : Prop :=
  skeletonStage r \/ submittedFrom dir r.

(** The relations of the blob that involve no collection of the
    [_extensions] group (the local [relations] of [loadRelations]). *)
Definition loadableRelations (collections : list Collection)
    (allRelations : list Relation) : list Relation :=
  List.filter
    (fun relation =>
       negb (bool_decide (rel_collection relation
                            ∈ extensionCollectionNamesOf collections))
       && negb (from_option
                  (fun n => bool_decide (n ∈ extensionCollectionNamesOf collections))
                  false (related_collection relation)))
    allRelations.

(** A relation of the same identity key is among [existingRelations]. *)
Definition alreadyExists (existingRelations : list Relation) (relation : Relation)
    : bool :=
  existsb (fun existing => String.eqb (relationKey existing) (relationKey relation))
          existingRelations.

(** A relation with the [id] of its [meta] set to [undefined]. *)
Definition cleared (relation : Relation) : Relation :=
  {| rel_collection := rel_collection relation;
     rel_field := rel_field relation;
     related_collection := related_collection relation;
     rel_meta := <["id" := JUndef]> <$> rel_meta relation |}.

(** ** Semantics 1 with the replies

    The same steps as [step], with the reply of the remote instance in the
    label of the step that settles a request. *)

Inductive Exchange :=
| Asked (r : Request)
| Answered (r : Request) (reply : Reply r).

Inductive exchange : Cfg -> option Exchange -> Cfg -> Prop :=
| exchange_issue r k :
    exchange (CRun (Await r k)) (Some (Asked r)) (CWait r k)
| exchange_settle r k reply :
    exchange (CWait r k) (Some (Answered r reply)) (CRun (k reply))
| exchange_fork ps k :
    exchange (CRun (AwaitAll ps k)) None (CJoin (CRun <$> ps) k)
| exchange_join cs k :
    Forall (fun c => c = CRun Stop) cs ->
    exchange (CJoin cs k) None (CRun k)
| exchange_branch cs1 c c' cs2 k x :
    exchange c x c' ->
    exchange (CJoin (cs1 ++ c :: cs2) k) x (CJoin (cs1 ++ c' :: cs2) k).

Inductive exchanges : Cfg -> list Exchange -> Cfg -> Prop :=
| exchanges_nil c : exchanges c [] c
| exchanges_cons c1 x c2 t c3 :
    exchange c1 x c2 -> exchanges c2 t c3 -> exchanges c1 (option_list x ++ t) c3.

Definition eventOf (x : Exchange) : Event :=
  match x with
  | Asked r => Issued r
  | Answered r reply => Settled r (isResolved reply)
  end.

(** The requests made in a trace, in the order in which they were made. *)
Definition asked (t : list Exchange) : list Request :=
  omap (fun x => match x with Asked r => Some r | Answered _ _ => None end) t.

(** [t] is a merge of the lists [ts]: every element of [t] is taken from the
    front of one of them. *)
Inductive interleaves {A : Type} : list (list A) -> list A -> Prop :=
| interleaves_nil ts : Forall (fun t => t = []) ts -> interleaves ts []
| interleaves_cons ts1 x t ts2 rest :
    interleaves (ts1 ++ t :: ts2) rest ->
    interleaves (ts1 ++ (x :: t) :: ts2) (x :: rest).

(** The request of [getExistingPrimaryKeys] for the page [page]. *)
Definition readPage (name primaryKeyField : string) (page : Z) : Request :=
  ReadItems name {| q_fields := Some [primaryKeyField];
                    q_limit := 1000%Z; q_page := Some page |}.



(** ** A reference instance

    The remote instance is not part of the repository.  Where a property
    needs more than "the instance answers something", it is stated against
    this model: collections hold rows, each collection has a primary-key
    field, pages are consecutive slices of the rows, a created row without a
    key is given a fresh one, and an update names the row it changes by its
    key. *)

Module Target.

Record t := {
  collections : list Collection;
  primary : gmap string string;
  items : gmap string (list (gmap string JVal));
  singletons : gmap string (gmap string JVal);
  relations : list Relation;
  files : list (string * string * Blob)
}.

(** The [fields] parameter of a query. *)
Definition project (fields : option (list string)) (row : gmap string JVal)
    : gmap string JVal :=
  match fields with
  | Some names => filter (fun kv => kv.1 ∈ names) row
  | None => row
  end.

(** The page [page] (from 1) of [limit] rows; a negative [limit] is no
    limit. *)
Definition pageOf {A} (limit : Z) (page : option Z) (rows : list A) : list A :=
  if (limit <? 0)%Z then rows
  else
    let n := Z.to_nat limit in
    take n (drop ((Z.to_nat (default 1%Z page) - 1) * n) rows).

(** The largest number among the keys of the rows. *)
Definition maxKey (primaryKeyField : string) (rows : list (gmap string JVal)) : Z :=
  foldr (fun row m => match getProp row primaryKeyField with
                      | JNum n => Z.max n m
                      | _ => m
                      end) 0%Z rows.

(** Rows are stored as given, after a row without a key has got a fresh
    one. *)
Definition insertRow (primaryKeyField : string) (rows : list (gmap string JVal))
    (item : gmap string JVal) : list (gmap string JVal) :=
  match getProp item primaryKeyField with
  | JUndef =>
      rows ++ [<[primaryKeyField := JNum (maxKey primaryKeyField rows + 1)]> item]
  | _ => rows ++ [item]
  end.

Definition matches (primaryKeyField : string) (item row : gmap string JVal) : bool :=
  sameValueZero (getProp item primaryKeyField) (getProp row primaryKeyField).

(** The update of the rows by one item of a batch: the item must carry a
    key, and a row must have it. *)
Definition updateRow (primaryKeyField : string) (rows : list (gmap string JVal))
    (item : gmap string JVal) : option (list (gmap string JVal)) :=
  match getProp item primaryKeyField with
  | JUndef => None
  | _ =>
      if existsb (matches primaryKeyField item) rows
      then Some ((fun row => if matches primaryKeyField item row
                             then item ∪ row else row) <$> rows)
      else None
  end.

Fixpoint updateRows (primaryKeyField : string) (rows : list (gmap string JVal))
    (batch : list (gmap string JVal)) : option (list (gmap string JVal)) :=
  match batch with
  | [] => Some rows
  | item :: rest =>
      match updateRow primaryKeyField rows item with
      | Some rows' => updateRows primaryKeyField rows' rest
      | None => None
      end
  end.

Definition setItems (s : t) (name : string) (rows : list (gmap string JVal)) : t :=
  {| collections := collections s; primary := primary s;
     items := <[name := rows]> (items s);
     singletons := singletons s; relations := relations s; files := files s |}.

Definition handle (s : t) (r : Request) : Reply r * t :=
  match r return Reply r * t with
  | ReadCollections => (Resolved (collections s), s)
  | ReadRelations => (Resolved (relations s), s)
  | ReadItems name query =>
      match items s !! name with
      | Some rows =>
          (Resolved (project (q_fields query)
                       <$> pageOf (q_limit query) (q_page query) rows), s)
      | None => (Rejected "FORBIDDEN", s)
      end
  | CreateItems name batch =>
      match items s !! name, primary s !! name with
      | Some rows, Some primaryKeyField =>
          (Resolved tt, setItems s name (foldl (insertRow primaryKeyField) rows batch))
      | _, _ => (Rejected "FORBIDDEN", s)
      end
  | UpdateItemsBatch name batch =>
      match items s !! name, primary s !! name with
      | Some rows, Some primaryKeyField =>
          match updateRows primaryKeyField rows batch with
          | Some rows' => (Resolved tt, setItems s name rows')
          | None => (Rejected "INVALID_PAYLOAD", s)
          end
      | _, _ => (Rejected "FORBIDDEN", s)
      end
  | UpdateSingleton name item =>
      match singletons s !! name with
      | Some row =>
          (Resolved tt,
           {| collections := collections s; primary := primary s;
              items := items s;
              singletons := <[name := item ∪ row]> (singletons s);
              relations := relations s; files := files s |})
      | None => (Rejected "FORBIDDEN", s)
      end
  | CreateRelation relation =>
      (Resolved tt,
       {| collections := collections s; primary := primary s;
          items := items s; singletons := singletons s;
          relations := relations s ++ [relation]; files := files s |})
  | WriteToFile name content dir =>
      (Resolved tt,
       {| collections := collections s; primary := primary s;
          items := items s; singletons := singletons s;
          relations := relations s; files := files s ++ [(dir, name, content)] |})
  end.

(** A row of [rows] has the key [v]. *)
Definition hasKey (primaryKeyField : string) (rows : list (gmap string JVal))
    (v : JVal) : bool :=
  existsb (fun row => sameValueZero v (getProp row primaryKeyField)) rows.

(** [s'] has every key and every relation that [s] has, and the same
    collections and primary-key fields. *)
Record extends (s s' : t) : Prop := {
  extends_collections : collections s' = collections s;
  extends_primary : primary s' = primary s;
  extends_items :
    forall name rows,
      items s !! name = Some rows ->
      exists rows',
        items s' !! name = Some rows'
        /\ forall primaryKeyField v,
             primary s !! name = Some primaryKeyField ->
             hasKey primaryKeyField rows v = true ->
             hasKey primaryKeyField rows' v = true;
  extends_relations :
    forall relation,
      relation ∈ relations s ->
      exists relation', relation' ∈ relations s'
                        /\ relationKey relation' = relationKey relation
}.

End Target.


(** The content of [item], if any, is a list of rows with a known
    primary-key field, which is the one of the target [s], and [s] has the
    key of each of them. *)
Definition covered (dir : Template) (primaryKeyMap : PlainObject)
    (s : Target.t) (item : Collection) : Prop :=
  forall data,
    readFile_allowMissing (collection item) dir = Some data ->
    exists entries primaryKeyField rows,
      data = Rows entries
      /\ primaryKeyMap !! collection item = Some primaryKeyField
      /\ primaryKeyField <> ""
      /\ Target.items s !! collection item = Some rows
      /\ Forall (fun entry =>
                   Target.primary s !! collection item = Some primaryKeyField
                   /\ Target.hasKey primaryKeyField rows
                        (getProp entry primaryKeyField)
                      = true)
                entries.

(** Where the template and the target both give a collection a primary-key
    field, it is the same field. *)
Definition sameKeys (primaryKeyMap : PlainObject) (s : Target.t) : Prop :=
  forall name primaryKeyField primaryKeyField',
    primaryKeyMap !! name = Some primaryKeyField ->
    Target.primary s !! name = Some primaryKeyField' ->
    primaryKeyField' = primaryKeyField.

(** The rounds are enough to page through any collection of the target. *)
Definition enoughRounds (s : Target.t) (rounds : nat) : Prop :=
  forall name rows,
    Target.items s !! name = Some rows -> (length rows < 1000 * rounds)%nat.

(** The collections that the two content phases go through: the result of
    their filter chain, when it does not throw. *)
Definition userCollectionsIn (collections : list Collection)
    (targetCollections : gset string) : option (list Collection) :=
  List.filter (fun item => bool_decide (collection item ∈ targetCollections))
    <$> filter_throwing (fun item => (fun m => negb (singleton m)) <$> meta item)
          (List.filter (fun item => bool_decide (schema item ≠ None))
             (List.filter (fun item => negb (String.prefix "directus_" (collection item)))
                          collections)).

(** ** A small template, for the examples *)

Definition articles : Collection :=
  {| collection := "articles";
     schema := Some {| schema_name := "articles" |};
     meta := Some {| group := None; singleton := false |} |}.

Definition site : Collection :=
  {| collection := "site";
     schema := Some {| schema_name := "site" |};
     meta := Some {| group := None; singleton := true |} |}.

Definition article1 : gmap string JVal :=
  {[ "id" := JNum 1; "title" := JStr "Hello"; "user_created" := JStr "u1" ]}.

Definition article2 : gmap string JVal :=
  {[ "id" := JNum 2; "title" := JStr "World"; "user_updated" := JStr "u2" ]}.

Definition siteRow : gmap string JVal :=
  {[ "name" := JStr "Site"; "user_updated" := JStr "u1" ]}.

Definition authorOf : Relation :=
  {| rel_collection := "articles"; rel_field := "author";
     related_collection := Some "authors";
     rel_meta := Some {[ "id" := JNum 7; "one_field" := JNull ]} |}.

Definition demoTemplate : Template :=
  {| blob_collections := Some [articles; site];
     blob_fields :=
       Some [ {| field_collection := "articles"; field := "id";
                 field_schema := Some {| is_primary_key := true |} |};
              {| field_collection := "articles"; field := "title";
                 field_schema := Some {| is_primary_key := false |} |} ];
     blob_relations := Some [authorOf];
     blob_content := {[ "articles" := Rows [article1; article2];
                        "site" := Single siteRow ]} |}.

Definition demoTarget : Target.t :=
  {| Target.collections := [articles; site];
     Target.primary := {[ "articles" := "id" ]};
     Target.items := {[ "articles" := [] ]};
     Target.singletons := {[ "site" := ∅ ]};
     Target.relations := [];
     Target.files := [] |}.

Definition demoReadItems : Request :=
  ReadItems "articles"
    {| q_fields := Some ["id"]; q_limit := 1000%Z; q_page := Some 1%Z |}.

Definition demoCreate : Request :=
  CreateItems "articles" [ {[ "id" := JNum 1 ]}; {[ "id" := JNum 2 ]} ].

Definition demoUpdate : Request :=
  UpdateItemsBatch "articles"
    [ {[ "id" := JNum 1; "title" := JStr "Hello" ]};
      {[ "id" := JNum 2; "title" := JStr "World" ]} ].

Definition demoSingleton : Request :=
  UpdateSingleton "site" {[ "name" := JStr "Site" ]}.

(** A target that already holds the first article and the relation, under
    another surrogate id. *)
Definition usedTarget : Target.t :=
  {| Target.collections := [articles; site];
     Target.primary := {[ "articles" := "id" ]};
     Target.items := {[ "articles" := [ {[ "id" := JNum 1; "title" := JStr "Old" ]} ] ]};
     Target.singletons := {[ "site" := ∅ ]};
     Target.relations :=
       [ {| rel_collection := "articles"; rel_field := "author";
            related_collection := Some "authors";
            rel_meta := Some {[ "id" := JNum 42 ]} |} ];
     Target.files := [] |}.

(** A target with a full page of articles and one more. *)
Definition fullTarget : Target.t :=
  {| Target.collections := [articles; site];
     Target.primary := {[ "articles" := "id" ]};
     Target.items := {[ "articles" := replicate 1000 article1 ++ [article2] ]};
     Target.singletons := {[ "site" := ∅ ]};
     Target.relations := [];
     Target.files := [] |}.

(** The template without the primary-key field of the articles. *)
Definition keylessTemplate : Template :=
  {| blob_collections := blob_collections demoTemplate;
     blob_fields :=
       Some [ {| field_collection := "articles"; field := "title";
                 field_schema := Some {| is_primary_key := false |} |} ];
     blob_relations := blob_relations demoTemplate;
     blob_content := blob_content demoTemplate |}.

(** A relation that [usedTarget] lacks, a relation without [meta], and the
    templates that hold them beside [authorOf]. *)
Definition editorOf : Relation :=
  {| rel_collection := "articles"; rel_field := "editor";
     related_collection := Some "authors";
     rel_meta := Some {[ "id" := JNum 8; "one_field" := JStr "edited" ]} |}.

Definition translatorOf : Relation :=
  {| rel_collection := "articles"; rel_field := "translator";
     related_collection := None;
     rel_meta := None |}.

Definition withRelations (relations : list Relation) : Template :=
  {| blob_collections := blob_collections demoTemplate;
     blob_fields := blob_fields demoTemplate;
     blob_relations := Some relations;
     blob_content := blob_content demoTemplate |}.

(** A collection with the name of a method that every object inherits, with
    content but without a primary-key field, and a target that has the
    collection. *)
Definition constructorCollection : Collection :=
  {| collection := "constructor";
     schema := Some {| schema_name := "constructor" |};
     meta := Some {| group := None; singleton := false |} |}.

Definition inheritedTemplate : Template :=
  {| blob_collections := Some [constructorCollection];
     blob_fields :=
       Some [ {| field_collection := "constructor"; field := "title";
                 field_schema := Some {| is_primary_key := false |} |} ];
     blob_relations := Some [];
     blob_content := {[ "constructor" := Rows [article1] ]} |}.

Definition inheritedTarget : Target.t :=
  {| Target.collections := [constructorCollection];
     Target.primary := {[ "constructor" := "id" ]};
     Target.items := {[ "constructor" := [] ]};
     Target.singletons := ∅;
     Target.relations := [];
     Target.files := [] |}.

(** * The rest of the listing

    The utilities, the field and relation extractors and the handlers of the
    HTTP wrapper.  They call functions from outside the listing ([fs], the
    SDK, helpers of the repository that are not listed); such code is
    embedded as a script of calls, and a call may return or throw. *)

(** ** JavaScript values, continued *)

(** [Boolean(v)]. *)
Definition truthyValue (v : JVal) : bool :=
  match v with
  | JUndef | JNull => false
  | JBool b => b
  | JNum n => negb (n =? 0)%Z
  | JStr s => truthy s
  | JArr _ | JObj _ => true
  end.

(** [a || b]. *)
Definition orElse (a b : JVal) : JVal := if truthyValue a then a else b.

(** [a === b], when [a] and [b] do not refer to the same array or object: on
    the values modelled it is the comparison of [sameValueZero]. *)
Definition strictEquals (a b : JVal) : bool := sameValueZero a b.

(** [`${v}`]. *)
Fixpoint toStringValue (v : JVal) : string :=
  match v with
  | JUndef => "undefined"
  | JNull => "null"
  | JBool true => "true"
  | JBool false => "false"
  | JNum n => pretty n
  | JStr s => s
  | JArr l =>
      String.concat ","
        (List.map (fun x => match x with
                            | JUndef | JNull => ""
                            | _ => toStringValue x
                            end) l)
  | JObj _ => "[object Object]"
  end.

(** What a [throw] carries: an [Error] object (or one of a subclass, [name]),
    or any other value. *)
Inductive Thrown :=
| ErrorObject (name message : string)
| ThrownValue (v : JVal).

(** ** Scripts of calls *)

Section Script.
Context (Rq : Type) (Rp : Rq -> Type).

(** [Call r k]: the call [r] is made; it returns a value or throws, and the
    script goes on with [k]. *)
Inductive Script (A : Type) : Type :=
| Done (a : A)
| Throw (e : Thrown)
| Call (r : Rq) (k : Thrown + Rp r -> Script A).

End Script.

Arguments Done {Rq Rp A} a.
Arguments Throw {Rq Rp A} e.
Arguments Call {Rq Rp A} r k.

Section ScriptOperations.
Context {Rq : Type} {Rp : Rq -> Type}.

Fixpoint andThen {A B} (m : Script Rq Rp A) (f : A -> Script Rq Rp B)
    : Script Rq Rp B :=
  match m with
  | Done a => f a
  | Throw e => Throw e
  | Call r k => Call r (fun x => andThen (k x) f)
  end.

(** [try { m } catch (error) { h error }]. *)
Fixpoint tryCatch {A} (m : Script Rq Rp A) (h : Thrown -> Script Rq Rp A)
    : Script Rq Rp A :=
  match m with
  | Done a => Done a
  | Throw e => h e
  | Call r k => Call r (fun x => tryCatch (k x) h)
  end.

(** A call whose exception is not caught on the spot. *)
Definition call (r : Rq) : Script Rq Rp (Rp r) :=
  Call r (fun x => match x with inl e => Throw e | inr v => Done v end).

(** A run against an environment with a state: how it ends, the last state
    and the calls made, in order. *)
Fixpoint runScript {St A} (handle : St -> forall r : Rq, (Thrown + Rp r) * St)
    (m : Script Rq Rp A) (s : St) : (Thrown + A) * St * list Rq :=
  match m with
  | Done a => (inr a, s, [])
  | Throw e => (inl e, s, [])
  | Call r k =>
      let '(x, s1) := handle s r in
      let '(o, s2, t) := runScript handle (k x) s1 in
      (o, s2, r :: t)
  end.

End ScriptOperations.

#[global] Instance Script_ret {Rq Rp} : MRet (Script Rq Rp) := fun A a => Done a.
#[global] Instance Script_bind {Rq Rp} : MBind (Script Rq Rp) :=
  fun A B f m => andThen m f.

(** ** load/index.ts: the apply orchestrator *)

(** The flags that [apply] reads. *)
Record ApplyFlags := {
  content : bool; dashboards : bool; extensions : bool; files : bool;
  flows : bool; permissions : bool; schema_flag : bool; settings : bool;
  users : bool
}.

(** The calls of [apply]: the logger, [ux.error] of the command-line
    framework, which does not return, and the loaders, each awaited with the
    source directory. *)
Module Load.

Inductive Step :=
| loadAccess | loadCollections | loadDashboards | loadData | loadExtensions
| loadFiles | loadFlows | loadFolders | loadPermissions | loadPolicies
| loadPresets | loadRelations | loadRoles | loadSettings | loadTranslations
| loadUsers | updateRequiredFields.

Inductive Call :=
| log (level message : string) (detail : list (string * JVal))
| uxError (message : string)
| load (loader : Step) (source : string).

Definition Reply (r : Call) : Type :=
  match r with
  | uxError _ => Empty_set
  | _ => unit
  end.

End Load.

Definition templateNotOk : string :=
  "The template is missing the collections, fields, or relations files. "
  +:+ "Older templates are not supported in v0.4 of directus-template-cli. "
  +:+ "Try using v0.3 to load older templates npx directus-template-cli@0.3 apply "
  +:+ "or extract the template using latest version before applying. Exiting...".

Definition flagsValue (flags : ApplyFlags) : JVal :=
  JObj (list_to_map
          [("content", JBool (content flags)); ("dashboards", JBool (dashboards flags));
           ("extensions", JBool (extensions flags)); ("files", JBool (files flags));
           ("flows", JBool (flows flags)); ("permissions", JBool (permissions flags));
           ("schema", JBool (schema_flag flags)); ("settings", JBool (settings flags));
           ("users", JBool (users flags))]).

Definition logStep (message step : string) : Script Load.Call Load.Reply unit :=
  call (Rp := Load.Reply) (Load.log "info" message [("step", JStr step)]).

Definition await (loader : Load.Step) (source : string)
    : Script Load.Call Load.Reply unit :=
  call (Rp := Load.Reply) (Load.load loader source).

Definition when (b : bool) (m : Script Load.Call Load.Reply unit)
    : Script Load.Call Load.Reply unit :=
  if b then m else Done tt.

(** [template] is what the directory [`${dir}/src`] holds. *)
Definition apply (dir : string) (template : Template) (flags : ApplyFlags)
    : Script Load.Call Load.Reply unit :=
  let source := dir +:+ "/src" in
  call (Rp := Load.Reply)
       (Load.log "info" "Starting apply operation"
          [("flags", flagsValue flags); ("source", JStr source)]) ;;
  let isTemplateOk := checkTemplate template in
  (if negb isTemplateOk
   then never ← call (Rp := Load.Reply) (Load.uxError templateNotOk);
        match never : Empty_set with end
   else Done tt) ;;
  when (schema_flag flags)
    (logStep "Loading schema" "schema" ;;
     await Load.loadCollections source ;;
     await Load.loadRelations source) ;;
  when (permissions flags || users flags)
    (call (Rp := Load.Reply)
          (Load.log "info" "Loading permissions and users"
             [("includeUsers", JBool (users flags)); ("step", JStr "permissions")]) ;;
     await Load.loadRoles source ;;
     await Load.loadPolicies source ;;
     await Load.loadPermissions source ;;
     when (users flags) (await Load.loadUsers source) ;;
     await Load.loadAccess source) ;;
  when (files flags)
    (logStep "Loading files" "files" ;;
     await Load.loadFolders source ;;
     await Load.loadFiles source) ;;
  when (content flags)
    (logStep "Loading content data" "content" ;;
     await Load.loadData source) ;;
  when (schema_flag flags)
    (logStep "Updating required fields" "updateRequiredFields" ;;
     await Load.updateRequiredFields source) ;;
  when (dashboards flags)
    (logStep "Loading dashboards" "dashboards" ;;
     await Load.loadDashboards source) ;;
  when (flows flags)
    (logStep "Loading flows" "flows" ;;
     await Load.loadFlows source) ;;
  when (settings flags)
    (logStep "Loading settings" "settings" ;;
     await Load.loadSettings source ;;
     await Load.loadTranslations source ;;
     await Load.loadPresets source) ;;
  when (extensions flags)
    (logStep "Loading extensions" "extensions" ;;
     await Load.loadExtensions source) ;;
  call (Rp := Load.Reply)
       (Load.log "info" "Apply operation completed" [("source", JStr source)]).

(** The loaders that a run has called, in order, each with the directory
    that it was given. *)
Definition loadsOf (calls : list Load.Call) : list (Load.Step * string) :=
  omap (fun r => match r with
                 | Load.load loader source => Some (loader, source)
                 | _ => None
                 end) calls.

Definition isUxError (r : Load.Call) : bool :=
  match r with Load.uxError _ => true | _ => false end.

(** No call but [ux.error] throws. *)
Definition returning (r : Load.Call) (x : Thrown + Load.Reply r) : Prop :=
  isUxError r = false -> exists v, x = inr v.

(** ** lib/utils/sanitize-flags.ts *)

Definition SENSITIVE_FLAGS : gset string :=
  list_to_set ["userEmail"; "userPassword"; "directusToken"].

(** [Object.fromEntries(Object.entries(flags).filter(..))]. *)
Definition sanitizeFlags (flags : gmap string JVal) : gmap string JVal :=
  filter (fun entry => entry.1 ∉ SENSITIVE_FLAGS) flags.

(** ** [waitFor] *)

Record WaitOptions := {
  errorMessage : option string;
  interval : option Z;
  maxAttempts : option Z
}.

Inductive WaitCall :=
| CheckFn
| SetTimeout (interval : Z).

Definition WaitReply (r : WaitCall) : Type :=
  match r with
  | CheckFn => bool
  | SetTimeout _ => unit
  end.

(** The [for] loop with [attempts] iterations left. *)
Fixpoint waitFor_loop (attempts : nat) (errorMessage : string) (interval : Z)
    : Script WaitCall WaitReply bool :=
  match attempts with
  | O => Throw (ErrorObject "Error" errorMessage)
  | S attempts' =>
      passed ← call CheckFn;
      if (passed : bool) then Done true
      else
        call (SetTimeout interval) ;;
        waitFor_loop attempts' errorMessage interval
  end.

(** [maxAttempts] is taken as an integer: [i < maxAttempts] holds for
    [Z.to_nat maxAttempts] values of [i] from 0 on. *)
Definition waitFor (options : WaitOptions) : Script WaitCall WaitReply bool :=
  waitFor_loop (Z.to_nat (default 30%Z (maxAttempts options)))
               (default "Operation timed out" (errorMessage options))
               (default 2000%Z (interval options)).

(** The environment of [waitFor] in which [checkFn] gives the [answers] in
    turn (and [false] when they run out) and the timer fires. *)
Definition checking (answers : list (Thrown + bool)) (r : WaitCall)
    : (Thrown + WaitReply r) * list (Thrown + bool) :=
  match r return (Thrown + WaitReply r) * list (Thrown + bool) with
  | CheckFn =>
      match answers with
      | answer :: rest => (answer, rest)
      | [] => (inr false, [])
      end
  | SetTimeout _ => (inr tt, answers)
  end.

(** The calls of [n] failed attempts. *)
Definition failedAttempts (n : nat) (interval : Z) : list WaitCall :=
  concat (replicate n [CheckFn; SetTimeout interval]).

(** ** What the requests of [loadData] touch *)

Definition requestCollection (r : Request) : option string :=
  match r with
  | ReadItems name _ | CreateItems name _ | UpdateItemsBatch name _
  | UpdateSingleton name _ => Some name
  | _ => None
  end.

(** The three conditions of the filter chain of [loadSingletons]. *)
Definition eligibleSingleton (targetCollections : gset string) (item : Collection)
    : bool :=
  negb (String.prefix "directus_" (collection item))
  && from_option singleton false (meta item)
  && bool_decide (collection item ∈ targetCollections).

(** The request is about a collection of the blob that passes the filter
    chain of its phase and has a content blob. *)
Definition withinChain (dir : Template) (collections : list Collection)
    (targetCollections : gset string) (r : Request) : Prop :=
  forall name,
    requestCollection r = Some name ->
    exists item,
      item ∈ collections
      /\ collection item = name
      /\ is_Some (readFile_allowMissing name dir)
      /\ (if isUpdateSingleton r
          then eligibleSingleton targetCollections item
          else eligible targetCollections item) = true.

(** No colon among the characters of a name. *)
Definition colonFree (name : string) : bool :=
  forallb (fun c => negb (Ascii.eqb c ":")) (list_ascii_of_string name).

(** ** api/handlers.ts *)

(** The loop of [buildBooleanDefaults]: [result[field] = body[field] !== false]. *)
Definition buildBooleanDefaults (body : gmap string JVal) (fields : list string)
    : gmap string bool :=
  fold_left
    (fun (result : gmap string bool) field =>
       <[field := negb (strictEquals (getProp body field) (JBool false))]> result)
    fields ∅.

(** The double-quote character. *)
Definition doubleQuote : string := String (ascii_of_nat 34) EmptyString.

(** What [getLocalTemplate] and its siblings return. *)
Record TemplateInfo := { directoryPath : string; templateName : string }.

(** [res.status(status).json(body)], and [res.send(buffer)] after the three
    [res.setHeader] calls. *)
Inductive HttpResponse :=
| Json (status : Z) (body : gmap string JVal)
| Download (headers : list (string * JVal)) (buffer : string).

(** The calls of the handlers: the helpers of the repository that are not in
    the listing, [fs], [child_process], the gzip pipeline, the logger and the
    response. *)
Module Api.

Inductive Call :=
| initializeDirectusApi (directusToken directusUrl userEmail userPassword : JVal)
| getLocalTemplate (location : JVal)
| getCommunityTemplates
| getGithubTemplate (location : JVal)
| validateApplyFlags (flags : gmap string JVal)
| apply (templateDir : string) (validatedFlags : gmap string JVal)
| extract (directory : string) (flags : gmap string bool)
| generatePackageJsonContent (name : JVal)
| generateReadmeContent (name : JVal)
| mkdtempSync (prefix : string)
| mkdirSync (dir : string)
| existsSync (dir : string)
| rmSync (dir : string)
| writeFileSync (file content : string)
| readFileSync (file : string)
| unlinkSync (file : string)
| execAsync (command : string)
| gzipPipeline (source destination : string)
| log (level message : string) (detail : gmap string JVal)
| respond (response : HttpResponse).

Definition Reply (r : Call) : Type :=
  match r with
  | getLocalTemplate _ | getGithubTemplate _ => TemplateInfo
  | getCommunityTemplates => list TemplateInfo
  | validateApplyFlags _ => gmap string JVal
  | generatePackageJsonContent _ | generateReadmeContent _ => string
  | mkdtempSync _ => string
  | existsSync _ => bool
  | readFileSync _ => string
  | _ => unit
  end.

End Api.

(** The functions of [path], [os] and [Buffer] that the handlers use.  The
    functions of [path] throw [invalidArgument] when an argument is not a
    string. *)
Record Platform := {
  path_join : string -> string -> string;
  path_resolve : string -> string;
  path_dirname : string -> string;
  path_basename : string -> string;
  invalidArgument : JVal -> Thrown;
  os_tmpdir : string;
  toBase64 : string -> string
}.

(** A value of the body as an argument of [path.join] or [path.resolve]. *)
Definition asPath (P : Platform) (v : JVal) : Thrown + string :=
  match v with
  | JStr s => inr s
  | _ => inl (invalidArgument P v)
  end.

Definition isRespond (r : Api.Call) : bool :=
  match r with Api.respond _ => true | _ => false end.

Definition isLog (r : Api.Call) : bool :=
  match r with Api.log _ _ _ => true | _ => false end.

Definition api (r : Api.Call) : Script Api.Call Api.Reply (Api.Reply r) := call r.

(** A value computed without a call, or the exception of computing it. *)
Definition pure {A : Type} (x : Thrown + A) : Script Api.Call Api.Reply A :=
  match x with
  | inl error => Throw error
  | inr a => Done a
  end.

(** [command]: [tar -cf "out" -C "dirname" "basename"]. *)
Definition createTarArchive (P : Platform) (sourceDir outputPath : string)
    : Script Api.Call Api.Reply unit :=
  api (Api.execAsync
         ("tar -cf " +:+ doubleQuote +:+ outputPath +:+ doubleQuote
          +:+ " -C " +:+ doubleQuote +:+ path_dirname P sourceDir +:+ doubleQuote
          +:+ " " +:+ doubleQuote +:+ path_basename P sourceDir +:+ doubleQuote)).

(** [outputPath.replace(/\.gz$/, '')]. *)
Definition withoutGzSuffix (outputPath : string) : string :=
  let n := String.length outputPath in
  if (3 <=? n)%nat && String.eqb (String.substring (n - 3) 3 outputPath) ".gz"
  then String.substring 0 (n - 3) outputPath
  else outputPath.

Definition createTarGzArchive (P : Platform) (sourceDir outputPath : string)
    : Script Api.Call Api.Reply unit :=
  let tarPath := withoutGzSuffix outputPath in
  createTarArchive P sourceDir tarPath ;;
  api (Api.gzipPipeline tarPath outputPath) ;;
  api (Api.unlinkSync tarPath).

Definition removeDirectory (dir : string) : Script Api.Call Api.Reply unit :=
  found ← api (Api.existsSync dir);
  if (found : bool) then api (Api.rmSync dir) else Done tt.

Definition capabilities : list string :=
  ["content"; "dashboards"; "extensions"; "files"; "flows"; "permissions";
   "schema"; "settings"; "users"].

Definition badRequest (message : string) : HttpResponse :=
  Json 400 {[ "error" := JStr message; "success" := JBool false ]}.

(** The response of the [catch] block. *)
Definition serverError (error : Thrown) : HttpResponse :=
  Json 500
    {[ "error" := JStr match error with
                       | ErrorObject _ message => message
                       | ThrownValue _ => "Unknown error occurred"
                       end;
       "success" := JBool false ]}.

(** [error instanceof Error ? error.message : String(error)]. *)
Definition errorText (error : Thrown) : string :=
  match error with
  | ErrorObject _ message => message
  | ThrownValue v => toStringValue v
  end.

(** [logger.log('error', message, {error: ...})] of the [catch] blocks. *)
Definition logError (message : string) (error : Thrown) : Api.Call :=
  Api.log "error" message {[ "error" := JStr (errorText error) ]}.

(** [!body.directusToken && (!body.userEmail || !body.userPassword)]. *)
Definition missingCredentials (body : gmap string JVal) : bool :=
  negb (truthyValue (getProp body "directusToken"))
  && (negb (truthyValue (getProp body "userEmail"))
      || negb (truthyValue (getProp body "userPassword"))).

(** The local [flags] of [applyTemplate]. *)
Definition applyFlagsOf (body : gmap string JVal) (templateType : JVal)
    : gmap string JVal :=
  let booleanFlags := buildBooleanDefaults body capabilities in
  let flag name := from_option JBool JUndef (booleanFlags !! name) in
  list_to_map
    [("content", flag "content");
     ("dashboards", flag "dashboards");
     ("directusToken", orElse (getProp body "directusToken") (JStr ""));
     ("directusUrl", getProp body "directusUrl");
     ("extensions", flag "extensions");
     ("files", flag "files");
     ("flows", flag "flows");
     ("partial", orElse (getProp body "partial") (JBool false));
     ("permissions", flag "permissions");
     ("programmatic", JBool true);
     ("schema", flag "schema");
     ("settings", flag "settings");
     ("templateLocation", getProp body "templateLocation");
     ("templateType", templateType);
     ("userEmail", orElse (getProp body "userEmail") (JStr ""));
     ("userPassword", orElse (getProp body "userPassword") (JStr ""));
     ("users", flag "users")].

(** [applyTemplate] from the flags on, once the template directory is
    known. *)
Definition applyFrom (body : gmap string JVal) (templateType : JVal)
    (templateDir : string) : Script Api.Call Api.Reply unit :=
  validatedFlags ← api (Api.validateApplyFlags (applyFlagsOf body templateType));
  api (Api.apply templateDir validatedFlags) ;;
  api (Api.respond
         (Json 200
            {[ "data" := JObj {[ "templateLocation" := getProp body "templateLocation";
                                 "templateType" := templateType ]};
               "message" := JStr "Template applied successfully";
               "success" := JBool true ]})).

Definition applyTemplate (body : gmap string JVal) : Script Api.Call Api.Reply unit :=
  tryCatch
    (if negb (truthyValue (getProp body "directusUrl")) then
       api (Api.respond (badRequest "directusUrl is required"))
     else if missingCredentials body then
       api (Api.respond
              (badRequest
                 "Either directusToken or both userEmail and userPassword are required"))
     else if negb (truthyValue (getProp body "templateLocation")) then
       api (Api.respond (badRequest "templateLocation is required"))
     else
       api (Api.initializeDirectusApi
              (getProp body "directusToken") (getProp body "directusUrl")
              (getProp body "userEmail") (getProp body "userPassword")) ;;
       let templateType := orElse (getProp body "templateType") (JStr "local") in
       if strictEquals templateType (JStr "local") then
         template ← api (Api.getLocalTemplate (getProp body "templateLocation"));
         applyFrom body templateType (directoryPath template)
       else if strictEquals templateType (JStr "community") then
         templates ← api Api.getCommunityTemplates;
         match List.find
                 (fun t => strictEquals (JStr (templateName t))
                                        (getProp body "templateLocation"))
                 templates with
         | None =>
             api (Api.respond
                    (Json 404
                       {[ "error" :=
                            JStr ("Template '"
                                  +:+ toStringValue (getProp body "templateLocation")
                                  +:+ "' not found in community templates");
                          "success" := JBool false ]}))
         | Some template => applyFrom body templateType (directoryPath template)
         end
       else if strictEquals templateType (JStr "github") then
         template ← api (Api.getGithubTemplate (getProp body "templateLocation"));
         applyFrom body templateType (directoryPath template)
       else
         api (Api.respond
                (badRequest
                   ("Invalid templateType. Must be "
                    +:+ doubleQuote +:+ "local" +:+ doubleQuote +:+ ", "
                    +:+ doubleQuote +:+ "community" +:+ doubleQuote +:+ ", or "
                    +:+ doubleQuote +:+ "github" +:+ doubleQuote))))
    (fun error =>
       api (logError "Error applying template" error) ;;
       api (Api.respond (serverError error))).

(** [extractTemplate] once the directory exists: the two generated files and
    the extraction. *)
Definition extractInto (P : Platform) (body : gmap string JVal) (directory : string)
    : Script Api.Call Api.Reply unit :=
  packageJSONContent ← api (Api.generatePackageJsonContent (getProp body "templateName"));
  readmeContent ← api (Api.generateReadmeContent (getProp body "templateName"));
  api (Api.writeFileSync (path_join P directory "package.json") packageJSONContent) ;;
  api (Api.writeFileSync (path_join P directory "README.md") readmeContent) ;;
  api (Api.extract directory (buildBooleanDefaults body capabilities)).

(** The name of the archive, [`${body.templateName}.tar.gz`]. *)
Definition archiveName (body : gmap string JVal) : string :=
  toStringValue (getProp body "templateName") +:+ ".tar.gz".

(** The [try] block of [extractTemplate] from the assignment of [tempDir]
    on, when [body.returnArchive] holds. *)
Definition extractArchive (P : Platform) (body : gmap string JVal) (tempDir : string)
    : Script Api.Call Api.Reply unit :=
  name ← pure (asPath P (getProp body "templateName"));
  let directory := path_join P tempDir name in
  api (Api.mkdirSync directory) ;;
  extractInto P body directory ;;
  let archivePath := path_join P tempDir (archiveName body) in
  createTarGzArchive P directory archivePath ;;
  archiveBuffer ← api (Api.readFileSync archivePath);
  (if strictEquals (getProp body "archiveFormat") (JStr "base64") then
     api (Api.respond
            (Json 200
               {[ "data" :=
                    JObj {[ "archive" := JStr (toBase64 P archiveBuffer);
                            "contentType" := JStr "application/gzip";
                            "filename" := JStr (archiveName body);
                            "size" := JNum (Z.of_nat (String.length archiveBuffer));
                            "templateName" := getProp body "templateName" ]};
                  "message" := JStr "Template extracted successfully";
                  "success" := JBool true ]}))
   else
     api (Api.respond
            (Download
               [("Content-Type", JStr "application/gzip");
                ("Content-Disposition",
                 JStr ("attachment; filename=" +:+ doubleQuote +:+ archiveName body
                       +:+ doubleQuote));
                ("Content-Length", JNum (Z.of_nat (String.length archiveBuffer)))]
               archiveBuffer))) ;;
  removeDirectory tempDir.

(** The same when [body.returnArchive] does not hold. *)
Definition extractToDisk (P : Platform) (body : gmap string JVal)
    : Script Api.Call Api.Reply unit :=
  location ← pure (asPath P (getProp body "templateLocation"));
  let directory := path_resolve P location in
  found ← api (Api.existsSync directory);
  (if (found : bool) then Done tt else api (Api.mkdirSync directory)) ;;
  extractInto P body directory ;;
  api (Api.respond
         (Json 200
            {[ "data" := JObj {[ "templateLocation" := getProp body "templateLocation";
                                 "templateName" := getProp body "templateName" ]};
               "message" := JStr "Template extracted successfully";
               "success" := JBool true ]})).

(** Where the [try] block of [extractTemplate] stands when [tempDir] is
    assigned or left [null]. *)
Inductive Prologue :=
| Responded
| Ready (tempDir : option string).

(** The [try] block up to the assignment of [tempDir], under the [catch]
    block as it runs while [tempDir] is [null]. *)
Definition extractPrologue (P : Platform) (body : gmap string JVal)
    : Script Api.Call Api.Reply Prologue :=
  tryCatch
    (if negb (truthyValue (getProp body "directusUrl")) then
       api (Api.respond (badRequest "directusUrl is required")) ;; Done Responded
     else if missingCredentials body then
       api (Api.respond
              (badRequest
                 "Either directusToken or both userEmail and userPassword are required")) ;;
       Done Responded
     else if negb (truthyValue (getProp body "templateName")) then
       api (Api.respond (badRequest "templateName is required")) ;; Done Responded
     else if negb (truthyValue (getProp body "returnArchive"))
             && negb (truthyValue (getProp body "templateLocation")) then
       api (Api.respond
              (badRequest "templateLocation is required when returnArchive is not set")) ;;
       Done Responded
     else
       api (Api.initializeDirectusApi
              (getProp body "directusToken") (getProp body "directusUrl")
              (getProp body "userEmail") (getProp body "userPassword")) ;;
       if truthyValue (getProp body "returnArchive") then
         tempDir ← api (Api.mkdtempSync
                          (path_join P (os_tmpdir P) "directus-template-"));
         Done (Ready (Some tempDir))
       else Done (Ready None))
    (fun error =>
       api (logError "Error extracting template" error) ;;
       api (Api.respond (serverError error)) ;;
       Done Responded).

(** The rest of the [try] block runs under the [catch] block that knows
    [tempDir]: [if (tempDir) removeDirectory(tempDir)], then the log entry
    and the 500. *)
Definition extractTemplate (P : Platform) (body : gmap string JVal)
    : Script Api.Call Api.Reply unit :=
  prologue ← extractPrologue P body;
  match prologue with
  | Responded => Done tt
  | Ready None =>
      tryCatch (extractToDisk P body)
               (fun error =>
                  api (logError "Error extracting template" error) ;;
                  api (Api.respond (serverError error)))
  | Ready (Some tempDir) =>
      tryCatch (extractArchive P body tempDir)
               (fun error =>
                  (if truthy tempDir then removeDirectory tempDir else Done tt) ;;
                  api (logError "Error extracting template" error) ;;
                  api (Api.respond (serverError error)))
  end.

(** ** lib/extract/extract-fields.ts and extract-relations.ts *)

(** As in the loader, the progress display ([ux.action.start] and
    [ux.action.stop]) is not part of the scripts: they hold the requests to
    the instance, the file that is written and the error-capture point. *)

(** A field as the instance returns it: [row_meta] is [None] when [meta] is
    [null] or missing; [row_other] holds the properties that the extractors do
    not look at. *)
Record FieldRow := {
  row_collection : string;
  row_field : string;
  row_meta : option (gmap string JVal);
  row_other : gmap string JVal
}.

Inductive FieldsResponse :=
| FieldsArray (rows : list FieldRow)
| NotAnArray (v : JVal).

Inductive ExtractedBlob :=
| FieldsBlob (rows : list FieldRow)
| RelationsBlob (relations : list Relation).

(** The calls of the two extractors: the requests to the instance,
    [writeToFile] and the error-capture point, which are not in the
    listing. *)
Module Sdk.

Inductive Call :=
| readCollections
| readFields
| readRelations
| writeToFile (name : string) (blob : ExtractedBlob) (dir : string)
| catchError (error : Thrown) (context : list (string * JVal)) (fatal : bool).

Definition Reply (r : Call) : Type :=
  match r with
  | readCollections => list Collection
  | readFields => FieldsResponse
  | readRelations => list Relation
  | writeToFile _ _ _ => unit
  | catchError _ _ _ => unit
  end.

End Sdk.

(** [i.meta.system], for a field that has a [meta]. *)
Definition isSystem (row : FieldRow) : bool :=
  from_option (fun m => truthyValue (getProp m "system")) false (row_meta row).

(** [if (i.meta) delete i.meta.id]. *)
Definition withoutMetaId (row : FieldRow) : FieldRow :=
  {| row_collection := row_collection row;
     row_field := row_field row;
     row_meta := delete "id" <$> row_meta row;
     row_other := row_other row |}.

(** The value of the local [fields] of [extractFields]. *)
Definition extractedFields (collections : list Collection)
    (response : list FieldRow) : list FieldRow :=
  let extensionsCollections := extensionCollectionNamesOf collections in
  withoutMetaId
    <$> List.filter
          (fun i => negb (bool_decide (row_collection i ∈ extensionsCollections)))
          (List.filter
             (fun i => bool_decide (is_Some (row_meta i)) && negb (isSystem i))
             response).

Definition extractFields (dir : string) : Script Sdk.Call Sdk.Reply unit :=
  tryCatch
    (collections ← call (Rp := Sdk.Reply) Sdk.readCollections;
     response ← call (Rp := Sdk.Reply) Sdk.readFields;
     match response with
     | NotAnArray _ => Throw (ErrorObject "TypeError" "Unexpected response format")
     | FieldsArray response =>
         call (Rp := Sdk.Reply) (Sdk.writeToFile "fields"
                 (FieldsBlob (extractedFields collections response)) dir)
     end)
    (fun error =>
       call (Rp := Sdk.Reply) (Sdk.catchError error [("operation", JStr "extractFields")] true)).

(** [delete i.meta.id], which throws a [TypeError] when [meta] is [null]:
    [None]. *)
Definition withoutRelationId (relation : Relation) : option Relation :=
  match rel_meta relation with
  | Some m =>
      Some {| rel_collection := rel_collection relation;
              rel_field := rel_field relation;
              related_collection := related_collection relation;
              rel_meta := Some (delete "id" m) |}
  | None => None
  end.

(** [customFields.some(f => f.collection === i.collection && f.field === i.field)]. *)
Definition hasCustomField (customFields : list FieldRow) (relation : Relation)
    : bool :=
  existsb (fun f => String.eqb (row_collection f) (rel_collection relation)
                    && String.eqb (row_field f) (rel_field relation))
          customFields.

(** The value of the local [relations] of [extractRelations]; [None] when
    the [map] over the relations that are left throws. *)
Definition extractedRelations (collections : list Collection)
    (response : list Relation) (fields : list FieldRow) : option (list Relation) :=
  let extensionsCollections := extensionCollectionNamesOf collections in
  let customFields := List.filter (fun i => negb (isSystem i)) fields in
  mapM withoutRelationId
    (List.filter
       (fun i =>
          negb (bool_decide (rel_collection i ∈ extensionsCollections))
          && negb (bool_decide (default "" (related_collection i)
                                  ∈ extensionsCollections)))
       (List.filter
          (fun i => negb (String.prefix "directus_" (rel_collection i))
                    || hasCustomField customFields i)
          response)).

(** The response of [readFields] is not checked here: [fields.filter] throws
    when it is no array. *)
Definition extractRelations (dir : string) : Script Sdk.Call Sdk.Reply unit :=
  tryCatch
    (collections ← call (Rp := Sdk.Reply) Sdk.readCollections;
     response ← call (Rp := Sdk.Reply) Sdk.readRelations;
     fields ← call (Rp := Sdk.Reply) Sdk.readFields;
     match fields with
     | NotAnArray _ =>
         Throw (ErrorObject "TypeError" "fields.filter is not a function")
     | FieldsArray fields =>
         match extractedRelations collections response fields with
         | Some relations =>
             call (Rp := Sdk.Reply)
                  (Sdk.writeToFile "relations" (RelationsBlob relations) dir)
         | None =>
             Throw (ErrorObject "TypeError" "Cannot convert undefined or null to object")
         end
     end)
    (fun error =>
       call (Rp := Sdk.Reply) (Sdk.catchError error [("operation", JStr "extractRelations")] true)).

(** A relation without the [id] of its [meta]. *)
Definition stripped (relation : Relation) : Relation :=
  {| rel_collection := rel_collection relation;
     rel_field := rel_field relation;
     related_collection := related_collection relation;
     rel_meta := delete "id" <$> rel_meta relation |}.

(** ** A small source instance, for the examples *)

Record SourceInstance := {
  source_collections : list Collection;
  source_fields : FieldsResponse;
  source_relations : list Relation;
  source_files : list (string * ExtractedBlob * string)
}.

Definition serveSource (s : SourceInstance) (r : Sdk.Call)
    : (Thrown + Sdk.Reply r) * SourceInstance :=
  match r return (Thrown + Sdk.Reply r) * SourceInstance with
  | Sdk.readCollections => (inr (source_collections s), s)
  | Sdk.readFields => (inr (source_fields s), s)
  | Sdk.readRelations => (inr (source_relations s), s)
  | Sdk.writeToFile name blob dir =>
      (inr tt,
       {| source_collections := source_collections s;
          source_fields := source_fields s;
          source_relations := source_relations s;
          source_files := source_files s ++ [(name, blob, dir)] |})
  | Sdk.catchError _ _ _ => (inr tt, s)
  end.

Definition plugin : Collection :=
  {| collection := "plugin_log";
     schema := Some {| schema_name := "plugin_log" |};
     meta := Some {| group := Some "_extensions"; singleton := false |} |}.

Definition titleField : FieldRow :=
  {| row_collection := "articles"; row_field := "title";
     row_meta := Some {[ "id" := JNum 11; "interface" := JStr "input" ]};
     row_other := {[ "type" := JStr "string" ]} |}.

Definition emailField : FieldRow :=
  {| row_collection := "directus_users"; row_field := "email";
     row_meta := Some {[ "id" := JNum 3; "system" := JBool true ]};
     row_other := ∅ |}.

Definition nicknameField : FieldRow :=
  {| row_collection := "directus_users"; row_field := "nickname";
     row_meta := None; row_other := ∅ |}.

Definition pluginField : FieldRow :=
  {| row_collection := "plugin_log"; row_field := "line";
     row_meta := Some {[ "id" := JNum 12 ]}; row_other := ∅ |}.

Definition nicknameOf : Relation :=
  {| rel_collection := "directus_users"; rel_field := "nickname";
     related_collection := Some "articles";
     rel_meta := Some {[ "id" := JNum 8 ]} |}.

Definition roleOf : Relation :=
  {| rel_collection := "directus_users"; rel_field := "role";
     related_collection := Some "directus_roles";
     rel_meta := Some {[ "id" := JNum 1 ]} |}.

Definition logOf : Relation :=
  {| rel_collection := "articles"; rel_field := "log";
     related_collection := Some "plugin_log";
     rel_meta := Some {[ "id" := JNum 9 ]} |}.

Definition bodyField : FieldRow :=
  {| row_collection := "articles"; row_field := "body";
     row_meta := Some {[ "id" := JNum 13; "system" := JBool false ]};
     row_other := ∅ |}.

Definition demoSource : SourceInstance :=
  {| source_collections := [articles; site; plugin];
     source_fields :=
       FieldsArray [titleField; emailField; nicknameField; pluginField; bodyField];
     source_relations := [authorOf; nicknameOf; roleOf; logOf];
     source_files := [] |}.

(** A collections blob with a collection whose [meta] is [null]. *)
Definition folderTemplate : Template :=
  {| blob_collections :=
       Some [articles;
             {| collection := "drafts";
                schema := Some {| schema_name := "drafts" |};
                meta := None |}];
     blob_fields := blob_fields demoTemplate;
     blob_relations := blob_relations demoTemplate;
     blob_content := blob_content demoTemplate |}.

(** ** Every run of a script *)

(** [P] holds of the calls and of the outcome of every run of [m] in which
    each call is answered within [allowed]. *)
Fixpoint everyRun {Rq : Type} {Rp : Rq -> Type} {A : Type}
    (allowed : forall r : Rq, Thrown + Rp r -> Prop)
    (m : Script Rq Rp A) (P : list Rq -> Thrown + A -> Prop) : Prop :=
  match m with
  | Done a => P [] (inr a)
  | Throw e => P [] (inl e)
  | Call r k =>
      forall x, allowed r x -> everyRun allowed (k x) (fun t o => P (r :: t) o)
  end.

(** The environment answers within [allowed]. *)
Definition answersWithin {Rq : Type} {Rp : Rq -> Type} {St : Type}
    (allowed : forall r : Rq, Thrown + Rp r -> Prop)
    (handle : St -> forall r : Rq, (Thrown + Rp r) * St) : Prop :=
  forall s r, allowed r (handle s r).1.

(** Writing to the log and sending the response do not throw. *)
Definition responding (r : Api.Call) (x : Thrown + Api.Reply r) : Prop :=
  isRespond r || isLog r = true -> exists v, x = inr v.

(** The temporary directory is created as [tempDir]; looking for it finds
    it, removing it does not throw, and neither do writing to the log and
    sending a response. *)
Definition tidy (tempDir : string) (r : Api.Call) (x : Thrown + Api.Reply r) : Prop :=
  match r return Thrown + Api.Reply r -> Prop with
  | Api.respond _ | Api.log _ _ _ => fun x => x = inr tt
  | Api.rmSync dir => fun x => dir = tempDir -> x = inr tt
  | Api.existsSync dir => fun x => dir = tempDir -> x = inr true
  | Api.mkdtempSync _ => fun x => x = inr tempDir
  | _ => fun _ => True
  end x.

(** The calls of a run other than the responses and the log entries. *)
Definition otherCalls (calls : list Api.Call) : list Api.Call :=
  List.filter (fun r => negb (isRespond r || isLog r)) calls.

(** A platform and an environment for the examples: every helper returns,
    and the state is the list of the files written. *)
Definition demoPlatform : Platform :=
  {| path_join := fun a b => a +:+ "/" +:+ b;
     path_resolve := fun a => a;
     invalidArgument :=
       fun _ => ErrorObject "TypeError" "The path argument must be of type string";
     path_dirname := fun _ => "/tmp/t";
     path_basename := fun _ => "demo";
     os_tmpdir := "/tmp";
     toBase64 := fun buffer => buffer |}.

Definition serveApi (s : list string) (r : Api.Call)
    : (Thrown + Api.Reply r) * list string :=
  match r return (Thrown + Api.Reply r) * list string with
  | Api.getLocalTemplate _ | Api.getGithubTemplate _ =>
      (inr {| directoryPath := "/templates/demo"; templateName := "demo" |}, s)
  | Api.getCommunityTemplates =>
      (inr [ {| directoryPath := "/templates/demo"; templateName := "demo" |} ], s)
  | Api.validateApplyFlags flags => (inr flags, s)
  | Api.generatePackageJsonContent _ => (inr "{}", s)
  | Api.generateReadmeContent _ => (inr "# demo", s)
  | Api.mkdtempSync _ => (inr "/tmp/t", s)
  | Api.existsSync dir => (inr (String.eqb dir "/tmp/t"), s)
  | Api.readFileSync _ => (inr "archive", s)
  | Api.writeFileSync file _ => (inr tt, s ++ [file])
  | Api.initializeDirectusApi _ _ _ _ => (inr tt, s)
  | Api.apply _ _ => (inr tt, s)
  | Api.extract _ _ => (inr tt, s)
  | Api.mkdirSync _ => (inr tt, s)
  | Api.rmSync _ => (inr tt, s)
  | Api.unlinkSync _ => (inr tt, s)
  | Api.execAsync _ => (inr tt, s)
  | Api.gzipPipeline _ _ => (inr tt, s)
  | Api.log _ _ _ => (inr tt, s)
  | Api.respond _ => (inr tt, s)
  end.

Definition demoApplyBody : gmap string JVal :=
  {[ "directusUrl" := JStr "http://localhost:8055";
     "directusToken" := JStr "token";
     "templateLocation" := JStr "./demo";
     "users" := JBool false ]}.

Definition demoExtractBody : gmap string JVal :=
  {[ "directusUrl" := JStr "http://localhost:8055";
     "directusToken" := JStr "token";
     "templateName" := JStr "demo";
     "returnArchive" := JBool true ]}.

(** Every run of [m] calls the loaders [steps], in this order and up to the
    first call that throws, and does not call [ux.error]; it returns when no
    call throws. *)
Definition performs {A : Type} (m : Script Load.Call Load.Reply A)
    (steps : list (Load.Step * string)) : Prop :=
  forall (St : Type) (handle : St -> forall r : Load.Call, (Thrown + Load.Reply r) * St)
         (s : St),
    loadsOf (runScript handle m s).2 `prefix_of` steps
    /\ ((exists a, (runScript handle m s).1.1 = inr a) ->
        loadsOf (runScript handle m s).2 = steps)
    /\ Forall (fun r => isUxError r = false) (runScript handle m s).2
    /\ (answersWithin returning handle -> exists a, (runScript handle m s).1.1 = inr a).

(** An environment for [apply] on the reference target: the loaders of the
    listing run as they are modelled, the others do nothing, and [ux.error]
    throws its message. *)
Definition thrownBy (f : Failure) : Thrown :=
  match f with
  | Fatal error _ | Uncaught error => ErrorObject "Error" error
  end.

Definition serveLoads (rounds : nat) (template : Template) (s : Target.t)
    (r : Load.Call) : (Thrown + Load.Reply r) * Target.t :=
  let ran (p : Prog) : (Thrown + unit) * Target.t :=
    match run Target.handle p s with
    | (Completed, s', _) => (inr tt, s')
    | (Failed f, s', _) => (inl (thrownBy f), s')
    | (Diverged, s', _) => (inl (ErrorObject "Error" "out of rounds"), s')
    end in
  match r return (Thrown + Load.Reply r) * Target.t with
  | Load.log _ _ _ => (inr tt, s)
  | Load.uxError message => (inl (ErrorObject "CLIError" message), s)
  | Load.load Load.loadRelations _ => ran (exec (loadRelations template))
  | Load.load Load.loadData _ => ran (exec (loadData rounds template))
  | Load.load _ _ => (inr tt, s)
  end.

Definition schemaAndContent : ApplyFlags :=
  {| content := true; dashboards := false; extensions := false; files := false;
     flows := false; permissions := false; schema_flag := true; settings := false;
     users := false |}.

(** A directory of the older format: the fields blob is missing. *)
Definition olderTemplate : Template :=
  {| blob_collections := blob_collections demoTemplate;
     blob_fields := None;
     blob_relations := blob_relations demoTemplate;
     blob_content := blob_content demoTemplate |}.

(** * Properties *)

(** Unfolds the plumbing of [M]. *)
Ltac unfold_M :=
  unfold exec, mbind, M_bind, bind, mret, M_ret, ret, request, throw,
    promiseAll, catchError, when in *.

(** ** Lists, chunks and sets of keys *)


Lemma filter_filter_andb {A} (f g : A -> bool) (l : list A) :
  List.filter g (List.filter f l) = List.filter (fun x => f x && g x) l.
Proof.
  induction l as [|x l IH]; simpl; [reflexivity|].
  destruct (f x); simpl; [destruct (g x)|]; rewrite IH; reflexivity.
Qed.

Lemma chunk_from_concat {A} (steps size : nat) (array : list A) :
  (0 < size)%nat -> (length array <= steps)%nat ->
  concat (chunk_from steps array size) = array.
Proof.
  intros Hsize. revert array.
  induction steps as [|steps IH]; intros array Hlen.
  - destruct array; [reflexivity | simpl in Hlen; lia].
  - destruct array as [|x array]; [reflexivity|].
    cbn [chunk_from concat]. rewrite IH.
    + apply take_drop.
    + rewrite length_drop. simpl in *. lia.
Qed.

Lemma chunk_from_sizes {A} (steps size : nat) (array : list A) :
  (0 < size)%nat ->
  Forall (fun batch => (0 < length batch <= size)%nat) (chunk_from steps array size).
Proof.
  intros Hsize. revert array.
  induction steps as [|steps IH]; intros array; [constructor|].
  destruct array as [|x array]; [constructor|].
  cbn [chunk_from]. constructor; [|apply IH].
  rewrite length_take. simpl. lia.
Qed.

Lemma chunkArray_concat {A} (array : list A) (size : nat) :
  (0 < size)%nat -> concat (chunkArray array size) = array.
Proof. intros. apply chunk_from_concat; [assumption | reflexivity]. Qed.

Lemma chunkArray_sizes {A} (array : list A) (size : nat) :
  (0 < size)%nat ->
  Forall (fun batch => (0 < length batch <= size)%nat) (chunkArray array size).
Proof. intros. apply chunk_from_sizes; assumption. Qed.

Lemma chunkArray_nil {A} (size : nat) : chunkArray (@nil A) size = [].
Proof. reflexivity. Qed.

Lemma concat_fmap_fmap {A B} (f : A -> B) (ls : list (list A)) :
  concat ((fun l : list A => f <$> l) <$> ls) = f <$> concat ls.
Proof.
  induction ls as [|l ls IH]; [reflexivity|].
  rewrite fmap_cons. cbn [concat]. rewrite IH, fmap_app. reflexivity.
Qed.

Lemma sameValueZero_eq (a b : JVal) : sameValueZero a b = true -> a = b.
Proof.
  destruct a, b; simpl; try discriminate; intros H; try reflexivity.
  - apply Bool.eqb_prop in H. congruence.
  - apply Z.eqb_eq in H. congruence.
  - apply String.eqb_eq in H. congruence.
Qed.

Lemma sameValueZero_refl (v : JVal) : isScalar v = true -> sameValueZero v v = true.
Proof.
  destruct v; simpl; try discriminate; intros _.
  - apply Z.eqb_refl.
  - apply String.eqb_refl.
Qed.

Lemma JSet_has_app (s1 s2 : JSet.t) (v : JVal) :
  JSet.has (s1 ++ s2) v = JSet.has s1 v || JSet.has s2 v.
Proof. unfold JSet.has. apply existsb_app. Qed.

Lemma JSet_has_add (s : JSet.t) (v w : JVal) :
  JSet.has (JSet.add s w) v = JSet.has s v || sameValueZero v w.
Proof.
  unfold JSet.add. destruct (JSet.has s w) eqn:Hw.
  - destruct (sameValueZero v w) eqn:Hvw; [|rewrite orb_false_r; reflexivity].
    apply sameValueZero_eq in Hvw. subst. rewrite Hw. reflexivity.
  - rewrite JSet_has_app. simpl. rewrite orb_false_r. reflexivity.
Qed.

Lemma keysOf_has (primaryKeyField : string) (pages : list (list (gmap string JVal)))
    (existingKeys : JSet.t) (v : JVal) :
  JSet.has (keysOf primaryKeyField existingKeys pages) v
  = JSet.has existingKeys v
    || existsb (fun item => sameValueZero v (getProp item primaryKeyField))
               (concat pages).
Proof.
  unfold keysOf. generalize (concat pages) as items. intros items.
  revert existingKeys.
  induction items as [|item items IH]; intros existingKeys; simpl.
  - rewrite orb_false_r. reflexivity.
  - rewrite IH, JSet_has_add, orb_assoc. reflexivity.
Qed.

Lemma keysOf_app (primaryKeyField : string) (existingKeys : JSet.t)
    (pages1 pages2 : list (list (gmap string JVal))) :
  keysOf primaryKeyField existingKeys (pages1 ++ pages2)
  = keysOf primaryKeyField (keysOf primaryKeyField existingKeys pages1) pages2.
Proof. unfold keysOf. rewrite concat_app, fold_left_app. reflexivity. Qed.

Lemma keysOf_cons (primaryKeyField : string) (existingKeys : JSet.t)
    (response : list (gmap string JVal)) (pages : list (list (gmap string JVal))) :
  keysOf primaryKeyField existingKeys (response :: pages)
  = keysOf primaryKeyField
      (fold_left (fun keys item => JSet.add keys (getProp item primaryKeyField))
                 response existingKeys)
      pages.
Proof. unfold keysOf. cbn [concat]. rewrite fold_left_app. reflexivity. Qed.

(** ** The map of the primary keys *)

Lemma lookup_setProperty_ne (k v name : string) (o : PlainObject) :
  k <> name -> setProperty k v o !! name = o !! name.
Proof.
  intros Hne. unfold setProperty. destruct (String.eqb k "__proto__"); [reflexivity|].
  unfold lookup, PlainObject_lookup. cbn [ownProperties].
  rewrite lookup_insert_ne by exact Hne. reflexivity.
Qed.


(** A collection without a field marked as primary key has no own property
    in the map: reading it gives what every object inherits, if anything. *)
Lemma primaryKeysOf_unmarked (fields : list Field) (name : string) :
  (forall f, f ∈ fields -> field_collection f = name ->
             is_primary_key <$> field_schema f <> Some true) ->
  primaryKeysOf fields !! name = objectPrototype !! name.
Proof.
  unfold primaryKeysOf.
  assert (Hgen : forall acc : PlainObject,
            acc !! name = objectPrototype !! name ->
            (forall f, f ∈ fields -> field_collection f = name ->
                       is_primary_key <$> field_schema f <> Some true) ->
            fold_left
              (fun (primaryKeys : PlainObject) f =>
                 match field_schema f with
                 | Some s =>
                     if is_primary_key s
                     then setProperty (field_collection f) (field f) primaryKeys
                     else primaryKeys
                 | None => primaryKeys
                 end) fields acc !! name = objectPrototype !! name).
  { induction fields as [|f fields IH]; intros acc Hacc Hnone; [exact Hacc|].
    cbn [fold_left]. apply IH.
    - destruct (field_schema f) as [fs|] eqn:Hfs; [|exact Hacc].
      destruct (is_primary_key fs) eqn:Hpk; [|exact Hacc].
      destruct (decide (field_collection f = name)) as [Heq|Hne].
      + exfalso. apply (Hnone f); [left | exact Heq |]. rewrite Hfs. cbn.
        rewrite Hpk. reflexivity.
      + rewrite lookup_setProperty_ne by exact Hne. exact Hacc.
    - intros f' Hin. apply Hnone. right. exact Hin. }
  intros Hnone. apply Hgen; [reflexivity | exact Hnone].
Qed.


(** ** Runs of scripts *)

Lemma runScript_andThen {Rq : Type} {Rp : Rq -> Type} {St A B : Type}
    (handle : St -> forall r : Rq, (Thrown + Rp r) * St)
    (m : Script Rq Rp A) (f : A -> Script Rq Rp B) (s : St) :
  runScript handle (andThen m f) s
  = match runScript handle m s with
    | (inr a, s1, t1) =>
        let '(o, s2, t2) := runScript handle (f a) s1 in (o, s2, t1 ++ t2)
    | (inl e, s1, t1) => (inl e, s1, t1)
    end.
Proof.
  revert s. induction m as [a|e|r k IH]; intros s; cbn [andThen runScript].
  - destruct (runScript handle (f a) s) as [[o s2] t2]. reflexivity.
  - reflexivity.
  - destruct (handle s r) as [x s1]. rewrite IH.
    destruct (runScript handle (k x) s1) as [[[e|a] s2] t1]; [reflexivity|].
    destruct (runScript handle (f a) s2) as [[o s3] t2]. reflexivity.
Qed.

Lemma runScript_tryCatch {Rq : Type} {Rp : Rq -> Type} {St A : Type}
    (handle : St -> forall r : Rq, (Thrown + Rp r) * St)
    (m : Script Rq Rp A) (h : Thrown -> Script Rq Rp A) (s : St) :
  runScript handle (tryCatch m h) s
  = match runScript handle m s with
    | (inr a, s1, t1) => (inr a, s1, t1)
    | (inl e, s1, t1) =>
        let '(o, s2, t2) := runScript handle (h e) s1 in (o, s2, t1 ++ t2)
    end.
Proof.
  revert s. induction m as [a|e|r k IH]; intros s; cbn [tryCatch runScript].
  - reflexivity.
  - destruct (runScript handle (h e) s) as [[o s2] t2]. reflexivity.
  - destruct (handle s r) as [x s1]. rewrite IH.
    destruct (runScript handle (k x) s1) as [[[e|a] s2] t1]; [|reflexivity].
    destruct (runScript handle (h e) s2) as [[o s3] t2]. reflexivity.
Qed.


(** ** The extension group in the extractors *)






(** ** The authentication middleware *)






Lemma substring_all (s : string) : String.substring 0 (String.length s) s = s.
Proof. induction s as [|c s IH]; simpl; congruence. Qed.


Lemma substring_append (p s : string) :
  String.substring (String.length p) (String.length (p +:+ s) - String.length p)
                   (p +:+ s) = s.
Proof.
  induction p as [|c p IH].
  - change ("" +:+ s) with s. change (String.length "") with 0%nat.
    rewrite Nat.sub_0_r. apply substring_all.
  - change (String c p +:+ s) with (String c (p +:+ s)). exact IH.
Qed.


Lemma authMiddleware_enabled (token : string) (headers : Headers) :
  isAuthEnabled (Some token) = true ->
  authMiddleware (Some token) headers
  = if negb (from_option truthy false (providedTokenOf headers)) then
      status_json 401 "Unauthorized"
        ("Authentication token is required. "
         +:+ "Provide it via Authorization header or X-API-Key header.")
    else if negb (bool_decide (providedTokenOf headers = Some token)) then
      status_json 403 "Forbidden" "Invalid authentication token."
    else next.
Proof.
  unfold isAuthEnabled, authMiddleware, getApiToken. simpl.
  intros H. apply andb_prop in H as [Htruthy Hlen]. rewrite Htruthy. simpl.
  apply Nat.ltb_lt in Hlen.
  replace (String.length (trim token) =? 0)%nat with false; [reflexivity|].
  symmetry. apply Nat.eqb_neq. lia.
Qed.


(** ** Small steps: requests in flight and stages *)

Lemma issuedIn_app (P : Request -> bool) (t1 t2 : list Event) :
  issuedIn P (t1 ++ t2) = (issuedIn P t1 + issuedIn P t2)%nat.
Proof. unfold issuedIn. rewrite List.filter_app, length_app. reflexivity. Qed.

Lemma settledIn_app (P : Request -> bool) (t1 t2 : list Event) :
  settledIn P (t1 ++ t2) = (settledIn P t1 + settledIn P t2)%nat.
Proof. unfold settledIn. rewrite List.filter_app, length_app. reflexivity. Qed.

Lemma inFlight_join_app (P : Request -> bool) (cs1 cs2 : list Cfg) (k : Prog) :
  inFlight P (CJoin (cs1 ++ cs2) k)
  = (inFlight P (CJoin cs1 k) + inFlight P (CJoin cs2 k))%nat.
Proof.
  induction cs1 as [|c cs1 IH]; [reflexivity|].
  cbn [inFlight foldr app] in *. rewrite IH. lia.
Qed.

Lemma inFlight_join_cons (P : Request -> bool) (c : Cfg) (cs : list Cfg) (k : Prog) :
  inFlight P (CJoin (c :: cs) k) = (inFlight P c + inFlight P (CJoin cs k))%nat.
Proof. reflexivity. Qed.

Lemma inFlight_fork (P : Request -> bool) (ps : list Prog) (k : Prog) :
  inFlight P (CJoin (CRun <$> ps) k) = 0%nat.
Proof. induction ps as [|p ps IH]; [reflexivity|]. exact IH. Qed.

Lemma inFlight_returned (P : Request -> bool) (cs : list Cfg) (k : Prog) :
  Forall (fun c => c = CRun Stop) cs -> inFlight P (CJoin cs k) = 0%nat.
Proof.
  induction 1 as [|c cs Hc _ IH]; [reflexivity|].
  rewrite inFlight_join_cons, IH, Hc. reflexivity.
Qed.

(** Every step keeps the account of the requests in flight. *)
Lemma step_inFlight (P : Request -> bool) (c : Cfg) (e : option Event) (c' : Cfg) :
  step c e c' ->
  (inFlight P c + issuedIn P (observe e) = settledIn P (observe e) + inFlight P c')%nat.
Proof.
  induction 1 as [r k | r k reply | ps k | cs k Hcs | cs1 c c' cs2 k e Hstep IH].
  - cbn. destruct (P r); reflexivity.
  - cbn. destruct (P r); reflexivity.
  - rewrite inFlight_fork. reflexivity.
  - rewrite (inFlight_returned P cs k Hcs). reflexivity.
  - rewrite !inFlight_join_app, !inFlight_join_cons. lia.
Qed.

Lemma steps_inFlight (P : Request -> bool) (c : Cfg) (t : list Event) (c' : Cfg) :
  steps c t c' ->
  (inFlight P c + issuedIn P t = settledIn P t + inFlight P c')%nat.
Proof.
  induction 1 as [c | c1 e c2 t c3 Hstep _ IH]; [cbn; lia|].
  rewrite issuedIn_app, settledIn_app.
  pose proof (step_inFlight P _ _ _ Hstep). lia.
Qed.

Lemma steps_app (c1 : Cfg) (t1 : list Event) (c2 : Cfg) (t2 : list Event) (c3 : Cfg) :
  steps c1 t1 c2 -> steps c2 t2 c3 -> steps c1 (t1 ++ t2) c3.
Proof.
  induction 1 as [c | c1 e c2 t c3' Hstep _ IH]; intros H2; [exact H2|].
  rewrite <- app_assoc. econstructor; [exact Hstep | exact (IH H2)].
Qed.

(** An execution can be cut at any event of its trace. *)
Lemma steps_split (c : Cfg) (t1 : list Event) (ev : Event) (t2 : list Event) (c' : Cfg) :
  steps c (t1 ++ ev :: t2) c' ->
  exists c1 c2, steps c t1 c1 /\ step c1 (Some ev) c2 /\ steps c2 t2 c'.
Proof.
  intros H. remember (t1 ++ ev :: t2) as t eqn:Ht.
  revert t1 Ht. induction H as [c | c1 e c2 t c3 Hstep Hsteps IH]; intros t1 Ht.
  - destruct t1; discriminate.
  - destruct e as [ev'|]; cbn [observe app] in Ht.
    + destruct t1 as [|ev1 t1]; cbn [app] in Ht; injection Ht as -> ->.
      * exists c1, c2. split; [constructor | split; assumption].
      * destruct (IH t1 eq_refl) as (d1 & d2 & H1 & H2 & H3).
        exists d1, d2. split; [|split; assumption].
        change (ev1 :: t1) with (observe (Some ev1) ++ t1).
        econstructor; eassumption.
    + destruct (IH t1 Ht) as (d1 & d2 & H1 & H2 & H3).
      exists d1, d2. split; [|split; assumption].
      change t1 with (observe None ++ t1). econstructor; eassumption.
Qed.

Lemma foldr_and_Forall {A} (P : A -> Prop) (l : list A) :
  foldr (fun x rest => P x /\ rest) True l <-> Forall P l.
Proof.
  induction l as [|x l IH]; cbn [foldr].
  - split; [constructor | trivial].
  - rewrite Forall_cons, IH. reflexivity.
Qed.

Lemma Cfg_nested_ind (P : Cfg -> Prop) :
  (forall p, P (CRun p)) ->
  (forall r k, P (CWait r k)) ->
  (forall cs k, Forall P cs -> P (CJoin cs k)) ->
  forall c, P c.
Proof.
  intros Hrun Hwait Hjoin. fix IH 1. intros [p | r k | cs k].
  - apply Hrun.
  - apply Hwait.
  - apply Hjoin. induction cs as [|c cs IHcs]; constructor; [apply IH | exact IHcs].
Qed.

Lemma uses_staged (P Q : Request -> Prop) (p : Prog) : uses Q p -> staged P Q p.
Proof. destruct p; intros H; left; exact H. Qed.

Lemma cuses_fork (R : Request -> Prop) (ps : list Prog) :
  Forall (uses R) ps -> Forall (cuses R) (CRun <$> ps).
Proof. induction 1; constructor; assumption. Qed.

(** A step of a configuration that makes requests of [R] only issues a
    request of [R], if any, and leads to such a configuration. *)
Lemma step_cuses (R : Request -> Prop) (c : Cfg) (e : option Event) (c' : Cfg) :
  step c e c' -> cuses R c ->
  cuses R c' /\ (forall r, e = Some (Issued r) -> R r).
Proof.
  induction 1 as [r k | r k reply | ps k | cs k Hcs | cs1 c c' cs2 k e Hstep IH];
    cbn [cuses uses]; intros Huses.
  - split; [exact Huses|]. intros r' [= <-]. apply Huses.
  - split; [apply Huses | discriminate].
  - split; [|discriminate]. destruct Huses as [Hps Hk]. split; [|exact Hk].
    apply foldr_and_Forall, cuses_fork, foldr_and_Forall, Hps.
  - split; [apply Huses | discriminate].
  - destruct Huses as [Hcs Hk]. apply foldr_and_Forall in Hcs.
    apply Forall_app in Hcs as [H1 H2]. apply Forall_cons in H2 as [Hc H2].
    destruct (IH Hc) as [Hc' Hissued]. split; [|exact Hissued].
    split; [|exact Hk]. apply foldr_and_Forall, Forall_app.
    split; [exact H1 | constructor; assumption].
Qed.

Lemma steps_cuses (R : Request -> Prop) (c : Cfg) (t : list Event) (c' : Cfg) :
  steps c t c' -> cuses R c ->
  cuses R c' /\ Forall (fun ev => forall r, ev = Issued r -> R r) t.
Proof.
  induction 1 as [c | c1 e c2 t c3 Hstep _ IH]; intros Huses.
  - split; [exact Huses | constructor].
  - destruct (step_cuses R _ _ _ Hstep Huses) as [H2 Hissued].
    destruct (IH H2) as [H3 Ht]. split; [exact H3|].
    apply Forall_app. split; [|exact Ht].
    destruct e as [ev|]; constructor; [|constructor].
    intros r ->. apply Hissued. reflexivity.
Qed.

Lemma step_cstaged (P Q : Request -> Prop) (c : Cfg) (e : option Event) (c' : Cfg) :
  step c e c' -> cstaged P Q c -> cstaged P Q c'.
Proof.
  intros Hstep [Hlate | Hearly].
  { left. exact (proj1 (step_cuses Q _ _ _ Hstep Hlate)). }
  revert Hearly.
  induction Hstep as [r k | r k reply | ps k | cs k Hcs | cs1 c c' cs2 k e Hstep _];
    cbn [staged]; intros Hearly.
  - destruct Hearly as [Hlate | Hearly]; [left; exact Hlate | right; exact Hearly].
  - destruct Hearly as [_ Hk]. right. apply Hk.
  - destruct Hearly as [Hlate | [Hps Hk]].
    + left. cbn [cuses uses] in *. destruct Hlate as [Hps Hk]. split; [|exact Hk].
      apply foldr_and_Forall, cuses_fork, foldr_and_Forall, Hps.
    + right. split; [|exact Hk].
      apply foldr_and_Forall, cuses_fork, foldr_and_Forall, Hps.
  - right. apply Hearly.
  - destruct Hearly as [Hcs Hk]. right. split; [|exact Hk].
    apply foldr_and_Forall in Hcs.
    apply Forall_app in Hcs as [H1 H2]. apply Forall_cons in H2 as [Hc H2].
    apply foldr_and_Forall, Forall_app. split; [exact H1|].
    constructor; [|exact H2]. exact (proj1 (step_cuses P _ _ _ Hstep Hc)).
Qed.

Lemma steps_cstaged (P Q : Request -> Prop) (c : Cfg) (t : list Event) (c' : Cfg) :
  steps c t c' -> cstaged P Q c -> cstaged P Q c'.
Proof.
  induction 1 as [c | c1 e c2 t c3 Hstep _ IH]; intros H; [exact H|].
  apply IH. eapply step_cstaged; eassumption.
Qed.

(** When a request outside [P] is issued, the whole configuration is already
    in its late part. *)
Lemma step_late (P Q : Request -> Prop) (c : Cfg) (r : Request) (c' : Cfg) :
  step c (Some (Issued r)) c' -> cstaged P Q c -> ~ P r -> cuses Q c.
Proof.
  intros Hstep [Hlate | Hearly] Hr; [exact Hlate|].
  remember (Some (Issued r)) as e eqn:He.
  destruct Hstep as [r0 k | r0 k reply | ps k | cs k Hcs | cs1 c c' cs2 k e Hstep];
    try discriminate.
  - injection He as ->. cbn [staged] in Hearly.
    destruct Hearly as [Hlate | [HP _]]; [exact Hlate | contradiction].
  - subst e. destruct Hearly as [Hcs _]. apply foldr_and_Forall in Hcs.
    apply Forall_app in Hcs as [_ H2]. apply Forall_cons in H2 as [Hc _].
    destruct (step_cuses P _ _ _ Hstep Hc) as [_ Hissued].
    exfalso. apply Hr, Hissued. reflexivity.
Qed.

Lemma cuses_inFlight (Q : Request -> Prop) (P : Request -> bool) (c : Cfg) :
  (forall r, Q r -> P r = false) -> cuses Q c -> inFlight P c = 0%nat.
Proof.
  intros HQP. induction c as [p | r k | cs k IH] using Cfg_nested_ind;
    cbn [cuses inFlight]; intros Huses.
  - reflexivity.
  - rewrite (HQP r); [reflexivity | apply Huses].
  - destruct Huses as [Hcs _]. apply foldr_and_Forall in Hcs.
    induction IH as [|c cs Hc _ IHcs]; [reflexivity|].
    apply Forall_cons in Hcs as [Hc' Hcs]. cbn [foldr].
    rewrite (Hc Hc'), (IHcs Hcs). reflexivity.
Qed.

(** The barrier between an early part [P] and a late part [Q]: when a
    request outside [P] is issued, no request that [Q] excludes is in flight,
    and none is issued from then on. *)
Lemma barrier (P Q : Request -> Prop) (early : Request -> bool) (p : Prog)
    (t1 : list Event) (r : Request) (t2 : list Event) (c : Cfg) :
  staged P Q p ->
  (forall r', Q r' -> early r' = false) ->
  steps (CRun p) (t1 ++ Issued r :: t2) c ->
  ~ P r ->
  issuedIn early t1 = settledIn early t1
  /\ Forall (fun ev => forall r', ev = Issued r' -> early r' = false) t2.
Proof.
  intros Hstaged HQ Hsteps Hr.
  apply steps_split in Hsteps as (c1 & c2 & H1 & Hstep & H2).
  assert (Hc1 : cstaged P Q c1).
  { eapply steps_cstaged; [exact H1|]. right. exact Hstaged. }
  pose proof (step_late P Q _ _ _ Hstep Hc1 Hr) as Hlate.
  split.
  - pose proof (steps_inFlight early _ _ _ H1) as Hcount.
    rewrite (cuses_inFlight Q early c1 HQ Hlate) in Hcount.
    cbn [inFlight] in Hcount. lia.
  - destruct (step_cuses Q _ _ _ Hstep Hlate) as [Hc2 _].
    destruct (steps_cuses Q _ _ _ H2 Hc2) as [_ Hissued].
    eapply Forall_impl; [exact Hissued|].
    intros ev Hev r' ->. apply HQ, Hev. reflexivity.
Qed.

(** *** One request at a time *)

Lemma step_csequential (c : Cfg) (e : option Event) (c' : Cfg) :
  step c e c' -> csequential c -> csequential c'.
Proof.
  destruct 1 as [r k | r k reply | ps k | cs k Hcs | cs1 c c' cs2 k e Hstep];
    cbn [csequential sequential]; intros H; try contradiction.
  - exact H.
  - apply H.
Qed.

Lemma steps_csequential (c : Cfg) (t : list Event) (c' : Cfg) :
  steps c t c' -> csequential c -> csequential c'.
Proof.
  induction 1 as [c | c1 e c2 t c3 Hstep _ IH]; intros H; [exact H|].
  apply IH. eapply step_csequential; eassumption.
Qed.

(** In a program without [Promise.all] a request is issued only when no
    request is in flight: every request issued before has been settled. *)
Lemma sequential_one_at_a_time (p : Prog) (t1 : list Event) (r : Request)
    (t2 : list Event) (c : Cfg) :
  sequential p ->
  steps (CRun p) (t1 ++ Issued r :: t2) c ->
  issuedIn anyRequest t1 = settledIn anyRequest t1.
Proof.
  intros Hseq Hsteps.
  apply steps_split in Hsteps as (c1 & c2 & H1 & Hstep & _).
  pose proof (steps_csequential _ _ _ H1 Hseq) as Hc1.
  pose proof (steps_inFlight anyRequest _ _ _ H1) as Hcount.
  remember (Some (Issued r)) as e eqn:He.
  destruct Hstep as [r0 k | r0 k reply | ps k | cs k Hcs | cs1 c0 c' cs2 k e Hstep];
    try discriminate.
  - cbn [inFlight] in Hcount. lia.
  - contradiction.
Qed.

(** ** The stages of [loadData] *)

Lemma Forall_imap {A B} (P : B -> Prop) (f : nat -> A -> B) (l : list A) :
  (forall i x, P (f i x)) -> Forall P (imap f l).
Proof.
  revert f. induction l as [|x l IH]; intros f Hf; [constructor|].
  cbn [imap]. constructor; [apply Hf | apply IH; intros; apply Hf].
Qed.

Lemma uses_promiseAll (R : Request -> Prop) (ps : list Prog) (k : unit -> Prog) :
  Forall (uses R) ps -> uses R (k tt) -> uses R (promiseAll ps k).
Proof.
  intros Hps Hk. unfold promiseAll. cbn [uses].
  split; [apply foldr_and_Forall, Hps | exact Hk].
Qed.

Lemma staged_promiseAll (P Q : Request -> Prop) (ps : list Prog) (k : unit -> Prog) :
  Forall (uses P) ps -> staged P Q (k tt) -> staged P Q (promiseAll ps k).
Proof.
  intros Hps Hk. unfold promiseAll. cbn [staged]. right.
  split; [apply foldr_and_Forall, Hps | exact Hk].
Qed.

Lemma uses_uploadBatch (R : Request -> Prop) (name : string)
    (batch : list (gmap string JVal))
    (method : string -> list (gmap string JVal) -> Request) (batchIndex : nat)
    (k : unit -> Prog) :
  R (method name batch) -> uses R (k tt) ->
  uses R (uploadBatch name batch method batchIndex k).
Proof.
  intros HR Hk. unfold uploadBatch. unfold_M. cbn [uses].
  split; [exact HR|]. intros [done|error]; [exact Hk | exact I].
Qed.

Lemma uses_getExistingPrimaryKeys_from (R : Request -> Prop) (rounds : nat)
    (name primaryKeyField : string) (existingKeys : JSet.t) (page : Z)
    (k : JSet.t -> Prog) :
  (forall r, isReadItems r = true -> R r) ->
  (forall keys, uses R (k keys)) ->
  uses R (getExistingPrimaryKeys_from rounds name primaryKeyField existingKeys page k).
Proof.
  intros HR Hk. revert existingKeys page.
  induction rounds as [|rounds IH]; intros existingKeys page; [exact I|].
  cbn [getExistingPrimaryKeys_from]. unfold_M. cbn [uses].
  split; [apply HR; reflexivity|].
  intros [response|error]; [|exact I].
  destruct (length response =? 0)%nat; [apply Hk|].
  destruct (_ <? _)%Z; [apply Hk | apply IH].
Qed.

Lemma uses_getPrimaryKey (R : Request -> Prop) (collectionsMap : PlainObject)
    (name : string) (k : string -> Prog) :
  (forall f, uses R (k f)) -> uses R (getPrimaryKey collectionsMap name k).
Proof.
  intros Hk. unfold getPrimaryKey. unfold_M.
  destruct (negb _); [exact I | apply Hk].
Qed.

Lemma uses_skeletonRecordsOf (R : Request -> Prop) (rounds : nat) (dir : Template)
    (primaryKeyMap : PlainObject) (item : Collection) :
  (forall r, skeletonStage r -> R r) ->
  uses R (exec (skeletonRecordsOf rounds dir primaryKeyMap item)).
Proof.
  intros HR. unfold exec, skeletonRecordsOf.
  destruct (readFile_allowMissing _ _) as [data|]; [|exact I].
  change (uses R (getPrimaryKey primaryKeyMap (collection item)
    (fun primaryKeyField =>
       getExistingPrimaryKeys rounds (collection item) primaryKeyField
         (fun existingPrimaryKeys =>
            match data with
            | Rows data0 =>
                let newData :=
                  List.filter
                    (fun entry =>
                       negb (JSet.has existingPrimaryKeys (getProp entry primaryKeyField)))
                    data0 in
                if (length newData =? 0)%nat then ret tt
                else
                  promiseAll
                    (imap (fun index batch =>
                             exec (uploadBatch (collection item) batch CreateItems index))
                          (skeletonBatches primaryKeyField existingPrimaryKeys data0))
            | Single _ => throw (Uncaught "TypeError: data.filter is not a function")
            end (fun _ => Stop))))).
  apply uses_getPrimaryKey. intros primaryKeyField.
  apply uses_getExistingPrimaryKeys_from.
  { intros [] Hr; try discriminate. apply HR. exact I. }
  intros keys. destruct data as [data|row]; [|exact I].
  cbv zeta. destruct (_ =? 0)%nat; [exact I|].
  apply uses_promiseAll; [|exact I].
  apply Forall_imap. intros index batch.
  apply uses_uploadBatch; [apply HR; exact I | exact I].
Qed.

Lemma uses_fullDataOf (R : Request -> Prop) (dir : Template) (item : Collection) :
  (forall r, fullStage r -> R r) -> uses R (exec (fullDataOf dir item)).
Proof.
  intros HR. unfold exec, fullDataOf.
  destruct (readFile_allowMissing _ _) as [data|]; [|exact I].
  cbv zeta. apply uses_promiseAll; [|exact I].
  apply Forall_imap. intros index batch.
  apply uses_uploadBatch; [apply HR; exact I | exact I].
Qed.

Lemma uses_singletonOf (R : Request -> Prop) (dir : Template) (item : Collection) :
  (forall r, singletonStage r -> R r) -> uses R (exec (singletonOf dir item)).
Proof.
  intros HR. unfold exec, singletonOf.
  destruct (readFile_allowMissing _ _) as [data|]; [|exact I].
  unfold_M. cbn [uses]. split; [apply HR; exact I|].
  intros [[]|error]; exact I.
Qed.

Lemma uses_readFile {A} (R : Request -> Prop) (blob : option A) (name : string)
    (k : A -> Prog) :
  (forall value, uses R (k value)) -> uses R (readFile blob name k).
Proof. intros Hk. destruct blob; [apply Hk | exact I]. Qed.

Lemma staged_readFile {A} (P Q : Request -> Prop) (blob : option A) (name : string)
    (k : A -> Prog) :
  (forall value, staged P Q (k value)) -> staged P Q (readFile blob name k).
Proof. intros Hk. destruct blob; [apply Hk | left; exact I]. Qed.

Lemma staged_userCollectionsOf (P Q : Request -> Prop) (collections : list Collection)
    (targetCollections : gset string) (k : list Collection -> Prog) :
  (forall userCollections, staged P Q (k userCollections)) ->
  staged P Q (userCollectionsOf collections targetCollections k).
Proof.
  intros Hk. unfold userCollectionsOf. cbv zeta.
  destruct (filter_throwing _ _); [apply Hk | left; exact I].
Qed.

Lemma staged_singletonCollectionsOf (P Q : Request -> Prop)
    (collections : list Collection) (targetCollections : gset string)
    (k : list Collection -> Prog) :
  (forall singletonCollections, staged P Q (k singletonCollections)) ->
  staged P Q (singletonCollectionsOf collections targetCollections k).
Proof.
  intros Hk. unfold singletonCollectionsOf. cbv zeta.
  destruct (filter_throwing _ _); [apply Hk | left; exact I].
Qed.

Lemma staged_loadSkeletonRecords (P Q : Request -> Prop) (rounds : nat)
    (dir : Template) (targetCollections : gset string) (k : unit -> Prog) :
  (forall r, skeletonStage r -> P r) ->
  staged P Q (k tt) ->
  staged P Q (loadSkeletonRecords rounds dir targetCollections k).
Proof.
  intros HP Hk. unfold loadSkeletonRecords, getCollectionPrimaryKeys.
  unfold mbind, M_bind, bind.
  apply staged_readFile. intros collections.
  apply staged_readFile. intros fields. unfold ret.
  apply staged_userCollectionsOf. intros userCollections.
  apply staged_promiseAll; [|exact Hk].
  apply Forall_fmap, Forall_forall. intros item _.
  apply uses_skeletonRecordsOf, HP.
Qed.

Lemma staged_loadFullData (P Q : Request -> Prop) (dir : Template)
    (targetCollections : gset string) (k : unit -> Prog) :
  (forall r, fullStage r -> P r) ->
  staged P Q (k tt) ->
  staged P Q (loadFullData dir targetCollections k).
Proof.
  intros HP Hk. unfold loadFullData. unfold mbind, M_bind, bind.
  apply staged_readFile. intros collections.
  apply staged_userCollectionsOf. intros userCollections.
  apply staged_promiseAll; [|exact Hk].
  apply Forall_fmap, Forall_forall. intros item _.
  apply uses_fullDataOf, HP.
Qed.

Lemma staged_same (R : Request -> Prop) (p : Prog) : staged R R p -> uses R p.
Proof.
  revert p. fix IH 1. intros [ | f | | r k | ps k]; cbn [staged uses];
    intros [Hlate | Hearly]; try exact I; try exact Hlate.
  - destruct Hearly as [Hr Hk]. split; [exact Hr|]. intros reply. apply IH, Hk.
  - destruct Hearly as [Hps Hk]. split; [exact Hps | apply IH, Hk].
Qed.

Lemma uses_loadFullData (R : Request -> Prop) (dir : Template)
    (targetCollections : gset string) (k : unit -> Prog) :
  (forall r, fullStage r -> R r) ->
  uses R (k tt) ->
  uses R (loadFullData dir targetCollections k).
Proof.
  intros HR Hk. apply staged_same, staged_loadFullData; [exact HR|].
  apply uses_staged, Hk.
Qed.

Lemma uses_loadSingletons (R : Request -> Prop) (dir : Template)
    (targetCollections : gset string) :
  (forall r, singletonStage r -> R r) ->
  uses R (loadSingletons dir targetCollections (fun _ => Stop)).
Proof.
  intros HR. apply staged_same. unfold loadSingletons. unfold mbind, M_bind, bind.
  apply staged_readFile. intros collections.
  apply staged_singletonCollectionsOf. intros singletonCollections.
  apply staged_promiseAll; [|left; exact I].
  apply Forall_fmap, Forall_forall. intros item _.
  apply uses_singletonOf, HR.
Qed.

Lemma staged_getTargetCollectionNames (P Q : Request -> Prop) (k : gset string -> Prog) :
  P ReadCollections ->
  (forall names, staged P Q (k names)) ->
  staged P Q (getTargetCollectionNames k).
Proof.
  intros HP Hk. unfold getTargetCollectionNames. unfold_M. cbn [staged]. right.
  split; [exact HP|]. intros [collections|error]; [apply Hk | left; exact I].
Qed.

(** The skeleton phase, then behind its [Promise.all] the two other
    phases. *)
Lemma loadData_staged_skeleton (rounds : nat) (dir : Template) :
  staged skeletonStage (fun r => fullStage r \/ singletonStage r)
         (exec (loadData rounds dir)).
Proof.
  unfold exec, loadData. unfold mbind, M_bind, bind.
  apply staged_readFile. intros collections.
  apply staged_getTargetCollectionNames; [exact I|]. intros targetCollections.
  apply staged_loadSkeletonRecords; [tauto|].
  apply uses_staged, uses_loadFullData; [tauto|].
  apply uses_loadSingletons. tauto.
Qed.

(** The skeleton and the full phase, then behind the [Promise.all] of the
    full phase the singletons. *)
Lemma loadData_staged_full (rounds : nat) (dir : Template) :
  staged (fun r => skeletonStage r \/ fullStage r) singletonStage
         (exec (loadData rounds dir)).
Proof.
  unfold exec, loadData. unfold mbind, M_bind, bind.
  apply staged_readFile. intros collections.
  apply staged_getTargetCollectionNames; [left; exact I|]. intros targetCollections.
  apply staged_loadSkeletonRecords; [tauto|].
  apply staged_loadFullData; [tauto|].
  apply uses_staged, uses_loadSingletons. tauto.
Qed.

(** ** The barrier between the phases of [loadData] *)

Lemma steps_event (c1 : Cfg) (ev : Event) (c2 : Cfg) (t : list Event) (c3 : Cfg) :
  step c1 (Some ev) c2 -> steps c2 t c3 -> steps c1 (ev :: t) c3.
Proof. intros H1 H2. exact (steps_cons c1 (Some ev) c2 t c3 H1 H2). Qed.

Lemma steps_silent (c1 c2 : Cfg) (t : list Event) (c3 : Cfg) :
  step c1 None c2 -> steps c2 t c3 -> steps c1 t c3.
Proof. intros H1 H2. exact (steps_cons c1 None c2 t c3 H1 H2). Qed.

(** C1.  In every execution of [loadData], whatever the instance answers and
    however the branches interleave: when a full-phase update is issued, every
    create (and every read) of the skeleton phase issued so far has been
    settled, and no create is issued afterwards; when a singleton update is
    issued, every update and every create issued so far has been settled, and
    none is issued afterwards. *)
Theorem loadData_phase_barrier (rounds : nat) (dir : Template)
    (t1 : list Event) (r : Request) (t2 : list Event) (c : Cfg) :
  steps (CRun (exec (loadData rounds dir))) (t1 ++ Issued r :: t2) c ->
  (isUpdateItemsBatch r = true ->
     issuedIn isCreateItems t1 = settledIn isCreateItems t1
     /\ issuedIn isReadItems t1 = settledIn isReadItems t1
     /\ Forall (fun ev => forall r', ev = Issued r' -> isCreateItems r' = false) t2)
  /\ (isUpdateSingleton r = true ->
      issuedIn isUpdateItemsBatch t1 = settledIn isUpdateItemsBatch t1
      /\ issuedIn isCreateItems t1 = settledIn isCreateItems t1
      /\ Forall (fun ev => forall r', ev = Issued r' ->
                   isUpdateItemsBatch r' = false /\ isCreateItems r' = false) t2).
Proof.
  intros Hsteps. split; intros Hr.
  - assert (Hnot : ~ skeletonStage r) by (destruct r; try discriminate; exact id).
    pose proof (loadData_staged_skeleton rounds dir) as Hstaged.
    assert (Hcreates : forall r', fullStage r' \/ singletonStage r' ->
                                  isCreateItems r' = false)
      by (intros [] [[]|[]]; reflexivity).
    assert (Hreads : forall r', fullStage r' \/ singletonStage r' ->
                                isReadItems r' = false)
      by (intros [] [[]|[]]; reflexivity).
    destruct (barrier _ _ isCreateItems _ t1 r t2 c Hstaged Hcreates Hsteps Hnot)
      as [Hcreate Hafter].
    destruct (barrier _ _ isReadItems _ t1 r t2 c Hstaged Hreads Hsteps Hnot)
      as [Hread _].
    auto.
  - assert (Hnot : ~ (skeletonStage r \/ fullStage r))
      by (destruct r; try discriminate; intros [[]|[]]).
    pose proof (loadData_staged_full rounds dir) as Hstaged.
    assert (Hupdates : forall r', singletonStage r' -> isUpdateItemsBatch r' = false)
      by (intros [] []; reflexivity).
    assert (Hcreates : forall r', singletonStage r' -> isCreateItems r' = false)
      by (intros [] []; reflexivity).
    destruct (barrier _ _ isUpdateItemsBatch _ t1 r t2 c Hstaged Hupdates Hsteps Hnot)
      as [Hupdate Hafter1].
    destruct (barrier _ _ isCreateItems _ t1 r t2 c Hstaged Hcreates Hsteps Hnot)
      as [Hcreate Hafter2].
    split; [exact Hupdate | split; [exact Hcreate|]].
    apply Forall_forall. intros ev Hev r' ->.
    rewrite Forall_forall in Hafter1, Hafter2.
    split; [eapply Hafter1 | eapply Hafter2]; eauto.
Qed.

(** ** The deterministic run is one of the executions *)

Lemma Prog_nested_ind (P : Prog -> Prop) :
  P Stop -> (forall f, P (Fail f)) -> P Spin ->
  (forall r k, (forall reply, P (k reply)) -> P (Await r k)) ->
  (forall ps k, Forall P ps -> P k -> P (AwaitAll ps k)) ->
  forall p, P p.
Proof.
  intros Hstop Hfail Hspin Hawait Hall. fix IH 1. intros [ | f | | r k | ps k].
  - exact Hstop.
  - apply Hfail.
  - exact Hspin.
  - apply Hawait. intros reply. apply IH.
  - apply Hall; [|apply IH].
    induction ps as [|p ps IHps]; constructor; [apply IH | exact IHps].
Qed.

Lemma steps_branch (cs1 : list Cfg) (c : Cfg) (t : list Event) (c' : Cfg)
    (cs2 : list Cfg) (k : Prog) :
  steps c t c' ->
  steps (CJoin (cs1 ++ c :: cs2) k) t (CJoin (cs1 ++ c' :: cs2) k).
Proof.
  induction 1 as [c | c1 e c2 t c3 Hstep _ IH]; [constructor|].
  econstructor; [apply step_branch; exact Hstep | exact IH].
Qed.

Section Adequacy.
Context {St : Type} (handle : St -> forall r : Request, Reply r * St).

Lemma runEach_steps (k : Prog) (ps : list Prog) :
  Forall (fun p => forall s, exists c,
            steps (CRun p) (run handle p s).2 c
            /\ ((run handle p s).1.1 = Completed -> c = CRun Stop)) ps ->
  forall (returned : list Cfg) (s : St),
    Forall (fun c => c = CRun Stop) returned ->
    exists cs,
      steps (CJoin (returned ++ (CRun <$> ps)) k)
            (runEach (run handle) ps s).2 (CJoin cs k)
      /\ ((runEach (run handle) ps s).1.1 = Completed ->
          Forall (fun c => c = CRun Stop) cs).
Proof.
  induction 1 as [|p ps Hp _ IH]; intros returned s Hreturned.
  - exists returned. rewrite app_nil_r. split; [constructor | intros _; exact Hreturned].
  - cbn [runEach fmap list_fmap].
    destruct (Hp s) as (c & Hsteps & Hdone).
    destruct (run handle p s) as [[o s1] t1] eqn:Hrun. cbn [fst snd] in *.
    assert (Hlift := steps_branch returned _ _ _ (CRun <$> ps) k Hsteps).
    destruct o.
    + specialize (Hdone eq_refl). subst c.
      destruct (IH (returned ++ [CRun Stop]) s1) as (cs & Hrest & Hall).
      { apply Forall_app. split; [exact Hreturned | repeat constructor]. }
      rewrite <- app_assoc in Hrest. cbn [app] in Hrest.
      destruct (runEach (run handle) ps s1) as [[o2 s2] t2].
      cbn [fst snd] in *. exists cs. split; [|exact Hall].
      eapply steps_app; eassumption.
    + cbn [fst snd]. eexists. split; [exact Hlift | discriminate].
    + cbn [fst snd]. eexists. split; [exact Hlift | discriminate].
Qed.

(** Every run is an execution of the interleaving semantics, and one that
    completed has returned. *)
Lemma run_steps (p : Prog) (s : St) :
  exists c,
    steps (CRun p) (run handle p s).2 c
    /\ ((run handle p s).1.1 = Completed -> c = CRun Stop).
Proof.
  revert s. induction p as [ | f | | r k IH | ps k IHps IHk] using Prog_nested_ind;
    intros s.
  - exists (CRun Stop). split; [constructor | reflexivity].
  - exists (CRun (Fail f)). split; [constructor | discriminate].
  - exists (CRun Spin). split; [constructor | discriminate].
  - cbn [run]. destruct (handle s r) as [reply s1] eqn:Hreply.
    destruct (IH reply s1) as (c & Hsteps & Hdone).
    destruct (run handle (k reply) s1) as [[o s2] t]. cbn [fst snd] in *.
    exists c. split; [|exact Hdone].
    apply steps_event with (CWait r k); [constructor|].
    apply steps_event with (CRun (k reply)); [constructor | exact Hsteps].
  - cbn [run]. destruct (headFailure (AwaitAll ps k)) as [f|].
    { eexists. split; [constructor | discriminate]. }
    destruct (runEach_steps k ps IHps [] s) as (cs & Hsteps & Hdone);
      [constructor|].
    cbn [app] in Hsteps.
    destruct (runEach (run handle) ps s) as [[o s1] t1]. cbn [fst snd] in *.
    assert (Hfork : steps (CRun (AwaitAll ps k)) t1 (CJoin cs k)).
    { eapply steps_silent; [apply step_fork | exact Hsteps]. }
    destruct o.
    + destruct (IHk s1) as (c & Hk & Hkdone).
      destruct (run handle k s1) as [[o2 s2] t2]. cbn [fst snd] in *.
      exists c. split; [|exact Hkdone].
      eapply steps_app; [exact Hfork|].
      eapply steps_silent; [apply step_join, Hdone; reflexivity | exact Hk].
    + eexists. split; [exact Hfork | discriminate].
    + eexists. split; [exact Hfork | discriminate].
Qed.

End Adequacy.

(** ** The reference instance *)

Lemma Target_handle_ReadItems (s : Target.t) (name : string) (query : ItemsQuery)
    (rows : list (gmap string JVal)) :
  Target.items s !! name = Some rows ->
  Target.handle s (ReadItems name query)
  = (Resolved (Target.project (q_fields query)
                 <$> Target.pageOf (q_limit query) (q_page query) rows), s).
Proof. intros H. cbn [Target.handle]. rewrite H. reflexivity. Qed.

Lemma Target_pageOf_1000 {A} (page : Z) (rows : list A) :
  Target.pageOf 1000%Z (Some page) rows
  = take 1000 (drop ((Z.to_nat page - 1) * 1000) rows).
Proof. reflexivity. Qed.

Lemma getProp_project (primaryKeyField : string) (row : gmap string JVal) :
  getProp (Target.project (Some [primaryKeyField]) row) primaryKeyField
  = getProp row primaryKeyField.
Proof.
  unfold getProp, Target.project. rewrite map_lookup_filter.
  destruct (row !! primaryKeyField) as [v|]; [|reflexivity].
  cbn. rewrite option_guard_True; [reflexivity|]. cbn. left.
Qed.

Lemma hasKey_app (primaryKeyField : string) (rows1 rows2 : list (gmap string JVal))
    (v : JVal) :
  Target.hasKey primaryKeyField (rows1 ++ rows2) v
  = Target.hasKey primaryKeyField rows1 v || Target.hasKey primaryKeyField rows2 v.
Proof. unfold Target.hasKey. apply existsb_app. Qed.

Lemma hasKey_project (primaryKeyField : string) (rows : list (gmap string JVal))
    (v : JVal) :
  existsb (fun item => sameValueZero v (getProp item primaryKeyField))
          (Target.project (Some [primaryKeyField]) <$> rows)
  = Target.hasKey primaryKeyField rows v.
Proof.
  unfold Target.hasKey. induction rows as [|row rows IH]; [reflexivity|].
  cbn [fmap list_fmap existsb]. rewrite getProp_project. f_equal. exact IH.
Qed.

Lemma hasKey_keys (primaryKeyField : string) (rows : list (gmap string JVal))
    (v : JVal) :
  Target.hasKey primaryKeyField rows v
  = existsb (sameValueZero v) (flip getProp primaryKeyField <$> rows).
Proof.
  unfold Target.hasKey. induction rows as [|row rows IH]; [reflexivity|].
  cbn [fmap list_fmap existsb]. f_equal. exact IH.
Qed.

(** An update names a row by a key that is there, and changes no key. *)
Lemma updateRow_keys (primaryKeyField : string) (rows rows' : list (gmap string JVal))
    (item : gmap string JVal) :
  Target.updateRow primaryKeyField rows item = Some rows' ->
  getProp item primaryKeyField <> JUndef
  /\ Target.hasKey primaryKeyField rows (getProp item primaryKeyField) = true
  /\ (flip getProp primaryKeyField <$> rows') = (flip getProp primaryKeyField <$> rows).
Proof.
  unfold Target.updateRow. intros H.
  assert (Hdefined : getProp item primaryKeyField <> JUndef).
  { intros Hundef. rewrite Hundef in H. discriminate. }
  assert (H' : (if existsb (Target.matches primaryKeyField item) rows
                then Some ((fun row => if Target.matches primaryKeyField item row
                                       then item ∪ row else row) <$> rows)
                else None) = Some rows').
  { destruct (getProp item primaryKeyField); try exact H. contradiction. }
  clear H. destruct (existsb _ rows) eqn:Hexists; [|discriminate].
  injection H' as <-. split; [exact Hdefined|]. split; [exact Hexists|].
  rewrite <- list_fmap_compose. apply list_fmap_ext. intros i row _.
  unfold compose, flip.
  destruct (Target.matches primaryKeyField item row) eqn:Hmatch; [|reflexivity].
  unfold Target.matches in Hmatch. apply sameValueZero_eq in Hmatch.
  unfold getProp in *. rewrite lookup_union.
  destruct (item !! primaryKeyField) as [v|] eqn:Hitem; cbn in *.
  - destruct (row !! primaryKeyField); cbn in *; congruence.
  - contradiction.
Qed.

Lemma updateRows_keys (primaryKeyField : string) (batch : list (gmap string JVal)) :
  forall rows rows',
    Target.updateRows primaryKeyField rows batch = Some rows' ->
    (flip getProp primaryKeyField <$> rows') = (flip getProp primaryKeyField <$> rows)
    /\ Forall (fun item =>
                 getProp item primaryKeyField <> JUndef
                 /\ Target.hasKey primaryKeyField rows (getProp item primaryKeyField)
                    = true)
              batch.
Proof.
  induction batch as [|item batch IH]; intros rows rows' H.
  - injection H as <-. split; [reflexivity | constructor].
  - cbn [Target.updateRows] in H.
    destruct (Target.updateRow primaryKeyField rows item) as [rows1|] eqn:Hrow;
      [|discriminate].
    apply updateRow_keys in Hrow as (Hdefined & Hhas & Hkeys1).
    destruct (IH _ _ H) as [Hkeys Hbatch].
    split; [congruence|]. constructor; [split; assumption|].
    eapply Forall_impl; [exact Hbatch|].
    intros item' [Hd Hh]. split; [exact Hd|].
    rewrite hasKey_keys in Hh |- *. rewrite <- Hkeys1. exact Hh.
Qed.

Lemma insertRows_keys (primaryKeyField : string) (batch : list (gmap string JVal)) :
  forall rows v,
    Target.hasKey primaryKeyField rows v = true ->
    Target.hasKey primaryKeyField (foldl (Target.insertRow primaryKeyField) rows batch) v
    = true.
Proof.
  induction batch as [|item batch IH]; intros rows v H; [exact H|].
  cbn [foldl]. apply IH. unfold Target.insertRow.
  destruct (getProp item primaryKeyField); rewrite hasKey_app, H; reflexivity.
Qed.

Lemma extends_refl (s : Target.t) : Target.extends s s.
Proof.
  split; try reflexivity.
  - intros name rows Hrows. exists rows. split; [exact Hrows | auto].
  - intros relation Hin. exists relation. split; [exact Hin | reflexivity].
Qed.

Lemma extends_trans (s1 s2 s3 : Target.t) :
  Target.extends s1 s2 -> Target.extends s2 s3 -> Target.extends s1 s3.
Proof.
  intros [Hc1 Hp1 Hi1 Hr1] [Hc2 Hp2 Hi2 Hr2]. split.
  - congruence.
  - congruence.
  - intros name rows Hrows.
    destruct (Hi1 name rows Hrows) as (rows2 & Hrows2 & Hkeys1).
    destruct (Hi2 name rows2 Hrows2) as (rows3 & Hrows3 & Hkeys2).
    exists rows3. split; [exact Hrows3|].
    intros primaryKeyField v Hprimary Hhas.
    apply Hkeys2; [rewrite Hp1; exact Hprimary|]. apply Hkeys1; assumption.
  - intros relation Hin.
    destruct (Hr1 relation Hin) as (relation2 & Hin2 & Hkey2).
    destruct (Hr2 relation2 Hin2) as (relation3 & Hin3 & Hkey3).
    exists relation3. split; [exact Hin3 | congruence].
Qed.

Lemma setItems_extends (s : Target.t) (name : string)
    (rows rows' : list (gmap string JVal)) :
  Target.items s !! name = Some rows ->
  (forall primaryKeyField v,
     Target.primary s !! name = Some primaryKeyField ->
     Target.hasKey primaryKeyField rows v = true ->
     Target.hasKey primaryKeyField rows' v = true) ->
  Target.extends s (Target.setItems s name rows').
Proof.
  intros Hrows Hkeys. split; try reflexivity.
  - intros name' rows0 Hrows0. cbn [Target.setItems Target.items].
    destruct (decide (name = name')) as [<-|Hne].
    + rewrite lookup_insert_eq. exists rows'. split; [reflexivity|].
      intros primaryKeyField v Hprimary Hhas.
      apply Hkeys; [exact Hprimary | congruence].
    + rewrite lookup_insert_ne by exact Hne. exists rows0. split; [exact Hrows0 | auto].
  - intros relation Hin. exists relation. split; [exact Hin | reflexivity].
Qed.

(** Whatever the request, the target keeps its keys and its relations. *)
Lemma handle_extends (s : Target.t) (r : Request) :
  Target.extends s (Target.handle s r).2.
Proof.
  destruct r as [ | | name query | name batch | name batch | name item
                | relation | name content dir]; cbn [Target.handle].
  - apply extends_refl.
  - apply extends_refl.
  - destruct (Target.items s !! name); apply extends_refl.
  - destruct (Target.items s !! name) as [rows|] eqn:Hrows; [|apply extends_refl].
    destruct (Target.primary s !! name) as [primaryKeyField|] eqn:Hprimary;
      [|apply extends_refl].
    cbn [snd]. apply (setItems_extends s name rows); [exact Hrows|].
    intros primaryKeyField' v Hp. rewrite Hprimary in Hp. injection Hp as <-.
    apply insertRows_keys.
  - destruct (Target.items s !! name) as [rows|] eqn:Hrows; [|apply extends_refl].
    destruct (Target.primary s !! name) as [primaryKeyField|] eqn:Hprimary;
      [|apply extends_refl].
    destruct (Target.updateRows primaryKeyField rows batch) as [rows'|] eqn:Hupdate;
      [|apply extends_refl].
    cbn [snd]. apply (setItems_extends s name rows); [exact Hrows|].
    intros primaryKeyField' v Hp Hhas. rewrite Hprimary in Hp. injection Hp as <-.
    apply updateRows_keys in Hupdate as [Hkeys _].
    rewrite hasKey_keys in Hhas |- *. rewrite Hkeys. exact Hhas.
  - destruct (Target.singletons s !! name); [|apply extends_refl].
    cbn [snd]. split; try reflexivity.
    + intros name' rows Hrows. exists rows. split; [exact Hrows | auto].
    + intros relation Hin. exists relation. split; [exact Hin | reflexivity].
  - cbn [snd]. split; try reflexivity.
    + intros name' rows Hrows. exists rows. split; [exact Hrows | auto].
    + intros relation' Hin. exists relation'. cbn [Target.relations].
      split; [apply elem_of_app; left; exact Hin | reflexivity].
  - cbn [snd]. split; try reflexivity.
    + intros name' rows Hrows. exists rows. split; [exact Hrows | auto].
    + intros relation Hin. exists relation. split; [exact Hin | reflexivity].
Qed.

Lemma runEach_extends (ps : list Prog) :
  Forall (fun p => forall s, Target.extends s (run Target.handle p s).1.2) ps ->
  forall s, Target.extends s (runEach (run Target.handle) ps s).1.2.
Proof.
  induction 1 as [|p ps Hp _ IH]; intros s; [apply extends_refl|].
  cbn [runEach]. specialize (Hp s).
  destruct (run Target.handle p s) as [[o s1] t1]. cbn [fst snd] in Hp.
  destruct o; cbn [fst snd]; try exact Hp.
  specialize (IH s1).
  destruct (runEach (run Target.handle) ps s1) as [[o2 s2] t2]. cbn [fst snd] in *.
  eapply extends_trans; eassumption.
Qed.

(** A run leaves a target that extends the one it started from. *)
Lemma run_extends (p : Prog) (s : Target.t) :
  Target.extends s (run Target.handle p s).1.2.
Proof.
  revert s. induction p as [ | f | | r k IH | ps k IHps IHk] using Prog_nested_ind;
    intros s; cbn [run]; try apply extends_refl.
  - pose proof (handle_extends s r) as Hhandle.
    destruct (Target.handle s r) as [reply s1]. cbn [snd] in Hhandle.
    specialize (IH reply s1).
    destruct (run Target.handle (k reply) s1) as [[o s2] t]. cbn [fst snd] in *.
    eapply extends_trans; eassumption.
  - destruct (headFailure (AwaitAll ps k)); [apply extends_refl|].
    pose proof (runEach_extends ps IHps s) as Heach.
    destruct (runEach (run Target.handle) ps s) as [[o s1] t1]. cbn [fst snd] in *.
    destruct o; cbn [fst snd]; try exact Heach.
    specialize (IHk s1).
    destruct (run Target.handle k s1) as [[o2 s2] t2]. cbn [fst snd] in *.
    eapply extends_trans; eassumption.
Qed.

(** ** Pagination of the existing primary keys *)

Lemma requestsOf_app (t1 t2 : list Event) :
  requestsOf (t1 ++ t2) = requestsOf t1 ++ requestsOf t2.
Proof. apply omap_app. Qed.

Lemma requestsOf_answered (accepted : bool) (r : Request) (t : list Event) :
  requestsOf (answered accepted r ++ t) = r :: requestsOf t.
Proof. reflexivity. Qed.

Lemma requestsOf_pageEvents (name primaryKeyField : string) (page : Z) (n : nat) :
  requestsOf (pageEvents name primaryKeyField page n)
  = pageRequests name primaryKeyField page n.
Proof.
  unfold pageEvents. revert page.
  induction n as [|n IH]; intros page; [reflexivity|].
  cbn [pageRequests fmap list_fmap concat].
  rewrite requestsOf_app, IH. reflexivity.
Qed.

Lemma sequential_getExistingPrimaryKeys_from (rounds : nat)
    (name primaryKeyField : string) (existingKeys : JSet.t) (page : Z)
    (k : JSet.t -> Prog) :
  (forall keys, sequential (k keys)) ->
  sequential (getExistingPrimaryKeys_from rounds name primaryKeyField
                existingKeys page k).
Proof.
  intros Hk. revert existingKeys page.
  induction rounds as [|rounds IH]; intros existingKeys page; [exact I|].
  cbn [getExistingPrimaryKeys_from]. unfold_M. cbn [sequential].
  intros [response|error]; [|exact I].
  destruct (length response =? 0)%nat; [apply Hk|].
  destruct (_ <? _)%Z; [apply Hk | apply IH].
Qed.

Section Pagination.
Context {St : Type} (handle : St -> forall r : Request, Reply r * St).

(** As long as pages of 1000 items or more come back the loop asks for the
    next page; the first shorter page ends it, and the caller goes on with
    the keys of all the items received. *)
Lemma run_getExistingPrimaryKeys_from (name primaryKeyField : string)
    (full : list (list (gmap string JVal))) :
  forall (rounds : nat) (s : St) (page : Z) (short : list (gmap string JVal))
         (s' : St) (existingKeys : JSet.t) (k : JSet.t -> Prog),
    serves handle name primaryKeyField s page (full ++ [short]) s' ->
    Forall (fun response => (1000 <= length response)%nat) full ->
    (length short < 1000)%nat ->
    (length full < rounds)%nat ->
    run handle (getExistingPrimaryKeys_from rounds name primaryKeyField
                  existingKeys page k) s
    = let '(o, s'', t) :=
        run handle (k (keysOf primaryKeyField existingKeys (full ++ [short]))) s' in
      (o, s'', pageEvents name primaryKeyField page (S (length full)) ++ t).
Proof.
  induction full as [|response full IH];
    intros rounds s page short s' existingKeys k Hserves Hfull Hshort Hrounds;
    (destruct rounds as [|rounds]; [cbn in Hrounds; lia|]);
    inversion Hserves as [|s0 page0 response0 s1 pages s2 Hreply Hrest]; subst;
    cbn [getExistingPrimaryKeys_from]; unfold_M; cbn [run]; rewrite Hreply.
  - inversion Hrest; subst.
    unfold keysOf. cbn [app concat]. rewrite app_nil_r.
    destruct short as [|item short]; cbn [length Nat.eqb].
    + cbn [fold_left].
      destruct (run handle (k existingKeys) s') as [[o s''] t]. reflexivity.
    + replace (Z.of_nat (Datatypes.S (length short)) <? 1000)%Z with true
        by (symmetry; apply Z.ltb_lt; cbn [length] in Hshort; lia).
      destruct (run handle (k _) s') as [[o s''] t]. reflexivity.
  - apply Forall_cons in Hfull as [Hresponse Hfull].
    destruct response as [|item response]; [cbn in Hresponse; lia|].
    cbn [length Nat.eqb].
    replace (Z.of_nat (Datatypes.S (length response)) <? 1000)%Z with false
      by (symmetry; apply Z.ltb_ge; cbn [length] in Hresponse; lia).
    rewrite (IH rounds s1 (page + 1)%Z short s' _ k Hrest Hfull Hshort)
      by (cbn [length] in Hrounds; lia).
    rewrite <- app_comm_cons, keysOf_cons.
    destruct (run handle (k _) s') as [[o s''] t]. reflexivity.
Qed.

End Pagination.

(** C5.  [getExistingPrimaryKeys] asks for page 1, 2, ... with limit 1000,
    one request at a time.  When the target serves pages of 1000 items or more
    and then a shorter one (possibly empty), the loop makes exactly these
    requests, none after the short page, and hands the caller the set of the
    primary-key values of all the items received; a budget of rounds above the
    number of full pages is enough.  Whatever the target answers, a page is
    requested only after every earlier request has been settled. *)
Theorem getExistingPrimaryKeys_pagination {St : Type}
    (handle : St -> forall r : Request, Reply r * St)
    (name primaryKeyField : string)
    (full : list (list (gmap string JVal))) (short : list (gmap string JVal))
    (s s' : St) (rounds : nat) (k : JSet.t -> Prog) :
  serves handle name primaryKeyField s 1%Z (full ++ [short]) s' ->
  Forall (fun response => (1000 <= length response)%nat) full ->
  (length short < 1000)%nat ->
  (length full < rounds)%nat ->
  let keys := keysOf primaryKeyField JSet.empty (full ++ [short]) in
  let pages := S (length full) in
  run handle (getExistingPrimaryKeys rounds name primaryKeyField k) s
  = (let '(o, s'', t) := run handle (k keys) s' in
     (o, s'', pageEvents name primaryKeyField 1%Z pages ++ t))
  /\ requestsOf (pageEvents name primaryKeyField 1%Z pages)
     = pageRequests name primaryKeyField 1%Z pages
  /\ (forall v,
        JSet.has keys v
        = existsb (fun item => sameValueZero v (getProp item primaryKeyField))
                  (concat (full ++ [short])))
  /\ (forall t1 r t2 c,
        steps (CRun (getExistingPrimaryKeys rounds name primaryKeyField
                       (fun _ => Stop)))
              (t1 ++ Issued r :: t2) c ->
        issuedIn anyRequest t1 = settledIn anyRequest t1).
Proof.
  intros Hserves Hfull Hshort Hrounds keys pages.
  split; [|split; [|split]].
  - apply run_getExistingPrimaryKeys_from; assumption.
  - apply requestsOf_pageEvents.
  - intros v. unfold keys. rewrite keysOf_has. reflexivity.
  - intros t1 r t2 c. apply sequential_one_at_a_time.
    apply sequential_getExistingPrimaryKeys_from. intros _. exact I.
Qed.

(** ** Executions with their replies *)

Lemma exchange_step (c : Cfg) (x : option Exchange) (c' : Cfg) :
  exchange c x c' -> step c (eventOf <$> x) c'.
Proof. induction 1; constructor; assumption. Qed.

Lemma exchanges_steps (c : Cfg) (t : list Exchange) (c' : Cfg) :
  exchanges c t c' -> steps c (eventOf <$> t) c'.
Proof.
  induction 1 as [c | c1 x c2 t c3 Hx _ IH]; [constructor|].
  rewrite fmap_app.
  replace (eventOf <$> option_list x) with (observe (eventOf <$> x))
    by (destruct x; reflexivity).
  econstructor; [apply exchange_step, Hx | exact IH].
Qed.

Lemma step_exchange (c : Cfg) (e : option Event) (c' : Cfg) :
  step c e c' -> exists x, exchange c x c' /\ eventOf <$> x = e.
Proof.
  induction 1 as [r k | r k reply | ps k | cs k Hcs | cs1 c c' cs2 k e _ IH].
  - exists (Some (Asked r)). split; [constructor | reflexivity].
  - exists (Some (Answered r reply)). split; [constructor | reflexivity].
  - exists None. split; [constructor | reflexivity].
  - exists None. split; [constructor; exact Hcs | reflexivity].
  - destruct IH as (x & Hx & <-). exists x. split; [constructor; exact Hx | reflexivity].
Qed.

(** The executions of the two relations are the same. *)
Lemma steps_exchanges (c : Cfg) (t : list Event) (c' : Cfg) :
  steps c t c' -> exists tx, exchanges c tx c' /\ eventOf <$> tx = t.
Proof.
  induction 1 as [c | c1 e c2 t c3 Hstep _ (tx & Htx & <-)].
  - exists []. split; [constructor | reflexivity].
  - destruct (step_exchange _ _ _ Hstep) as (x & Hx & <-).
    exists (option_list x ++ tx). split; [econstructor; eassumption|].
    rewrite fmap_app. destruct x; reflexivity.
Qed.

Lemma requestsOf_eventOf (t : list Exchange) : requestsOf (eventOf <$> t) = asked t.
Proof.
  unfold requestsOf, asked.
  induction t as [|[r|r reply] t IH]; [reflexivity | |].
  - change (r :: omap (fun ev => match ev with Issued r => Some r | Settled _ _ => None end)
                      (eventOf <$> t)
            = r :: omap (fun x => match x with Asked r => Some r | Answered _ _ => None end)
                        t).
    f_equal. exact IH.
  - exact IH.
Qed.

Lemma asked_app (t1 t2 : list Exchange) : asked (t1 ++ t2) = asked t1 ++ asked t2.
Proof. apply omap_app. Qed.

Lemma exchanges_app (c1 : Cfg) (t1 : list Exchange) (c2 : Cfg) (t2 : list Exchange)
    (c3 : Cfg) :
  exchanges c1 t1 c2 -> exchanges c2 t2 c3 -> exchanges c1 (t1 ++ t2) c3.
Proof.
  induction 1 as [c | c1 x c2 t c3' Hx _ IH]; intros H2; [exact H2|].
  rewrite <- app_assoc. econstructor; [exact Hx | exact (IH H2)].
Qed.

Lemma exchanges_one (c1 : Cfg) (x : Exchange) (c2 : Cfg) (t : list Exchange) (c3 : Cfg) :
  exchange c1 (Some x) c2 -> exchanges c2 t c3 -> exchanges c1 (x :: t) c3.
Proof. intros Hx Ht. exact (exchanges_cons _ _ _ _ _ Hx Ht). Qed.

Lemma exchanges_silent (c1 c2 : Cfg) (t : list Exchange) (c3 : Cfg) :
  exchange c1 None c2 -> exchanges c2 t c3 -> exchanges c1 t c3.
Proof. intros Hx Ht. exact (exchanges_cons _ _ _ _ _ Hx Ht). Qed.

(** What one step does, by the shape of the configuration. *)
Lemma exchange_inv (c : Cfg) (x : option Exchange) (c' : Cfg) :
  exchange c x c' ->
  match c with
  | CRun (Await r k) => x = Some (Asked r) /\ c' = CWait r k
  | CRun (AwaitAll ps k) => x = None /\ c' = CJoin (CRun <$> ps) k
  | CRun _ => False
  | CWait r k => exists reply, x = Some (Answered r reply) /\ c' = CRun (k reply)
  | CJoin cs k =>
      (Forall (fun c => c = CRun Stop) cs /\ x = None /\ c' = CRun k)
      \/ exists cs1 c0 c0' cs2,
           cs = cs1 ++ c0 :: cs2 /\ c' = CJoin (cs1 ++ c0' :: cs2) k
           /\ exchange c0 x c0'
  end.
Proof.
  destruct 1 as [r k | r k reply | ps k | cs k Hcs | cs1 c c' cs2 k x Hx].
  - auto.
  - eauto.
  - auto.
  - left. auto.
  - right. exists cs1, c, c', cs2. auto.
Qed.

(** A configuration that has stopped, failed or run out of rounds stays. *)
Lemma exchanges_stuck (p : Prog) (t : list Exchange) (c : Cfg) :
  match p with Stop | Fail _ | Spin => True | _ => False end ->
  exchanges (CRun p) t c -> t = [] /\ c = CRun p.
Proof.
  intros Hp H. remember (CRun p) as c0 eqn:Hc0.
  destruct H as [c | c1 x c2 t c3 Hx _]; [auto|].
  subst c1. apply exchange_inv in Hx. destruct p; contradiction.
Qed.

(** An awaited request: not yet made, in flight, or answered. *)
Lemma exchanges_Await (r : Request) (k : Reply r -> Prog) (t : list Exchange) (c : Cfg) :
  exchanges (CRun (Await r k)) t c ->
  (t = [] /\ c = CRun (Await r k))
  \/ (t = [Asked r] /\ c = CWait r k)
  \/ exists reply t',
       t = Asked r :: Answered r reply :: t' /\ exchanges (CRun (k reply)) t' c.
Proof.
  intros H. remember (CRun (Await r k)) as c0 eqn:Hc0.
  destruct H as [c | c1 x c2 t c3 Hx H2]; [left; auto|].
  subst c1. apply exchange_inv in Hx as [-> ->]. right.
  remember (CWait r k) as c1 eqn:Hc1.
  destruct H2 as [c | c1' x c2' t c3 Hx H3]; [left; subst; auto|].
  subst c1'. apply exchange_inv in Hx as (reply & -> & ->).
  right. exists reply, t. auto.
Qed.

(** *** Merges *)

Lemma interleaves_empty {A : Type} (n : nat) : @interleaves A (replicate n []) [].
Proof. constructor. apply Forall_replicate. reflexivity. Qed.

Lemma interleaves_omap {A B : Type} (f : A -> option B) (ts : list (list A))
    (t : list A) :
  interleaves ts t -> omap f t ≡ₚ concat ((fun t0 : list A => omap f t0) <$> ts).
Proof.
  induction 1 as [ts Hts | ts1 x t ts2 rest _ IH].
  - induction Hts as [|t ts -> _ IH]; [reflexivity | exact IH].
  - rewrite fmap_app, concat_app in *.
    cbn [fmap list_fmap concat omap list_omap] in *.
    destruct (f x) as [y|]; [|exact IH].
    cbn [app]. rewrite <- Permutation_middle. constructor. exact IH.
Qed.

Lemma interleaves_asked (ts : list (list Exchange)) (t : list Exchange) :
  interleaves ts t -> asked t ≡ₚ concat (asked <$> ts).
Proof. apply interleaves_omap. Qed.

Lemma interleaves_option {A : Type} (ts1 : list (list A)) (x : option A) (t : list A)
    (ts2 : list (list A)) (rest : list A) :
  interleaves (ts1 ++ t :: ts2) rest ->
  interleaves (ts1 ++ (option_list x ++ t) :: ts2) (option_list x ++ rest).
Proof. destruct x; [apply interleaves_cons | trivial]. Qed.

(** *** The branches of a [Promise.all] *)

Lemma exchanges_returned (cs : list Cfg) :
  Forall (fun c => c = CRun Stop) cs ->
  Forall3 (fun c t c' => exchanges c t c') cs (replicate (length cs) []) cs.
Proof. induction 1; constructor; [constructor | assumption]. Qed.

Lemma exchanges_stay (cs : list Cfg) :
  Forall3 (fun c t c' => exchanges c t c') cs (replicate (length cs) []) cs.
Proof. induction cs; constructor; [constructor | assumption]. Qed.

(** An execution of a [Promise.all] is a merge of executions of its
    branches, followed by an execution of what comes after it once every
    branch has returned. *)
Lemma exchanges_CJoin (k : Prog) (cs : list Cfg) (t : list Exchange) (c : Cfg) :
  exchanges (CJoin cs k) t c ->
  exists ts cs' t1 t2,
    Forall3 (fun c t c' => exchanges c t c') cs ts cs'
    /\ interleaves ts t1
    /\ t = t1 ++ t2
    /\ ((c = CJoin cs' k /\ t2 = [])
        \/ (Forall (fun c => c = CRun Stop) cs' /\ exchanges (CRun k) t2 c)).
Proof.
  intros H. remember (CJoin cs k) as c0 eqn:Hc0. revert cs Hc0.
  induction H as [c | c1 x c2 t c3 Hx H2 IH]; intros cs ->.
  - exists (replicate (length cs) []), cs, [], [].
    split; [apply exchanges_stay|]. split; [apply interleaves_empty|].
    split; [reflexivity | left; auto].
  - apply exchange_inv in Hx
      as [(Hcs & -> & ->) | (cs1 & c0 & c0' & cs2 & -> & -> & Hx)].
    + exists (replicate (length cs) []), cs, [], t.
      split; [apply exchanges_returned, Hcs|]. split; [apply interleaves_empty|].
      split; [reflexivity | right; auto].
    + destruct (IH _ eq_refl) as (ts & cs' & t1 & t2 & Hall & Hmerge & -> & Hend).
      apply Forall3_app_inv_l in Hall
        as (ts1 & ts2' & cs1' & cs2' & -> & -> & Hall1 & Hall2).
      apply Forall3_cons_inv_l in Hall2
        as (t0 & ts2 & c0'' & cs2'' & -> & -> & H0 & Hall2).
      exists (ts1 ++ (option_list x ++ t0) :: ts2), (cs1' ++ c0'' :: cs2''),
             (option_list x ++ t1), t2.
      split.
      { apply Forall3_app; [exact Hall1|]. constructor; [|exact Hall2].
        econstructor; eassumption. }
      split; [apply interleaves_option, Hmerge|].
      split; [apply app_assoc | exact Hend].
Qed.

Lemma exchanges_AwaitAll (ps : list Prog) (k : Prog) (t : list Exchange) (c : Cfg) :
  exchanges (CRun (AwaitAll ps k)) t c ->
  (t = [] /\ c = CRun (AwaitAll ps k))
  \/ exists ts cs' t1 t2,
       Forall3 (fun p t c' => exchanges (CRun p) t c') ps ts cs'
       /\ interleaves ts t1
       /\ t = t1 ++ t2
       /\ ((c = CJoin cs' k /\ t2 = [])
           \/ (Forall (fun c => c = CRun Stop) cs' /\ exchanges (CRun k) t2 c)).
Proof.
  intros H. remember (CRun (AwaitAll ps k)) as c0 eqn:Hc0.
  destruct H as [c | c1 x c2 t c3 Hx H2]; [left; auto|].
  subst c1. apply exchange_inv in Hx as [-> ->]. right.
  destruct (exchanges_CJoin _ _ _ _ H2) as (ts & cs' & t1 & t2 & Hall & Hrest).
  exists ts, cs', t1, t2. split; [|exact Hrest].
  clear - Hall. remember (CRun <$> ps) as cs eqn:Hcs. revert ps Hcs.
  induction Hall as [|c0 t0 c0' cs ts cs' H0 _ IH]; intros ps Hcs.
  - destruct ps; [constructor | discriminate].
  - destruct ps as [|p ps]; [discriminate|]. injection Hcs as -> ->.
    constructor; [exact H0 | apply IH; reflexivity].
Qed.

(** ** The units of the three phases *)

Lemma headFailure_AwaitAll_None (ps : list Prog) (k : Prog) :
  Forall (fun p => headFailure p = None) ps -> headFailure (AwaitAll ps k) = None.
Proof.
  cbn [headFailure]. induction 1 as [|p ps Hp _ IH]; [reflexivity|].
  cbn [foldr]. rewrite Hp. exact IH.
Qed.

Lemma userCollectionsOf_eligible (collections : list Collection)
    (targetCollections : gset string) (k : list Collection -> Prog) :
  metaPresent collections ->
  userCollectionsOf collections targetCollections k
  = k (List.filter (eligible targetCollections) collections).
Proof.
  unfold userCollectionsOf, metaPresent. cbv zeta. intros Hmeta.
  assert (Hchain :
    filter_throwing (fun item => (fun m => negb (singleton m)) <$> meta item)
      (List.filter (fun item => bool_decide (schema item ≠ None))
         (List.filter (fun item => negb (String.prefix "directus_" (collection item)))
                      collections))
    = Some (List.filter
              (fun item => negb (String.prefix "directus_" (collection item))
                           && bool_decide (schema item ≠ None)
                           && from_option (fun m => negb (singleton m)) false (meta item))
              collections)).
  { induction collections as [|item collections IH]; [reflexivity|].
    assert (Hrest : forall item', item' ∈ collections ->
              String.prefix "directus_" (collection item') = false ->
              schema item' ≠ None -> meta item' ≠ None).
    { intros item' Hin. apply Hmeta. right. exact Hin. }
    specialize (IH Hrest). cbn [List.filter].
    destruct (String.prefix "directus_" (collection item)) eqn:Hprefix;
      cbn [List.filter negb andb]; [exact IH|].
    case_bool_decide as Hschema; cbn [List.filter andb]; [|exact IH].
    cbn [filter_throwing]. rewrite IH.
    destruct (meta item) as [m|] eqn:Hm; cbn [fmap option_fmap option_map from_option].
    - destruct (negb (singleton m)); reflexivity.
    - exfalso. eapply Hmeta; [left | exact Hprefix | exact Hschema | exact Hm]. }
  rewrite Hchain. unfold ret. f_equal.
  rewrite filter_filter_andb. reflexivity.
Qed.

Lemma skeletonRecordsOf_skipped (rounds : nat) (dir : Template)
    (primaryKeyMap : PlainObject) (item : Collection) :
  readFile_allowMissing (collection item) dir = None ->
  exec (skeletonRecordsOf rounds dir primaryKeyMap item) = Stop.
Proof. intros H. unfold exec, skeletonRecordsOf. rewrite H. reflexivity. Qed.

Lemma skeletonRecordsOf_no_key (rounds : nat) (dir : Template)
    (primaryKeyMap : PlainObject) (item : Collection) (data : Content) :
  readFile_allowMissing (collection item) dir = Some data ->
  from_option truthy false (primaryKeyMap !! collection item) = false ->
  exec (skeletonRecordsOf rounds dir primaryKeyMap item)
  = Fail (noPrimaryKey primaryKeyMap (collection item)).
Proof.
  intros Hdata Hkey. unfold exec, skeletonRecordsOf. rewrite Hdata.
  unfold getPrimaryKey. unfold_M. rewrite Hkey. reflexivity.
Qed.

Section Units.
Context {St : Type} (handle : St -> forall r : Request, Reply r * St).

Lemma run_upload (name : string)
    (method : string -> list (gmap string JVal) -> Request)
    (batch : list (gmap string JVal)) (batchIndex : nat) (s : St) :
  exists failure,
    run handle (exec (uploadBatch name batch method batchIndex)) s
    = match handle s (method name batch) with
      | (Resolved _, s1) => (Completed, s1, answered true (method name batch))
      | (Rejected _, s1) => (Failed failure, s1, answered false (method name batch))
      end.
Proof.
  unfold uploadBatch. unfold_M. cbn [run].
  destruct (handle s (method name batch)) as [[done|error] s1].
  - exists (Uncaught ""). reflexivity.
  - eexists. reflexivity.
Qed.

End Units.



(** *** The units in the interleaving semantics *)

Lemma exchanges_uploadBatch (name : string)
    (method : string -> list (gmap string JVal) -> Request)
    (batch : list (gmap string JVal)) (batchIndex : nat) (t : list Exchange) (c : Cfg) :
  exchanges (CRun (exec (uploadBatch name batch method batchIndex))) t c ->
  (asked t = [] \/ asked t = [method name batch])
  /\ (c = CRun Stop -> asked t = [method name batch]).
Proof.
  unfold uploadBatch. unfold_M. intros H.
  apply exchanges_Await in H as [[-> ->] | [[-> ->] | (reply & t' & -> & H)]].
  - split; [left; reflexivity | discriminate].
  - split; [right; reflexivity | discriminate].
  - assert (t' = []) as ->.
    { destruct reply as [done|error]; apply exchanges_stuck in H as [-> _];
        try reflexivity; exact I. }
    split; [right; reflexivity | reflexivity].
Qed.

(** Branches that make one request each, [rs], in an execution of their
    [Promise.all]. *)
Lemma exchanges_single_requests (ps : list Prog) (rs : list Request)
    (ts : list (list Exchange)) (cs : list Cfg) :
  Forall2 (fun p r => forall t c,
             exchanges (CRun p) t c ->
             (asked t = [] \/ asked t = [r]) /\ (c = CRun Stop -> asked t = [r]))
          ps rs ->
  Forall3 (fun p t c => exchanges (CRun p) t c) ps ts cs ->
  concat (asked <$> ts) `sublist_of` rs
  /\ (Forall (fun c => c = CRun Stop) cs -> concat (asked <$> ts) = rs).
Proof.
  intros Hps. revert ts cs.
  induction Hps as [|p r ps rs Hp _ IH]; intros ts cs Hall.
  - inversion Hall; subst. split; [constructor | reflexivity].
  - apply Forall3_cons_inv_l in Hall as (t & ts' & c & cs' & -> & -> & Ht & Hall).
    destruct (IH _ _ Hall) as [Hsub Heq]. destruct (Hp _ _ Ht) as [Hasked Hdone].
    cbn [fmap list_fmap concat]. split.
    + destruct Hasked as [-> | ->]; cbn [app];
        [apply sublist_cons | apply sublist_skip]; exact Hsub.
    + intros Hstop. apply Forall_cons in Hstop as [-> Hstop].
      rewrite (Hdone eq_refl), (Heq Hstop). reflexivity.
Qed.

Lemma uploads_single_requests (name : string)
    (method : string -> list (gmap string JVal) -> Request)
    (batches : list (list (gmap string JVal))) :
  forall index : nat -> nat,
    Forall2 (fun p r => forall t c,
               exchanges (CRun p) t c ->
               (asked t = [] \/ asked t = [r]) /\ (c = CRun Stop -> asked t = [r]))
            (imap (fun i batch => exec (uploadBatch name batch method (index i))) batches)
            (method name <$> batches).
Proof.
  induction batches as [|batch batches IH]; intros index; [constructor|].
  cbn [imap fmap list_fmap]. constructor.
  - intros t c. apply exchanges_uploadBatch.
  - apply (IH (index ∘ Datatypes.S)).
Qed.

(** The batches of a collection, uploaded under one [Promise.all]: each is
    asked for at most once, in any order, and all of them have been asked for
    when the [Promise.all] has returned. *)
Lemma exchanges_uploads (name : string)
    (method : string -> list (gmap string JVal) -> Request)
    (batches : list (list (gmap string JVal))) (t : list Exchange) (c : Cfg) :
  exchanges
    (CRun (AwaitAll (imap (fun i batch => exec (uploadBatch name batch method i)) batches)
                    Stop)) t c ->
  asked t ⊆+ (method name <$> batches)
  /\ (c = CRun Stop -> asked t ≡ₚ method name <$> batches).
Proof.
  intros H.
  apply exchanges_AwaitAll in H
    as [[-> ->] | (ts & cs & t1 & t2 & Hall & Hmerge & -> & Hend)].
  { split; [apply submseteq_nil_l | discriminate]. }
  destruct (exchanges_single_requests _ _ _ _
              (uploads_single_requests name method batches id) Hall) as [Hsub Heq].
  assert (t2 = [] /\ (c = CRun Stop -> Forall (fun c => c = CRun Stop) cs))
    as [-> Hdone].
  { destruct Hend as [[-> ->] | [Hcs Hrest]]; [split; [reflexivity | discriminate]|].
    apply exchanges_stuck in Hrest as [-> _]; [auto | exact I]. }
  rewrite app_nil_r, (interleaves_asked _ _ Hmerge). split.
  - apply sublist_submseteq, Hsub.
  - intros Hc. rewrite (Heq (Hdone Hc)). reflexivity.
Qed.

Lemma pageRequests_readPage (name primaryKeyField : string) (page : Z) (n : nat) :
  pageRequests name primaryKeyField page (S n)
  = readPage name primaryKeyField page
    :: pageRequests name primaryKeyField (page + 1)%Z n.
Proof. reflexivity. Qed.





(** ** What the full-data and the singleton phase submit *)

Lemma stripUserFields_lookup (row : gmap string JVal) :
  stripUserFields row !! "user_created" = None
  /\ stripUserFields row !! "user_updated" = None
  /\ (forall key, key <> "user_created" -> key <> "user_updated" ->
        stripUserFields row !! key = row !! key).
Proof.
  unfold stripUserFields. split; [|split].
  - rewrite lookup_delete_ne by discriminate. apply lookup_delete_eq.
  - apply lookup_delete_eq.
  - intros key H1 H2. rewrite !lookup_delete_ne by congruence. reflexivity.
Qed.

Lemma chunk_from_elem {A} (steps size : nat) (array batch : list A) (x : A) :
  batch ∈ chunk_from steps array size -> x ∈ batch -> x ∈ array.
Proof.
  revert array. induction steps as [|steps IH]; intros array Hbatch Hx.
  - inversion Hbatch.
  - destruct array as [|y array]; [inversion Hbatch|].
    cbn [chunk_from] in Hbatch. apply elem_of_cons in Hbatch as [-> | Hbatch].
    + exact (subseteq_take _ _ _ Hx).
    + apply (subseteq_drop size). eapply IH; eassumption.
Qed.

Lemma Forall_imap_elem {A B} (P : B -> Prop) (f : nat -> A -> B) (l : list A) :
  (forall i x, x ∈ l -> P (f i x)) -> Forall P (imap f l).
Proof.
  revert f. induction l as [|x l IH]; intros f Hf; [constructor|].
  cbn [imap]. constructor; [apply Hf; left|].
  apply IH. intros i y Hy. apply Hf. right. exact Hy.
Qed.

Lemma uses_fullDataOf_submitted (dir : Template) (item : Collection) :
  uses (skeletonOrSubmitted dir) (exec (fullDataOf dir item)).
Proof.
  unfold exec, fullDataOf, readFile_allowMissing.
  destruct (blob_content dir !! collection item) as [data|] eqn:Hdata; [|exact I].
  cbv zeta. apply uses_promiseAll; [|exact I].
  apply Forall_imap_elem. intros index batch Hbatch.
  unfold uploadBatch. unfold_M. cbn [uses].
  split; [|intros [done|error]; exact I].
  right. destruct data as [rows|row]; [|inversion Hbatch].
  exists rows. split; [exact Hdata|].
  apply list_elem_of_fmap in Hbatch as (chunk & -> & Hchunk).
  apply Forall_fmap, Forall_forall. intros row Hrow. exists row.
  split; [|reflexivity]. eapply chunk_from_elem; eassumption.
Qed.

Lemma uses_singletonOf_submitted (dir : Template) (item : Collection) :
  uses (skeletonOrSubmitted dir) (exec (singletonOf dir item)).
Proof.
  unfold exec, singletonOf, readFile_allowMissing.
  destruct (blob_content dir !! collection item) as [data|] eqn:Hdata; [|exact I].
  unfold_M. cbn [uses]. split; [|intros [done|error]; exact I].
  right. exists data. split; [exact Hdata | reflexivity].
Qed.

Lemma uses_loadData_submitted (rounds : nat) (dir : Template) :
  uses (skeletonOrSubmitted dir) (exec (loadData rounds dir)).
Proof.
  apply staged_same.
  unfold exec, loadData. unfold mbind, M_bind, bind.
  apply staged_readFile. intros collections.
  apply staged_getTargetCollectionNames; [left; exact I|]. intros targetCollections.
  apply staged_loadSkeletonRecords; [intros r Hr; left; exact Hr|].
  unfold loadFullData. unfold mbind, M_bind, bind.
  apply staged_readFile. intros collections'.
  apply staged_userCollectionsOf. intros userCollections.
  apply staged_promiseAll.
  { apply Forall_fmap, Forall_forall. intros item _. apply uses_fullDataOf_submitted. }
  unfold loadSingletons. unfold mbind, M_bind, bind.
  apply staged_readFile. intros collections''.
  apply staged_singletonCollectionsOf. intros singletonCollections.
  apply staged_promiseAll; [|left; exact I].
  apply Forall_fmap, Forall_forall. intros item _. apply uses_singletonOf_submitted.
Qed.

(** C6.  In every execution of [loadData], each [updateItemsBatch] and each
    [updateSingleton] request submits records of the template's content from
    which [user_created] and [user_updated] have been removed and in which
    every other key has the value it has in the source record. *)
Theorem audit_fields_are_stripped (rounds : nat) (dir : Template)
    (t : list Event) (c : Cfg) (r : Request) :
  steps (CRun (exec (loadData rounds dir))) t c ->
  Issued r ∈ t ->
  isUpdateItemsBatch r || isUpdateSingleton r = true ->
  submittedFrom dir r
  /\ (forall row : gmap string JVal,
        stripUserFields row !! "user_created" = None
        /\ stripUserFields row !! "user_updated" = None
        /\ (forall key, key <> "user_created" -> key <> "user_updated" ->
              stripUserFields row !! key = row !! key)).
Proof.
  intros Hsteps Hin Hkind. split; [|apply stripUserFields_lookup].
  destruct (steps_cuses (skeletonOrSubmitted dir) _ _ _ Hsteps) as [_ Hall].
  { apply uses_loadData_submitted. }
  rewrite Forall_forall in Hall.
  destruct (Hall _ Hin r eq_refl) as [Hskeleton | Hsubmitted]; [|exact Hsubmitted].
  destruct r; try contradiction; discriminate.
Qed.

(** ** A collection with content but no primary key *)

Lemma headFailure_getExistingPrimaryKeys (rounds : nat) (name primaryKeyField : string)
    (k : JSet.t -> Prog) :
  headFailure (getExistingPrimaryKeys rounds name primaryKeyField k) = None.
Proof. destruct rounds; reflexivity. Qed.

Lemma headFailure_skeletonRecordsOf (rounds : nat) (dir : Template)
    (primaryKeyMap : PlainObject) (item : Collection) :
  headFailure (exec (skeletonRecordsOf rounds dir primaryKeyMap item))
  = if lacksKey dir primaryKeyMap item
    then Some (noPrimaryKey primaryKeyMap (collection item))
    else None.
Proof.
  unfold lacksKey.
  destruct (readFile_allowMissing (collection item) dir) as [data|] eqn:Hdata.
  - rewrite bool_decide_eq_true_2 by eauto. cbn [andb].
    destruct (from_option truthy false (primaryKeyMap !! collection item)) eqn:Hkey;
      cbn [negb].
    + unfold exec, skeletonRecordsOf. rewrite Hdata.
      unfold getPrimaryKey. unfold_M. rewrite Hkey. cbn [negb].
      apply headFailure_getExistingPrimaryKeys.
    + rewrite (skeletonRecordsOf_no_key _ _ _ _ _ Hdata Hkey). reflexivity.
  - rewrite bool_decide_eq_false_2 by (intros [? ?]; discriminate). cbn [andb].
    rewrite (skeletonRecordsOf_skipped _ _ _ _ Hdata). reflexivity.
Qed.

Lemma headFailure_skeleton_units (rounds : nat) (dir : Template)
    (primaryKeyMap : PlainObject) (userCollections : list Collection)
    (k : Prog) :
  headFailure
    (AwaitAll ((fun item => exec (skeletonRecordsOf rounds dir primaryKeyMap item))
                 <$> userCollections) k)
  = (fun item => noPrimaryKey primaryKeyMap (collection item))
      <$> List.find (lacksKey dir primaryKeyMap) userCollections.
Proof.
  cbn [headFailure].
  induction userCollections as [|item userCollections IH]; [reflexivity|].
  cbn [fmap list_fmap foldr List.find].
  rewrite headFailure_skeletonRecordsOf.
  destruct (lacksKey dir primaryKeyMap item); [reflexivity | exact IH].
Qed.

Lemma Forall3_elem_of_l {A B C : Type} (P : A -> B -> C -> Prop)
    (l : list A) (k : list B) (m : list C) (a : A) :
  Forall3 P l k m -> a ∈ l -> exists b c, c ∈ m /\ P a b c.
Proof.
  induction 1 as [|a0 b0 c0 l k m H0 _ IH]; intros Hin; [inversion Hin|].
  apply elem_of_cons in Hin as [-> | Hin].
  - exists b0, c0. split; [left | exact H0].
  - destruct (IH Hin) as (b & c & Hc & HP). exists b, c.
    split; [right; exact Hc | exact HP].
Qed.

(** C7.  The fatal error is missed for a collection with the name of a
    member of [Object.prototype].  The template [inheritedTemplate] has one
    collection, named "constructor", which passes the filter chain and has a
    content blob, and no field of the fields blob is marked as primary key.
    The map of the primary keys has no key of its own, but
    [collectionsMap[collection]] finds the method [constructor] that every
    object inherits, which is truthy: [getPrimaryKey] does not call the
    error-capture point and returns the function as the primary-key field
    (the model writes it as the text that it gives as a property key).  The
    run goes on: it reads the page of keys, creates a record without key,
    submits the update, and returns.  For the same template with the
    collection named "articles" the fatal error is raised. *)
Theorem missing_primary_key_inherited_name :
  let fields :=
    [ {| field_collection := "constructor"; field := "title";
         field_schema := Some {| is_primary_key := false |} |} ] in
  let inherited := "function Object() { [native code] }" in
  blob_fields inheritedTemplate = Some fields
  /\ Forall (fun f => is_primary_key <$> field_schema f <> Some true) fields
  /\ List.filter (eligible {[ "constructor" ]}) [constructorCollection]
     = [constructorCollection]
  /\ readFile_allowMissing "constructor" inheritedTemplate = Some (Rows [article1])
  /\ objectKeys (primaryKeysOf fields) = []
  /\ primaryKeysOf fields !! "constructor" = Some inherited
  /\ (forall k : string -> Prog,
        getPrimaryKey (primaryKeysOf fields) "constructor" k = k inherited)
  /\ (exists t,
        exchanges (CRun (exec (loadData 1 inheritedTemplate))) t (CRun Stop)
        /\ asked t
           = [ ReadCollections;
               readPage "constructor" inherited 1%Z;
               CreateItems "constructor" [ {[ inherited := JUndef ]} ];
               UpdateItemsBatch "constructor"
                 [ {[ "id" := JNum 1; "title" := JStr "Hello" ]} ] ])
  /\ exec (skeletonRecordsOf 1 keylessTemplate
             (primaryKeysOf
                [ {| field_collection := "articles"; field := "title";
                     field_schema := Some {| is_primary_key := false |} |} ])
             articles)
     = Fail (Fatal "Collection articles not found in collections map"
                   [("availableCollections", JArr []);
                    ("collection", JStr "articles");
                    ("operation", JStr "getPrimaryKey")]).
Proof.
  cbv zeta. split; [reflexivity|].
  split; [repeat constructor; discriminate|].
  split; [vm_compute; reflexivity|].
  split; [vm_compute; reflexivity|].
  split; [vm_compute; reflexivity|].
  split; [vm_compute; reflexivity|].
  split; [intros k; reflexivity|].
  split; [|vm_compute; reflexivity].
  destruct (run_steps Target.handle (exec (loadData 1 inheritedTemplate))
              inheritedTarget) as (c & Hsteps & Hc).
  rewrite (Hc ltac:(vm_compute; reflexivity)) in Hsteps.
  destruct (steps_exchanges _ _ _ Hsteps) as (t & Ht & Hevents).
  exists t. split; [exact Ht|].
  rewrite <- requestsOf_eventOf, Hevents. vm_compute. reflexivity.
Qed.

(** ** A collection with content but no primary key, under a name that is
    not inherited *)

(** X22.  Take a collection of the filter chain of the skeleton phase that
    has a content blob, such that no field of the fields blob is marked as
    primary key for it and its name is not the name of a member of
    [Object.prototype].  Its unit of the phase is the call of the
    error-capture point with the fatal flag, with a message that names the
    collection and a context that lists the keys of the map.  In every
    execution of the phase in the interleaving semantics, whatever the target
    answers and whatever the other units do, the [Promise.all] of the phase
    never returns: what follows the phase is never started. *)
Theorem missing_primary_key_stops_the_phase (rounds : nat) (dir : Template)
    (collections : list Collection) (fields : list Field)
    (targetCollections : gset string) (item : Collection) (data : Content) :
  blob_collections dir = Some collections ->
  blob_fields dir = Some fields ->
  metaPresent collections ->
  item ∈ List.filter (eligible targetCollections) collections ->
  readFile_allowMissing (collection item) dir = Some data ->
  (forall f, f ∈ fields -> field_collection f = collection item ->
             is_primary_key <$> field_schema f <> Some true) ->
  objectPrototype !! collection item = None ->
  let failure :=
    Fatal ("Collection " +:+ collection item +:+ " not found in collections map")
          [("availableCollections", JArr (JStr <$> objectKeys (primaryKeysOf fields)));
           ("collection", JStr (collection item));
           ("operation", JStr "getPrimaryKey")] in
  exec (skeletonRecordsOf rounds dir (primaryKeysOf fields) item) = Fail failure
  /\ forall (k : unit -> Prog) (t : list Exchange) (c : Cfg),
       exchanges (CRun (loadSkeletonRecords rounds dir targetCollections k)) t c ->
       (t = [] /\ c = CRun (loadSkeletonRecords rounds dir targetCollections k))
       \/ exists cs, c = CJoin cs (k tt) /\ CRun (Fail failure) ∈ cs.
Proof.
  intros Hcollections Hfields Hmeta Hitem Hdata Hunmarked Hown failure.
  assert (exec (skeletonRecordsOf rounds dir (primaryKeysOf fields) item)
          = Fail failure) as Hunit.
  { apply (skeletonRecordsOf_no_key _ _ _ _ data Hdata).
    rewrite (primaryKeysOf_unmarked fields (collection item) Hunmarked), Hown.
    reflexivity. }
  split; [exact Hunit|]. intros k t c H.
  assert (loadSkeletonRecords rounds dir targetCollections k
          = AwaitAll ((fun item0 =>
                         exec (skeletonRecordsOf rounds dir (primaryKeysOf fields) item0))
                        <$> List.filter (eligible targetCollections) collections)
                     (k tt)) as Heq.
  { unfold loadSkeletonRecords, getCollectionPrimaryKeys, readFile.
    rewrite Hcollections, Hfields. unfold_M.
    rewrite (userCollectionsOf_eligible collections targetCollections _ Hmeta).
    reflexivity. }
  rewrite Heq in *.
  apply exchanges_AwaitAll in H
    as [[-> ->] | (ts & cs & t1 & t2 & Hall & _ & -> & Hend)]; [left; auto|].
  right.
  assert (CRun (Fail failure) ∈ cs) as Hin.
  { destruct (Forall3_elem_of_l _ _ _ _ (Fail failure) Hall)
      as (t0 & c0 & Hc0 & H0).
    - rewrite <- Hunit. apply list_elem_of_fmap. exists item. split; [reflexivity|].
      exact Hitem.
    - apply exchanges_stuck in H0 as [_ ->]; [exact Hc0 | exact I]. }
  destruct Hend as [[-> _] | [Hstop _]].
  - exists cs. split; [reflexivity | exact Hin].
  - rewrite Forall_forall in Hstop. specialize (Hstop _ Hin). discriminate Hstop.
Qed.

(** ** The relation loader *)

Lemma sequential_addRelations (relations : list Relation) (k : unit -> Prog) :
  sequential (k tt) -> sequential (addRelations relations k).
Proof.
  intros Hk. induction relations as [|relation relations IH]; [exact Hk|].
  cbn [addRelations]. unfold_M. cbn [sequential].
  intros [[]|error]; [exact IH | exact I].
Qed.

Lemma alreadyExists_spec (existingRelations : list Relation) (relation : Relation) :
  bool_decide (relationKey relation
                 ∈ (list_to_set (relationKey <$> existingRelations) : gset string))
  = alreadyExists existingRelations relation.
Proof.
  unfold alreadyExists. apply eq_true_iff_eq.
  rewrite bool_decide_eq_true, elem_of_list_to_set, list_elem_of_fmap, existsb_exists.
  split.
  - intros (existing & Hkey & Hin). exists existing.
    split; [apply list_elem_of_In, Hin | apply String.eqb_eq; congruence].
  - intros (existing & Hin & Hkey). exists existing.
    apply String.eqb_eq in Hkey. split; [congruence | apply list_elem_of_In, Hin].
Qed.

Lemma relationsToAddOf_spec (relations existingRelations : list Relation) :
  relationsToAddOf relations existingRelations
  = mapM cleanRelation
      (List.filter (fun relation => negb (alreadyExists existingRelations relation))
                   relations).
Proof.
  unfold relationsToAddOf. cbv zeta. f_equal. apply List.filter_ext.
  intros relation. rewrite alreadyExists_spec.
  destruct (alreadyExists existingRelations relation); reflexivity.
Qed.

Lemma mapM_cleanRelation (relations : list Relation) :
  mapM cleanRelation relations
  = if forallb (fun relation => bool_decide (is_Some (rel_meta relation))) relations
    then Some (cleared <$> relations)
    else None.
Proof.
  induction relations as [|relation relations IH]; [reflexivity|].
  cbn [mapM forallb fmap list_fmap]. rewrite IH.
  unfold cleanRelation, cleared. destruct (rel_meta relation) as [m|].
  - rewrite bool_decide_eq_true_2 by eauto. cbn [andb mbind option_bind].
    destruct (forallb _ relations); reflexivity.
  - rewrite bool_decide_eq_false_2 by (intros [? ?]; discriminate). reflexivity.
Qed.

Lemma sequential_loadRelations (dir : Template) : sequential (exec (loadRelations dir)).
Proof.
  unfold exec, loadRelations, readFile. unfold_M.
  destruct (blob_relations dir) as [allRelations|]; [|exact I].
  destruct (blob_collections dir) as [collections|]; [|exact I].
  cbv zeta. destruct (0 <? _)%nat; [|exact I].
  cbn [sequential]. intros [existing|error]; [|exact I].
  destruct (relationsToAddOf _ existing); [|exact I].
  apply sequential_addRelations. exact I.
Qed.

Lemma loadableRelations_spec (collections : list Collection)
    (allRelations : list Relation) :
  loadableRelations collections allRelations
  = List.filter
      (fun relation =>
         negb (existsb (fun item => String.eqb (collection item) (rel_collection relation)
                                    && inExtensionsGroup item) collections)
         && negb (from_option
                    (fun name =>
                       existsb (fun item => String.eqb (collection item) name
                                            && inExtensionsGroup item) collections)
                    false (related_collection relation)))
      allRelations.
Proof.
  assert (forall name,
            bool_decide (name ∈ extensionCollectionNamesOf collections)
            = existsb (fun item => String.eqb (collection item) name
                                   && inExtensionsGroup item) collections) as Hin.
  { intros name. apply eq_true_iff_eq.
    rewrite bool_decide_eq_true, existsb_exists.
    unfold extensionCollectionNamesOf.
    rewrite elem_of_list_to_set, list_elem_of_fmap. split.
    - intros (item & -> & Hitem). apply list_elem_of_In, filter_In in Hitem as [Hitem Hgroup].
      exists item. split; [exact Hitem|]. rewrite String.eqb_refl, Hgroup. reflexivity.
    - intros (item & Hitem & Hboth). apply andb_true_iff in Hboth as [Hname Hgroup].
      apply String.eqb_eq in Hname. exists item. split; [symmetry; exact Hname|].
      apply list_elem_of_In, filter_In. split; assumption. }
  unfold loadableRelations. apply List.filter_ext. intros relation.
  rewrite Hin. destruct (related_collection relation) as [name|];
    cbn [from_option]; [rewrite Hin|]; reflexivity.
Qed.

Section Relations.
Context {St : Type} (handle : St -> forall r : Request, Reply r * St).

(** The relations are created one after the other, until one is rejected. *)
Lemma run_addRelations (relations : list Relation) :
  forall s : St,
  exists o s' t,
    run handle (addRelations relations (fun _ => Stop)) s = (o, s', t)
    /\ requestsOf t `prefix_of` (CreateRelation <$> relations)
    /\ (o = Completed -> requestsOf t = CreateRelation <$> relations).
Proof.
  induction relations as [|relation relations IH]; intros s.
  - exists Completed, s, []. repeat split. reflexivity.
  - cbn [addRelations]. unfold_M. cbn [run].
    destruct (handle s (CreateRelation relation)) as [[[]|error] s1].
    + destruct (IH s1) as (o & s' & t & Hrun & Hprefix & Hall).
      rewrite Hrun. exists o, s', (answered true (CreateRelation relation) ++ t).
      split; [reflexivity|]. rewrite requestsOf_answered, fmap_cons.
      split; [apply prefix_cons, Hprefix | intros Ho; f_equal; apply Hall, Ho].
    + eexists _, _, (answered false (CreateRelation relation) ++ []).
      split; [rewrite app_nil_r; reflexivity|].
      rewrite requestsOf_answered, fmap_cons.
      split; [apply prefix_cons, prefix_nil | discriminate].
Qed.

(** The run of [loadRelations] once the target has given its relations. *)
Lemma run_loadRelations (dir : Template) (allRelations : list Relation)
    (collections : list Collection) (existingRelations : list Relation) (s s1 : St) :
  blob_relations dir = Some allRelations ->
  blob_collections dir = Some collections ->
  loadableRelations collections allRelations <> [] ->
  handle s ReadRelations = (Resolved existingRelations, s1) ->
  run handle (exec (loadRelations dir)) s
  = match relationsToAddOf (loadableRelations collections allRelations)
            existingRelations with
    | Some relationsToAdd =>
        let '(o, s2, t) := run handle (addRelations relationsToAdd (fun _ => Stop)) s1 in
        (o, s2, answered true ReadRelations ++ t)
    | None => (Failed (nullAssign "id"), s1, answered true ReadRelations)
    end.
Proof.
  intros Hrelations Hcollections Hsome Hexisting.
  unfold exec, loadRelations, readFile. rewrite Hrelations, Hcollections.
  unfold_M. cbv zeta. fold (loadableRelations collections allRelations).
  replace (0 <? length (loadableRelations collections allRelations))%nat with true.
  2: { symmetry. apply Nat.ltb_lt.
       destruct (loadableRelations collections allRelations); [congruence | cbn; lia]. }
  cbn [run]. rewrite Hexisting.
  destruct (relationsToAddOf _ existingRelations) as [relationsToAdd|]; [|reflexivity].
  destruct (run handle (addRelations relationsToAdd (fun _ => Stop)) s1) as [[o s2] t].
  reflexivity.
Qed.

End Relations.

(** C4.  Take the relations of the blob that involve no collection of the
    [_extensions] group, and among them the missing ones: those whose identity
    key (collection, field and related collection, joined by colons, [null]
    written out) is the key of no relation of the target.  When there is no
    relation of the first kind, [loadRelations] makes no request.  Otherwise
    it asks the target for its relations and, when every missing relation has
    a [meta], asks for the creation of the missing relations, one request at
    a time and in the order of the blob, each with its names as they are and
    the [id] of its [meta] set to [undefined], the rest of the [meta] kept,
    until the target rejects one.  A relation of the target with the same
    three names makes a relation exist whatever its [meta].  When a missing
    relation has no [meta], clearing the [id] throws and nothing is
    created. *)
Theorem loadRelations_creates_the_missing {St : Type}
    (handle : St -> forall r : Request, Reply r * St)
    (dir : Template) (allRelations : list Relation) (collections : list Collection)
    (existingRelations : list Relation) (s s1 : St) :
  blob_relations dir = Some allRelations ->
  blob_collections dir = Some collections ->
  handle s ReadRelations = (Resolved existingRelations, s1) ->
  let inExtensions name :=
    existsb (fun item => String.eqb (collection item) name && inExtensionsGroup item)
            collections in
  let key relation :=
    rel_collection relation +:+ ":" +:+ rel_field relation +:+ ":"
    +:+ default "null" (related_collection relation) in
  let relations :=
    List.filter (fun relation =>
                   negb (inExtensions (rel_collection relation))
                   && negb (from_option inExtensions false (related_collection relation)))
                allRelations in
  let missing :=
    List.filter (fun relation =>
                   negb (existsb (fun existing => String.eqb (key existing) (key relation))
                                 existingRelations))
                relations in
  let created :=
    (fun relation =>
       {| rel_collection := rel_collection relation;
          rel_field := rel_field relation;
          related_collection := related_collection relation;
          rel_meta := <["id" := JUndef]> <$> rel_meta relation |}) <$> missing in
  (relations = [] -> run handle (exec (loadRelations dir)) s = (Completed, s, []))
  /\ (relations <> [] ->
      Forall (fun relation => is_Some (rel_meta relation)) missing ->
      exists o s2 t,
        run handle (exec (loadRelations dir)) s
        = (o, s2, answered true ReadRelations ++ t)
        /\ requestsOf t `prefix_of` (CreateRelation <$> created)
        /\ (o = Completed -> requestsOf t = CreateRelation <$> created))
  /\ (relations <> [] ->
      ~ Forall (fun relation => is_Some (rel_meta relation)) missing ->
      run handle (exec (loadRelations dir)) s
      = (Failed (Uncaught "TypeError: Cannot set properties of null (setting 'id')"),
         s1, answered true ReadRelations))
  /\ (forall relation existing,
        existing ∈ existingRelations ->
        rel_collection existing = rel_collection relation ->
        rel_field existing = rel_field relation ->
        related_collection existing = related_collection relation ->
        relation ∉ missing)
  /\ (forall t1 r t2 c,
        steps (CRun (exec (loadRelations dir))) (t1 ++ Issued r :: t2) c ->
        issuedIn anyRequest t1 = settledIn anyRequest t1).
Proof.
  intros Hrelations Hcollections Hexisting inExtensions key relations missing created.
  assert (relations = loadableRelations collections allRelations) as Hloadable
    by (symmetry; apply loadableRelations_spec).
  assert (relationsToAddOf relations existingRelations
          = if forallb (fun relation => bool_decide (is_Some (rel_meta relation))) missing
            then Some created else None) as Hadd.
  { rewrite relationsToAddOf_spec.
    replace (List.filter (fun relation => negb (alreadyExists existingRelations relation))
                         relations) with missing; [apply mapM_cleanRelation|].
    apply List.filter_ext. intros relation. reflexivity. }
  split; [|split; [|split; [|split]]].
  - intros Hnone. rewrite Hloadable in Hnone.
    unfold exec, loadRelations, readFile. rewrite Hrelations, Hcollections.
    unfold_M. cbv zeta. fold (loadableRelations collections allRelations).
    rewrite Hnone. reflexivity.
  - intros Hsome Hmeta.
    rewrite (run_loadRelations handle dir allRelations collections existingRelations
               s s1 Hrelations Hcollections ltac:(congruence) Hexisting).
    rewrite <- Hloadable, Hadd.
    replace (forallb _ missing) with true.
    2: { symmetry. apply forallb_forall. intros relation Hin.
         apply bool_decide_eq_true_2.
         rewrite Forall_forall in Hmeta. apply Hmeta, list_elem_of_In, Hin. }
    destruct (run_addRelations handle created s1) as (o & s2 & t & Hrun & Hprefix & Hall).
    rewrite Hrun. exists o, s2, t. auto.
  - intros Hsome Hmeta.
    rewrite (run_loadRelations handle dir allRelations collections existingRelations
               s s1 Hrelations Hcollections ltac:(congruence) Hexisting).
    rewrite <- Hloadable, Hadd.
    replace (forallb _ missing) with false; [reflexivity|].
    symmetry. apply not_true_is_false. intros Hall. apply Hmeta.
    apply Forall_forall. intros relation Hin.
    rewrite forallb_forall in Hall.
    eapply bool_decide_eq_true_1, Hall, list_elem_of_In, Hin.
  - intros relation existing Hin Hc Hf Hr Hmissing.
    apply list_elem_of_In, filter_In in Hmissing as [_ Hnew].
    apply negb_true_iff in Hnew.
    assert (existsb (fun existing => String.eqb (key existing) (key relation))
                    existingRelations = true) as Hfound; [|congruence].
    apply existsb_exists. exists existing.
    split; [apply list_elem_of_In, Hin|].
    apply String.eqb_eq. unfold key. rewrite Hc, Hf, Hr. reflexivity.
  - intros t1 r t2 c. apply sequential_one_at_a_time, sequential_loadRelations.
Qed.

(** ** The apply orchestrator *)

Lemma loadsOf_app (t1 t2 : list Load.Call) :
  loadsOf (t1 ++ t2) = loadsOf t1 ++ loadsOf t2.
Proof. unfold loadsOf. apply omap_app. Qed.

Lemma performs_Done {A : Type} (a : A) : performs (Done a) [].
Proof.
  intros St handle s. cbn [runScript fst snd loadsOf omap].
  split; [reflexivity|]. split; [reflexivity|]. split; [constructor | eauto].
Qed.

Lemma performs_log (level message : string) (detail : list (string * JVal)) :
  performs (call (Rp := Load.Reply) (Load.log level message detail)) [].
Proof.
  intros St handle s. unfold call. cbn [runScript].
  pose proof (fun H : answersWithin returning handle =>
                H s (Load.log level message detail) eq_refl) as Hreturns.
  destruct (handle s (Load.log level message detail)) as [[e|[]] s1];
    cbn [runScript fst snd loadsOf omap] in *.
  - split; [reflexivity|]. split; [reflexivity|].
    split; [repeat constructor|]. intros H. destruct (Hreturns H) as [v [=]].
  - split; [reflexivity|]. split; [reflexivity|].
    split; [repeat constructor | eauto].
Qed.

Lemma performs_await (loader : Load.Step) (source : string) :
  performs (await loader source) [(loader, source)].
Proof.
  intros St handle s. unfold await, call. cbn [runScript].
  pose proof (fun H : answersWithin returning handle =>
                H s (Load.load loader source) eq_refl) as Hreturns.
  destruct (handle s (Load.load loader source)) as [[e|[]] s1];
    cbn [runScript fst snd loadsOf omap] in *.
  - split; [reflexivity|]. split; [reflexivity|].
    split; [repeat constructor|]. intros H. destruct (Hreturns H) as [v [=]].
  - split; [reflexivity|]. split; [reflexivity|].
    split; [repeat constructor | eauto].
Qed.

Lemma performs_andThen {A B : Type} (m : Script Load.Call Load.Reply A)
    (f : A -> Script Load.Call Load.Reply B) (steps1 steps2 : list (Load.Step * string)) :
  performs m steps1 -> (forall a, performs (f a) steps2) ->
  performs (andThen m f) (steps1 ++ steps2).
Proof.
  intros Hm Hf St handle s. rewrite runScript_andThen.
  destruct (Hm St handle s) as (Hprefix1 & Hall1 & Hquiet1 & Hreturns1).
  destruct (runScript handle m s) as [[[e|a] s1] t1]; cbn [fst snd] in *.
  - split; [apply prefix_app_r, Hprefix1|].
    split; [intros [b [=]]|]. split; [exact Hquiet1|].
    intros H. destruct (Hreturns1 H) as [a [=]].
  - destruct (Hf a St handle s1) as (Hprefix2 & Hall2 & Hquiet2 & Hreturns2).
    destruct (runScript handle (f a) s1) as [[o s2] t2]; cbn [fst snd] in *.
    rewrite loadsOf_app, (Hall1 ltac:(eauto)).
    split; [apply prefix_app, Hprefix2|].
    split; [intros Hb; rewrite (Hall2 Hb); reflexivity|].
    split; [apply Forall_app; split; assumption | exact Hreturns2].
Qed.

Lemma performs_eq {A : Type} (m : Script Load.Call Load.Reply A)
    (steps steps' : list (Load.Step * string)) :
  performs m steps -> steps = steps' -> performs m steps'.
Proof. intros Hm <-. exact Hm. Qed.

Lemma performs_when (b : bool) (m : Script Load.Call Load.Reply unit)
    (steps : list (Load.Step * string)) :
  performs m steps -> performs (when b m) (if b then steps else []).
Proof. intros Hm. destruct b; [exact Hm | apply performs_Done]. Qed.

(** C8.  [apply] logs its start and checks the template.  When the
    collections, the fields or the relations blob is missing, it calls
    [ux.error] with the message about the unsupported template and ends in
    what that throws: no loader is called.  When the three blobs are there,
    [ux.error] is not called and the loaders that the flags select are called
    in the order of [apply], each with the source directory, up to the first
    call that throws; when no call throws, all of them are called and [apply]
    returns. *)
Theorem apply_checks_the_template {St : Type}
    (handle : St -> forall r : Load.Call, (Thrown + Load.Reply r) * St)
    (dir : string) (template : Template) (flags : ApplyFlags) (s : St) :
  let source := dir +:+ "/src" in
  let ran := runScript handle (apply dir template flags) s in
  let selected :=
    (if schema_flag flags then [Load.loadCollections; Load.loadRelations] else [])
    ++ (if permissions flags || users flags
        then [Load.loadRoles; Load.loadPolicies; Load.loadPermissions]
             ++ (if users flags then [Load.loadUsers] else [])
             ++ [Load.loadAccess]
        else [])
    ++ (if files flags then [Load.loadFolders; Load.loadFiles] else [])
    ++ (if content flags then [Load.loadData] else [])
    ++ (if schema_flag flags then [Load.updateRequiredFields] else [])
    ++ (if dashboards flags then [Load.loadDashboards] else [])
    ++ (if flows flags then [Load.loadFlows] else [])
    ++ (if settings flags
        then [Load.loadSettings; Load.loadTranslations; Load.loadPresets] else [])
    ++ (if extensions flags then [Load.loadExtensions] else []) in
  (checkTemplate template = false
   <-> blob_collections template = None \/ blob_fields template = None
       \/ blob_relations template = None)
  /\ (checkTemplate template = false ->
      loadsOf ran.2 = []
      /\ (exists error, ran.1.1 = inl error)
      /\ exists start,
           ran.2 = [start; Load.uxError templateNotOk] \/ ran.2 = [start])
  /\ (checkTemplate template = true ->
      Forall (fun r => isUxError r = false) ran.2
      /\ loadsOf ran.2 `prefix_of` ((fun step => (step, source)) <$> selected)
      /\ (ran.1.1 = inr tt ->
          loadsOf ran.2 = (fun step => (step, source)) <$> selected)
      /\ (answersWithin returning handle -> ran.1.1 = inr tt)).
Proof.
  intros source ran selected. split; [|split].
  - unfold checkTemplate.
    destruct (blob_collections template), (blob_fields template),
      (blob_relations template);
      cbn; split; intros H; try discriminate; try reflexivity; auto;
      destruct H as [H|[H|H]]; discriminate.
  - intros Hcheck. subst ran. unfold apply. cbv zeta. rewrite Hcheck.
    unfold mbind, Script_bind, call. cbn [negb andThen runScript].
    destruct (handle s _) as [[e|[]] s1]; cbn [andThen runScript fst snd loadsOf omap].
    + split; [reflexivity|]. split; [eauto|]. eexists. right. reflexivity.
    + destruct (handle s1 (Load.uxError templateNotOk)) as [[e|[]] s2].
      cbn [andThen runScript fst snd loadsOf omap].
      split; [reflexivity|]. split; [eauto|]. eexists. left. reflexivity.
  - intros Hcheck.
    assert (performs (apply dir template flags) ((fun step => (step, source)) <$> selected))
      as Hperforms.
    { eapply performs_eq.
      - unfold apply. cbv zeta. rewrite Hcheck. cbn [negb]. fold source.
        unfold mbind, Script_bind, logStep.
        repeat first
          [ apply performs_log
          | apply performs_await
          | apply performs_Done
          | apply performs_when
          | eapply performs_andThen; [|intros _] ].
      - subst selected. destruct flags as [[] [] [] [] [] [] [] [] []]; reflexivity. }
    destruct (Hperforms St handle s) as (Hprefix & Hall & Hquiet & Hreturns).
    fold ran in Hprefix, Hall, Hquiet, Hreturns.
    split; [exact Hquiet|]. split; [exact Hprefix|].
    split; [intros Hdone; apply Hall; eauto|].
    intros Hanswers. destruct (Hreturns Hanswers) as [[] Hdone]. exact Hdone.
Qed.

Lemma apply_checks_the_template_witness :
  let ran :=
    runScript (serveLoads 1 demoTemplate)
              (apply "/templates/demo" demoTemplate schemaAndContent) demoTarget in
  let refused :=
    runScript (serveLoads 1 olderTemplate)
              (apply "/templates/older" olderTemplate schemaAndContent) demoTarget in
  (loadsOf ran.2
   = [(Load.loadCollections, "/templates/demo/src");
      (Load.loadRelations, "/templates/demo/src");
      (Load.loadData, "/templates/demo/src");
      (Load.updateRequiredFields, "/templates/demo/src")]
   /\ Target.items ran.1.2 !! "articles"
      = Some [ {[ "id" := JNum 1; "title" := JStr "Hello" ]};
               {[ "id" := JNum 2; "title" := JStr "World" ]} ])
  /\ refused
     = (inl (ErrorObject "CLIError" templateNotOk), demoTarget,
        [Load.log "info" "Starting apply operation"
           [("flags", flagsValue schemaAndContent);
            ("source", JStr "/templates/older/src")];
         Load.uxError templateNotOk]).
Proof.
  intros ran refused. split.
  - destruct (apply_checks_the_template (serveLoads 1 demoTemplate) "/templates/demo"
                demoTemplate schemaAndContent demoTarget)
      as (_ & _ & Hok).
    destruct (Hok eq_refl) as (_ & _ & Hall & _).
    fold ran in Hall. split.
    + rewrite Hall; [reflexivity|]. vm_compute. reflexivity.
    + vm_compute. reflexivity.
  - destruct (apply_checks_the_template (serveLoads 1 olderTemplate) "/templates/older"
                olderTemplate schemaAndContent demoTarget)
      as (_ & Hrefused & _).
    destruct (Hrefused eq_refl) as (_ & _ & start & Hcalls).
    vm_compute. reflexivity.
Defined.

(** ** Applying the same template twice *)

Lemma fold_add_has (primaryKeyField : string) (response : list (gmap string JVal))
    (keys : JSet.t) (v : JVal) :
  JSet.has (fold_left (fun keys item => JSet.add keys (getProp item primaryKeyField))
                      response keys) v
  = JSet.has keys v
    || existsb (fun item => sameValueZero v (getProp item primaryKeyField)) response.
Proof.
  pose proof (keysOf_has primaryKeyField [response] keys v) as H.
  unfold keysOf in H. cbn [concat] in H. rewrite app_nil_r in H. exact H.
Qed.

Lemma pageEvents_S (name primaryKeyField : string) (page : Z) (n : nat) :
  pageEvents name primaryKeyField page (S n)
  = answered true (ReadItems name {| q_fields := Some [primaryKeyField];
                                     q_limit := 1000%Z; q_page := Some page |})
    ++ pageEvents name primaryKeyField (page + 1)%Z n.
Proof. reflexivity. Qed.

(** The loop against the reference instance: it reads the rows from the
    page it starts at to the last one, unless the rounds run out first. *)
Lemma run_pagination_target (s : Target.t) (name primaryKeyField : string)
    (rows : list (gmap string JVal)) (k : JSet.t -> Prog) :
  Target.items s !! name = Some rows ->
  forall (rounds : nat) (page : Z) (keys : JSet.t),
    (1 <= page)%Z ->
    let rest := drop ((Z.to_nat page - 1) * 1000) rows in
    ((1000 * rounds <= length rest)%nat ->
     run Target.handle
         (getExistingPrimaryKeys_from rounds name primaryKeyField keys page k) s
     = (Diverged, s, pageEvents name primaryKeyField page rounds))
    /\ ((length rest < 1000 * rounds)%nat ->
        exists n keys',
          run Target.handle
              (getExistingPrimaryKeys_from rounds name primaryKeyField keys page k) s
          = (let '(o, s', t) := run Target.handle (k keys') s in
             (o, s', pageEvents name primaryKeyField page n ++ t))
          /\ forall v, JSet.has keys' v
                       = JSet.has keys v || Target.hasKey primaryKeyField rest v).
Proof.
  intros Hrows rounds. induction rounds as [|rounds IH]; intros page keys Hpage rest.
  { split; [reflexivity | intros H; lia]. }
  assert (Hnext : drop ((Z.to_nat (page + 1) - 1) * 1000) rows = drop 1000 rest).
  { unfold rest. rewrite drop_drop. f_equal. lia. }
  destruct (IH (page + 1)%Z
              (fold_left (fun keys item => JSet.add keys (getProp item primaryKeyField))
                         (Target.project (Some [primaryKeyField]) <$> take 1000 rest)
                         keys)
              ltac:(lia)) as [IHdiverge IHfinish].
  rewrite Hnext in IHdiverge, IHfinish.
  assert (Hunfold :
    run Target.handle
        (getExistingPrimaryKeys_from (S rounds) name primaryKeyField keys page k) s
    = let response := Target.project (Some [primaryKeyField]) <$> take 1000 rest in
      let '(o, s', t) :=
        run Target.handle
          (if (length response =? 0)%nat then k keys
           else
             let keys1 :=
               fold_left (fun keys item => JSet.add keys (getProp item primaryKeyField))
                         response keys in
             if (Z.of_nat (length response) <? 1000)%Z then k keys1
             else getExistingPrimaryKeys_from rounds name primaryKeyField keys1
                    (page + 1)%Z k) s in
      (o, s', answered true
                (ReadItems name {| q_fields := Some [primaryKeyField];
                                   q_limit := 1000%Z; q_page := Some page |}) ++ t)).
  { cbn [getExistingPrimaryKeys_from]. unfold_M. cbn [run].
    rewrite (Target_handle_ReadItems s name _ rows Hrows).
    cbn [q_fields q_limit q_page]. rewrite Target_pageOf_1000. fold rest. cbv zeta.
    destruct (length (Target.project (Some [primaryKeyField]) <$> take 1000 rest) =? 0)%nat;
      [reflexivity|].
    destruct (Z.of_nat _ <? 1000)%Z; reflexivity. }
  rewrite Hunfold. clear Hunfold. cbv zeta.
  rewrite length_fmap, length_take.
  split.
  - intros Hlong.
    replace (length rest `min` 1000 =? 0)%nat with false
      by (symmetry; apply Nat.eqb_neq; lia).
    replace (Z.of_nat (1000 `min` length rest) <? 1000)%Z with false
      by (symmetry; apply Z.ltb_ge; lia).
    replace (1000 `min` length rest =? 0)%nat with false
      by (symmetry; apply Nat.eqb_neq; lia).
    rewrite IHdiverge by (rewrite length_drop; lia).
    rewrite pageEvents_S. reflexivity.
  - intros Hshort.
    destruct (1000 `min` length rest =? 0)%nat eqn:Hzero.
    + apply Nat.eqb_eq in Hzero.
      exists 1%nat, keys. split.
      * destruct (run Target.handle (k keys) s) as [[o s'] t]. reflexivity.
      * intros v. assert (rest = []) as -> by (apply nil_length_inv; lia).
        cbn. rewrite orb_false_r. reflexivity.
    + apply Nat.eqb_neq in Hzero.
      destruct (Z.of_nat (1000 `min` length rest) <? 1000)%Z eqn:Hlt.
      * apply Z.ltb_lt in Hlt.
        exists 1%nat,
          (fold_left (fun keys item => JSet.add keys (getProp item primaryKeyField))
                     (Target.project (Some [primaryKeyField]) <$> take 1000 rest)
                     keys).
        split.
        -- destruct (run Target.handle (k _) s) as [[o s'] t]. reflexivity.
        -- intros v. rewrite fold_add_has, hasKey_project.
           rewrite take_ge by lia. reflexivity.
      * apply Z.ltb_ge in Hlt.
        destruct IHfinish as (n & keys' & Hrun & Hhas);
          [rewrite length_drop; lia|].
        exists (S n), keys'. split.
        -- rewrite Hrun.
           destruct (run Target.handle (k keys') s) as [[o s'] t].
           rewrite pageEvents_S, <- app_assoc. reflexivity.
        -- intros v. rewrite Hhas, fold_add_has, hasKey_project.
           rewrite <- (take_drop 1000 rest) at 3. rewrite hasKey_app, orb_assoc.
           reflexivity.
Qed.

Lemma getProp_stripUserFields (entry : gmap string JVal) (key : string) :
  getProp (stripUserFields entry) key <> JUndef ->
  getProp (stripUserFields entry) key = getProp entry key.
Proof.
  destruct (stripUserFields_lookup entry) as (Hcreated & Hupdated & Hother).
  unfold getProp. intros Hdefined.
  destruct (decide (key = "user_created")) as [->|H1];
    [rewrite Hcreated in Hdefined; contradiction|].
  destruct (decide (key = "user_updated")) as [->|H2];
    [rewrite Hupdated in Hdefined; contradiction|].
  rewrite Hother by assumption. reflexivity.
Qed.

Lemma extends_hasKey (s s' : Target.t) (name primaryKeyField : string)
    (rows : list (gmap string JVal)) (v : JVal) :
  Target.extends s s' ->
  Target.items s !! name = Some rows ->
  Target.primary s !! name = Some primaryKeyField ->
  Target.hasKey primaryKeyField rows v = true ->
  exists rows', Target.items s' !! name = Some rows'
                /\ Target.hasKey primaryKeyField rows' v = true.
Proof.
  intros [_ _ Hitems _] Hrows Hprimary Hhas.
  destruct (Hitems name rows Hrows) as (rows' & Hrows' & Hkeys).
  exists rows'. split; [exact Hrows' | eapply Hkeys; eassumption].
Qed.

(** The items of the batches that the target has accepted in an update have
    their keys in the target. *)
Lemma runEach_updates_target (name : string)
    (batches : list (list (gmap string JVal))) :
  forall (index : nat -> nat) (s s' : Target.t) (t : list Event),
    runEach (run Target.handle)
      (imap (fun i batch => exec (uploadBatch name batch UpdateItemsBatch (index i)))
            batches) s
    = (Completed, s', t) ->
    Forall (fun item =>
              exists primaryKeyField rows',
                Target.primary s' !! name = Some primaryKeyField
                /\ Target.items s' !! name = Some rows'
                /\ getProp item primaryKeyField <> JUndef
                /\ Target.hasKey primaryKeyField rows' (getProp item primaryKeyField)
                   = true)
           (concat batches).
Proof.
  induction batches as [|batch batches IH]; intros index s s' t Hrun; [constructor|].
  cbn [imap runEach] in Hrun.
  destruct (run_upload Target.handle name UpdateItemsBatch batch (index 0%nat) s)
    as [failure Hupload].
  rewrite Hupload in Hrun. clear Hupload. cbn [Target.handle] in Hrun.
  destruct (Target.items s !! name) as [rows|] eqn:Hrows; [|discriminate].
  destruct (Target.primary s !! name) as [primaryKeyField|] eqn:Hprimary;
    [|discriminate].
  destruct (Target.updateRows primaryKeyField rows batch) as [rows1|] eqn:Hupdate;
    [|discriminate].
  pose proof (runEach_extends
                (imap ((fun i batch0 =>
                          exec (uploadBatch name batch0 UpdateItemsBatch (index i)))
                       ∘ Datatypes.S) batches)
                ltac:(apply Forall_forall; intros p _; apply run_extends)
                (Target.setItems s name rows1)) as Hextends.
  destruct (runEach (run Target.handle) _ (Target.setItems s name rows1))
    as [[o2 s2] t2] eqn:Hrest.
  cbn [fst snd] in Hextends.
  destruct o2; try discriminate. injection Hrun as <- <-.
  cbn [concat]. apply Forall_app. split.
  - apply updateRows_keys in Hupdate as [Hkeys Hbatch].
    eapply Forall_impl; [exact Hbatch|].
    intros item [Hdefined Hhas].
    destruct (extends_hasKey (Target.setItems s name rows1) s2 name primaryKeyField
                rows1 (getProp item primaryKeyField) Hextends)
      as (rows' & Hrows' & Hhas').
    + cbn. apply lookup_insert_eq.
    + exact Hprimary.
    + rewrite hasKey_keys in Hhas |- *. rewrite Hkeys. exact Hhas.
    + exists primaryKeyField, rows'.
      destruct Hextends as [_ Hp _ _]. cbn in Hp.
      split; [congruence | auto].
  - eapply (IH (index ∘ Datatypes.S)). exact Hrest.
Qed.

Lemma run_AwaitAll_completed {St : Type}
    (handle : St -> forall r : Request, Reply r * St)
    (ps : list Prog) (k : Prog) (s s' : St) (t : list Event) :
  run handle (AwaitAll ps k) s = (Completed, s', t) ->
  exists s1 t1 t2,
    runEach (run handle) ps s = (Completed, s1, t1)
    /\ run handle k s1 = (Completed, s', t2)
    /\ t = t1 ++ t2.
Proof.
  intros Hrun. cbn [run] in Hrun.
  destruct (headFailure (AwaitAll ps k)); [discriminate|].
  destruct (runEach (run handle) ps s) as [[o s1] t1] eqn:Heach.
  destruct o; try discriminate.
  destruct (run handle k s1) as [[o2 s2] t2] eqn:Hk.
  injection Hrun as -> -> <-. exists s1, t1, t2. repeat split; assumption.
Qed.

(** What the completion of a branch establishes, and a later state keeps,
    holds for every branch once they have all completed. *)
Lemma runEach_completed_each {A} (f : A -> Prog) (established : A -> Target.t -> Prop)
    (xs : list A) :
  (forall x s s' t,
     run Target.handle (f x) s = (Completed, s', t) -> established x s') ->
  (forall x s s', established x s -> Target.extends s s' -> established x s') ->
  forall s s' t,
    runEach (run Target.handle) (f <$> xs) s = (Completed, s', t) ->
    Forall (fun x => established x s') xs.
Proof.
  intros Hrun Hkeep. induction xs as [|x xs IH]; intros s s' t Heach; [constructor|].
  cbn [fmap list_fmap runEach] in Heach.
  destruct (run Target.handle (f x) s) as [[o s1] t1] eqn:Hx.
  destruct o; try discriminate.
  pose proof (runEach_extends (f <$> xs)
                ltac:(apply Forall_forall; intros p _; apply run_extends) s1)
    as Hextends.
  destruct (runEach (run Target.handle) (f <$> xs) s1) as [[o2 s2] t2] eqn:Hxs.
  cbn [fst snd] in Hextends. destruct o2; try discriminate.
  injection Heach as <- <-. constructor.
  - eapply Hkeep; [eapply Hrun; exact Hx | exact Hextends].
  - eapply IH. exact Hxs.
Qed.

(** A unit of the skeleton phase that completes has found rows in its
    content blob, a primary-key field for them, and the collection on the
    target. *)
Lemma skeletonRecordsOf_completed (rounds : nat) (dir : Template)
    (primaryKeyMap : PlainObject) (item : Collection)
    (s s' : Target.t) (t : list Event) (data : Content) :
  run Target.handle (exec (skeletonRecordsOf rounds dir primaryKeyMap item)) s
  = (Completed, s', t) ->
  readFile_allowMissing (collection item) dir = Some data ->
  exists entries primaryKeyField,
    data = Rows entries
    /\ primaryKeyMap !! collection item = Some primaryKeyField
    /\ primaryKeyField <> ""
    /\ is_Some (Target.items s !! collection item).
Proof.
  intros Hrun Hdata.
  destruct (from_option truthy false (primaryKeyMap !! collection item)) eqn:Hkey.
  2: { rewrite (skeletonRecordsOf_no_key _ _ _ _ _ Hdata Hkey) in Hrun. discriminate. }
  destruct (primaryKeyMap !! collection item) as [primaryKeyField|] eqn:Hfound;
    [|discriminate].
  cbn [from_option] in Hkey.
  assert (Hne : primaryKeyField <> "").
  { intros ->. discriminate. }
  unfold exec, skeletonRecordsOf in Hrun. rewrite Hdata in Hrun.
  unfold getPrimaryKey in Hrun. unfold_M. rewrite Hfound in Hrun.
  cbn [from_option default id] in Hrun. rewrite Hkey in Hrun. cbn [negb] in Hrun.
  unfold getExistingPrimaryKeys in Hrun.
  destruct (Target.items s !! collection item) as [rows|] eqn:Hrows.
  - match type of Hrun with
    | run _ (getExistingPrimaryKeys_from _ _ _ _ _ ?k) _ = _ =>
        destruct (run_pagination_target s (collection item) primaryKeyField rows k
                    Hrows rounds 1%Z JSet.empty ltac:(lia)) as [Hdiverge Hfinish]
    end.
    cbv zeta in Hdiverge, Hfinish.
    destruct (Nat.le_gt_cases (1000 * rounds)
                (length (drop ((Z.to_nat 1 - 1) * 1000) rows))) as [Hlong|Hshort].
    + rewrite (Hdiverge Hlong) in Hrun. discriminate.
    + destruct (Hfinish Hshort) as (n & keys' & Hrun' & _).
      rewrite Hrun' in Hrun.
      destruct data as [entries|row].
      * exists entries, primaryKeyField. eauto.
      * cbn [run] in Hrun. discriminate.
  - destruct rounds as [|rounds]; [discriminate|].
    cbn [getExistingPrimaryKeys_from] in Hrun. unfold_M. cbn [run] in Hrun.
    cbn [Target.handle] in Hrun. rewrite Hrows in Hrun. cbn [run] in Hrun.
    discriminate.
Qed.

(** A unit of the full-data phase that completes has found, for every row of
    its content blob, a row of the target with the same key. *)
Lemma fullDataOf_completed (dir : Template) (item : Collection)
    (s s' : Target.t) (t : list Event) (entries : list (gmap string JVal)) :
  run Target.handle (exec (fullDataOf dir item)) s = (Completed, s', t) ->
  readFile_allowMissing (collection item) dir = Some (Rows entries) ->
  Forall (fun entry =>
            exists primaryKeyField rows',
              Target.primary s' !! collection item = Some primaryKeyField
              /\ Target.items s' !! collection item = Some rows'
              /\ Target.hasKey primaryKeyField rows' (getProp entry primaryKeyField)
                 = true)
         entries.
Proof.
  intros Hrun Hdata. unfold exec at 1 in Hrun. unfold fullDataOf in Hrun.
  rewrite Hdata in Hrun. cbv zeta in Hrun. unfold promiseAll in Hrun.
  apply run_AwaitAll_completed in Hrun as (s1 & t1 & t2 & Heach & Hstop & _).
  cbn [run] in Hstop. injection Hstop as <- _.
  apply (runEach_updates_target (collection item) _ id) in Heach.
  rewrite concat_fmap_fmap, chunkArray_concat in Heach by (unfold BATCH_SIZE; lia).
  rewrite Forall_fmap in Heach.
  eapply Forall_impl; [exact Heach|].
  intros entry (primaryKeyField & rows' & Hprimary & Hrows & Hdefined & Hhas).
  exists primaryKeyField, rows'. split; [exact Hprimary|]. split; [exact Hrows|].
  rewrite <- (getProp_stripUserFields entry primaryKeyField Hdefined). exact Hhas.
Qed.

Lemma pageRequests_reads (name primaryKeyField : string) (n : nat) (page : Z) :
  Forall (fun r => isReadItems r = true) (pageRequests name primaryKeyField page n).
Proof.
  revert page. induction n as [|n IH]; intros page; constructor;
    [reflexivity | apply IH].
Qed.

(** When the target has the keys of the content of a collection, the unit of
    the skeleton phase only reads: the difference is empty. *)
Lemma skeletonRecordsOf_covered (rounds : nat) (dir : Template)
    (primaryKeyMap : PlainObject) (s : Target.t) (item : Collection) :
  covered dir primaryKeyMap s item ->
  exists o t,
    run Target.handle (exec (skeletonRecordsOf rounds dir primaryKeyMap item)) s
    = (o, s, t)
    /\ Forall (fun r => isReadItems r = true) (requestsOf t)
    /\ (enoughRounds s rounds -> o = Completed).
Proof.
  intros Hcovered.
  destruct (readFile_allowMissing (collection item) dir) as [data|] eqn:Hdata.
  2: { rewrite (skeletonRecordsOf_skipped _ _ _ _ Hdata).
       exists Completed, []. repeat split. constructor. }
  destruct (Hcovered data Hdata)
    as (entries & primaryKeyField & rows & -> & Hkey & Hne & Hrows & Hall).
  unfold exec, skeletonRecordsOf. rewrite Hdata.
  unfold getPrimaryKey. unfold_M. rewrite Hkey. cbn [from_option default id].
  replace (truthy primaryKeyField) with true
    by (symmetry; unfold truthy; apply negb_true_iff, String.eqb_neq; exact Hne).
  cbn [negb]. unfold getExistingPrimaryKeys.
  match goal with
  | |- context [run _ (getExistingPrimaryKeys_from _ _ _ _ _ ?k) _] =>
      destruct (run_pagination_target s (collection item) primaryKeyField rows k
                  Hrows rounds 1%Z JSet.empty ltac:(lia)) as [Hdiverge Hfinish]
  end.
  cbv zeta in Hdiverge, Hfinish.
  change (drop ((Z.to_nat 1 - 1) * 1000) rows) with rows in Hdiverge, Hfinish.
  destruct (Nat.le_gt_cases (1000 * rounds) (length rows)) as [Hlong|Hshort].
  - rewrite (Hdiverge Hlong). exists Diverged, (pageEvents (collection item) primaryKeyField 1%Z rounds).
    split; [reflexivity|]. split.
    + rewrite requestsOf_pageEvents. apply pageRequests_reads.
    + intros Henough. specialize (Henough _ _ Hrows). lia.
  - destruct (Hfinish Hshort) as (n & keys' & Hrun & Hhas). rewrite Hrun.
    replace (List.filter
               (fun entry => negb (JSet.has keys' (getProp entry primaryKeyField)))
               entries) with (@nil (gmap string JVal)).
    + cbn [length Nat.eqb run].
      exists Completed, (pageEvents (collection item) primaryKeyField 1%Z n ++ []).
      split; [reflexivity|]. split; [|reflexivity].
      rewrite app_nil_r, requestsOf_pageEvents. apply pageRequests_reads.
    + symmetry. clear - Hall Hhas. induction Hall as [|entry entries Hentry _ IH];
        [reflexivity|].
      cbn [List.filter]. rewrite Hhas, (proj2 Hentry). cbn. exact IH.
Qed.

Lemma covered_not_lacksKey (dir : Template) (primaryKeyMap : PlainObject)
    (s : Target.t) (item : Collection) :
  covered dir primaryKeyMap s item -> lacksKey dir primaryKeyMap item = false.
Proof.
  intros Hcovered. unfold lacksKey.
  destruct (readFile_allowMissing (collection item) dir) as [data|] eqn:Hdata.
  - destruct (Hcovered data Hdata)
      as (entries & primaryKeyField & rows & _ & Hkey & Hne & _).
    rewrite Hkey. cbn [from_option].
    replace (truthy primaryKeyField) with true
      by (symmetry; unfold truthy; apply negb_true_iff, String.eqb_neq; exact Hne).
    apply andb_false_r.
  - rewrite bool_decide_eq_false_2 by (intros [? ?]; discriminate). reflexivity.
Qed.

Lemma runEach_skeleton_covered (rounds : nat) (dir : Template)
    (primaryKeyMap : PlainObject) (s : Target.t)
    (userCollections : list Collection) :
  Forall (covered dir primaryKeyMap s) userCollections ->
  exists o t,
    runEach (run Target.handle)
      ((fun item => exec (skeletonRecordsOf rounds dir primaryKeyMap item))
         <$> userCollections) s
    = (o, s, t)
    /\ Forall (fun r => isReadItems r = true) (requestsOf t)
    /\ (enoughRounds s rounds -> o = Completed).
Proof.
  induction 1 as [|item userCollections Hitem _ IH].
  - exists Completed, []. repeat split. constructor.
  - cbn [fmap list_fmap runEach].
    destruct (skeletonRecordsOf_covered rounds dir primaryKeyMap s item Hitem)
      as (o1 & t1 & -> & Hreads1 & Hdone1).
    destruct IH as (o2 & t2 & Hrest & Hreads2 & Hdone2).
    destruct o1.
    + rewrite Hrest. exists o2, (t1 ++ t2). split; [reflexivity|].
      rewrite requestsOf_app. split; [apply Forall_app; split; assumption | exact Hdone2].
    + exists (Failed f), t1. repeat split; [exact Hreads1 | exact Hdone1].
    + exists Diverged, t1. repeat split; [exact Hreads1 | exact Hdone1].
Qed.

Lemma run_uses {St : Type} (handle : St -> forall r : Request, Reply r * St)
    (R : Request -> Prop) (p : Prog) (s : St) :
  uses R p -> Forall R (requestsOf (run handle p s).2).
Proof.
  intros Huses. destruct (run_steps handle p s) as (c & Hsteps & _).
  destruct (steps_cuses R _ _ _ Hsteps Huses) as [_ Hall]. clear Hsteps.
  induction Hall as [|ev t Hev _ IH]; [constructor|].
  destruct ev as [r|r accepted]; unfold requestsOf; cbn [omap list_omap];
    [|exact IH].
  constructor; [apply Hev; reflexivity | exact IH].
Qed.

Lemma covered_extends (dir : Template) (primaryKeyMap : PlainObject)
    (s s' : Target.t) (item : Collection) :
  covered dir primaryKeyMap s item -> Target.extends s s' ->
  covered dir primaryKeyMap s' item.
Proof.
  intros Hcovered Hextends data Hdata.
  destruct (Hcovered data Hdata)
    as (entries & primaryKeyField & rows & -> & Hkey & Hne & Hrows & Hall).
  destruct (Target.extends_items _ _ Hextends _ _ Hrows) as (rows' & Hrows' & Hkeep).
  exists entries, primaryKeyField, rows'. repeat split; try assumption.
  eapply Forall_impl; [exact Hall|]. intros entry [Hprimary Hentry].
  rewrite (Target.extends_primary _ _ Hextends).
  split; [exact Hprimary | apply Hkeep; assumption].
Qed.

Lemma run_result_extends (p : Prog) (s s' : Target.t) (o : Outcome)
    (t : list Event) :
  run Target.handle p s = (o, s', t) -> Target.extends s s'.
Proof.
  intros Hrun. pose proof (run_extends p s) as H. rewrite Hrun in H. exact H.
Qed.

Lemma runEach_result_extends (ps : list Prog) (s s' : Target.t) (o : Outcome)
    (t : list Event) :
  runEach (run Target.handle) ps s = (o, s', t) -> Target.extends s s'.
Proof.
  intros Hrun.
  pose proof (runEach_extends ps
                ltac:(apply Forall_forall; intros p _; apply run_extends) s) as H.
  rewrite Hrun in H. exact H.
Qed.

(** A run of [loadData] that completes leaves the target with the key of
    every record of every collection that the content phases go through. *)
Lemma loadData_completed_covered (rounds : nat) (dir : Template)
    (s0 s1 : Target.t) (t1 : list Event) :
  run Target.handle (exec (loadData rounds dir)) s0 = (Completed, s1, t1) ->
  exists collections fields userCollections,
    blob_collections dir = Some collections
    /\ blob_fields dir = Some fields
    /\ userCollectionsIn collections
         (list_to_set (collection <$> Target.collections s0))
       = Some userCollections
    /\ Target.extends s0 s1
    /\ (sameKeys (primaryKeysOf fields) s0 ->
        Forall (covered dir (primaryKeysOf fields) s1) userCollections).
Proof.
  intros Hrun.
  pose proof (run_extends (exec (loadData rounds dir)) s0) as Hextends.
  rewrite Hrun in Hextends. cbn [fst snd] in Hextends.
  unfold exec, loadData, loadSkeletonRecords, loadFullData, getCollectionPrimaryKeys,
    getTargetCollectionNames, readFile in Hrun.
  destruct (blob_collections dir) as [collections|] eqn:Hcollections;
    [|discriminate].
  unfold_M. cbn [run Target.handle] in Hrun.
  destruct (blob_fields dir) as [fields|] eqn:Hfields.
  2: discriminate.
  assert (exists userCollections,
             userCollectionsIn collections
               (list_to_set (collection <$> Target.collections s0))
             = Some userCollections
             /\ forall k, userCollectionsOf collections
                            (list_to_set (collection <$> Target.collections s0)) k
                          = k userCollections)
    as (userCollections & Hchain & Hof).
  { unfold userCollectionsIn, userCollectionsOf in *.
    destruct (filter_throwing _ _) as [step3|]; [|discriminate].
    eexists. split; reflexivity. }
  rewrite !Hof in Hrun.
  match type of Hrun with
  | context [run Target.handle ?p s0] =>
      destruct (run Target.handle p s0) as [[o s] t] eqn:Hskeleton
  end.
  injection Hrun as -> -> _.
  apply run_AwaitAll_completed in Hskeleton as (sA & tA & tA' & Hunits & Hfull & _).
  apply run_AwaitAll_completed in Hfull as (sB & tB & tB' & Hupdates & Hsingle & _).
  exists collections, fields, userCollections.
  do 4 (split; [reflexivity || assumption|]).
  intros Hsame.
  pose proof (runEach_result_extends _ _ _ _ _ Hunits) as H0A.
  pose proof (runEach_result_extends _ _ _ _ _ Hupdates) as HAB.
  pose proof (run_result_extends _ _ _ _ _ Hsingle) as HB1.
  apply (runEach_completed_each
           (fun item => exec (skeletonRecordsOf rounds dir (primaryKeysOf fields) item))
           (fun item s =>
              forall data,
                readFile_allowMissing (collection item) dir = Some data ->
                exists entries primaryKeyField,
                  data = Rows entries
                  /\ primaryKeysOf fields !! collection item = Some primaryKeyField
                  /\ primaryKeyField <> ""
                  /\ is_Some (Target.items s !! collection item)))
    in Hunits.
  2: { intros item s s' t' Hitem data Hdata.
       destruct (skeletonRecordsOf_completed _ _ _ _ _ _ _ _ Hitem Hdata)
         as (entries & primaryKeyField & -> & Hkey & Hne & [rows Hrows]).
       exists entries, primaryKeyField. repeat split; try assumption.
       pose proof (run_result_extends _ _ _ _ _ Hitem) as H.
       destruct (Target.extends_items _ _ H _ _ Hrows) as (rows' & -> & _).
       eexists; reflexivity. }
  2: { intros item s s' Hitem Hext data Hdata.
       destruct (Hitem data Hdata)
         as (entries & primaryKeyField & -> & Hkey & Hne & [rows Hrows]).
       exists entries, primaryKeyField. repeat split; try assumption.
       destruct (Target.extends_items _ _ Hext _ _ Hrows) as (rows' & -> & _).
       eexists; reflexivity. }
  apply (runEach_completed_each
           (fun item => exec (fullDataOf dir item))
           (fun item s =>
              forall entries,
                readFile_allowMissing (collection item) dir = Some (Rows entries) ->
                Forall (fun entry =>
                          exists primaryKeyField rows',
                            Target.primary s !! collection item = Some primaryKeyField
                            /\ Target.items s !! collection item = Some rows'
                            /\ Target.hasKey primaryKeyField rows'
                                 (getProp entry primaryKeyField) = true)
                       entries))
    in Hupdates.
  2: { intros item s s' t' Hitem entries Hdata.
       exact (fullDataOf_completed _ _ _ _ _ _ Hitem Hdata). }
  2: { intros item s s' Hitem Hext entries Hdata.
       eapply Forall_impl; [exact (Hitem entries Hdata)|].
       intros entry (primaryKeyField & rows & Hprimary & Hrows & Hhas).
       destruct (extends_hasKey _ _ _ _ _ _ Hext Hrows Hprimary Hhas)
         as (rows' & Hrows' & Hhas').
       exists primaryKeyField, rows'.
       rewrite (Target.extends_primary _ _ Hext). auto. }
  apply Forall_forall. intros item Hin.
  rewrite Forall_forall in Hunits, Hupdates.
  apply (covered_extends _ _ sB); [|exact HB1].
  intros data Hdata.
  destruct (Hunits item Hin data Hdata)
    as (entries & primaryKeyField & -> & Hkey & Hne & [rowsA HrowsA]).
  destruct (Target.extends_items _ _ HAB _ _ HrowsA) as (rows & Hrows & _).
  exists entries, primaryKeyField, rows. repeat split; try assumption.
  eapply Forall_impl; [exact (Hupdates item Hin entries Hdata)|].
  intros entry (primaryKeyField' & rows' & Hprimary & Hrows' & Hhas).
  rewrite Hrows in Hrows'. injection Hrows' as <-.
  assert (primaryKeyField' = primaryKeyField) as ->.
  { apply (Hsame (collection item)); [exact Hkey|].
    rewrite <- (Target.extends_primary _ _ H0A),
            <- (Target.extends_primary _ _ HAB). exact Hprimary. }
  split; assumption.
Qed.

Lemma find_lacksKey_covered (dir : Template) (primaryKeyMap : PlainObject)
    (s : Target.t) (userCollections : list Collection) :
  Forall (covered dir primaryKeyMap s) userCollections ->
  List.find (lacksKey dir primaryKeyMap) userCollections = None.
Proof.
  induction 1 as [|item userCollections Hitem _ IH]; [reflexivity|].
  cbn [List.find]. rewrite (covered_not_lacksKey _ _ _ _ Hitem). exact IH.
Qed.

(** The skeleton phase on a target that has every key only reads, and leaves
    the target as it is. *)
Lemma loadSkeletonRecords_covered (rounds : nat) (dir : Template) (s : Target.t)
    (collections : list Collection) (fields : list Field)
    (targetCollections : gset string) (userCollections : list Collection)
    (k : unit -> Prog) :
  blob_collections dir = Some collections ->
  blob_fields dir = Some fields ->
  userCollectionsIn collections targetCollections = Some userCollections ->
  Forall (covered dir (primaryKeysOf fields) s) userCollections ->
  exists o t,
    runEach (run Target.handle)
      ((fun item => exec (skeletonRecordsOf rounds dir (primaryKeysOf fields) item))
         <$> userCollections) s
    = (o, s, t)
    /\ Forall (fun r => isReadItems r = true) (requestsOf t)
    /\ (enoughRounds s rounds -> o = Completed)
    /\ run Target.handle (loadSkeletonRecords rounds dir targetCollections k) s
       = match o with
         | Completed => let '(o2, s2, t2) := run Target.handle (k tt) s in
                        (o2, s2, t ++ t2)
         | _ => (o, s, t)
         end.
Proof.
  intros Hcollections Hfields Hchain Hcovered.
  destruct (runEach_skeleton_covered rounds dir _ s userCollections Hcovered)
    as (o & t & Heach & Hreads & Hdone).
  exists o, t. do 3 (split; [assumption|]).
  unfold loadSkeletonRecords, getCollectionPrimaryKeys, readFile.
  rewrite Hcollections, Hfields. unfold_M.
  replace (userCollectionsOf collections targetCollections)
    with (fun k : list Collection -> Prog => k userCollections).
  2: { unfold userCollectionsIn, userCollectionsOf in *.
       destruct (filter_throwing _ _) as [step3|]; [|discriminate].
       injection Hchain as <-. reflexivity. }
  cbv beta. cbn [run].
  pose proof (headFailure_skeleton_units rounds dir (primaryKeysOf fields)
                userCollections (k tt)) as Hhead.
  rewrite (find_lacksKey_covered _ _ _ _ Hcovered) in Hhead.
  unfold exec in Hhead, Heach. rewrite Hhead.
  cbn [fmap option_fmap option_map]. rewrite Heach. reflexivity.
Qed.

(** A run of [loadData] on a target that has every key asks for no record to
    be created. *)
Lemma loadData_covered (rounds : nat) (dir : Template) (s : Target.t)
    (collections : list Collection) (fields : list Field)
    (userCollections : list Collection) :
  blob_collections dir = Some collections ->
  blob_fields dir = Some fields ->
  userCollectionsIn collections (list_to_set (collection <$> Target.collections s))
  = Some userCollections ->
  Forall (covered dir (primaryKeysOf fields) s) userCollections ->
  Forall (fun r => isCreateItems r = false)
         (requestsOf (run Target.handle (exec (loadData rounds dir)) s).2).
Proof.
  intros Hcollections Hfields Hchain Hcovered.
  unfold exec, loadData, getTargetCollectionNames.
  unfold readFile at 1. rewrite Hcollections. unfold_M.
  cbn [run Target.handle].
  match goal with
  | |- context [run Target.handle (loadSkeletonRecords _ _ ?tc ?k) s] =>
      destruct (loadSkeletonRecords_covered rounds dir s collections fields tc
                  userCollections k Hcollections Hfields Hchain Hcovered)
        as (o & t & _ & Hreads & _ & ->);
      pose proof (run_uses Target.handle (fun r => isCreateItems r = false) (k tt) s)
        as Hrest
  end.
  cbv beta in Hrest.
  assert (Forall (fun r => isCreateItems r = false) (requestsOf t)) as Ht.
  { eapply Forall_impl; [exact Hreads|]. intros [] Hr; try discriminate; reflexivity. }
  match type of Hrest with
  | _ -> Forall _ (requestsOf (run _ ?p s).2) =>
      destruct (run Target.handle p s) as [[o2 s2] t2]
  end.
  cbn [snd] in Hrest.
  assert (Forall (fun r => isCreateItems r = false) (requestsOf t2)) as Ht2.
  { apply Hrest. apply uses_loadFullData.
    - intros [] Hr; try contradiction; reflexivity.
    - apply uses_loadSingletons. intros [] Hr; try contradiction; reflexivity. }
  destruct o; cbn [snd]; unfold requestsOf; cbn [omap list_omap];
    (constructor; [reflexivity|]); try exact Ht.
  fold (requestsOf (t ++ t2)). rewrite requestsOf_app. apply Forall_app. split; assumption.
Qed.

(** ** Relations on the reference target *)

Lemma relationKey_cleared (relation : Relation) :
  relationKey (cleared relation) = relationKey relation.
Proof. reflexivity. Qed.

Lemma alreadyExists_elem (existingRelations : list Relation) (relation : Relation) :
  alreadyExists existingRelations relation = true
  <-> exists existing,
        existing ∈ existingRelations /\ relationKey existing = relationKey relation.
Proof.
  unfold alreadyExists. rewrite existsb_exists. split.
  - intros (existing & Hin & Hkey). exists existing.
    split; [apply list_elem_of_In, Hin | apply String.eqb_eq, Hkey].
  - intros (existing & Hin & Hkey). exists existing.
    split; [apply list_elem_of_In, Hin | apply String.eqb_eq, Hkey].
Qed.

Lemma alreadyExists_extends (s s' : Target.t) (relation : Relation) :
  Target.extends s s' ->
  alreadyExists (Target.relations s) relation = true ->
  alreadyExists (Target.relations s') relation = true.
Proof.
  intros Hextends. rewrite !alreadyExists_elem.
  intros (existing & Hin & Hkey).
  destruct (Target.extends_relations _ _ Hextends _ Hin) as (existing' & Hin' & Hkey').
  exists existing'. split; [exact Hin' | congruence].
Qed.

(** The target accepts every relation and appends it. *)
Lemma run_addRelations_target (relations : list Relation) :
  forall s : Target.t,
  exists s' t,
    run Target.handle (addRelations relations (fun _ => Stop)) s = (Completed, s', t)
    /\ Target.relations s' = Target.relations s ++ relations.
Proof.
  induction relations as [|relation relations IH]; intros s.
  - exists s, []. split; [reflexivity | symmetry; apply app_nil_r].
  - cbn [addRelations]. unfold_M. cbn [run Target.handle].
    match goal with
    | |- context [run Target.handle (addRelations relations _) ?s1] =>
        destruct (IH s1) as (s' & t & Hrun & Hrelations)
    end.
    rewrite Hrun. eexists _, _. split; [reflexivity|].
    rewrite Hrelations. cbn [Target.relations]. rewrite <- app_assoc. reflexivity.
Qed.

(** After a run of [loadRelations] that completes, every relation of the
    blob that it considers exists on the target. *)
Lemma loadRelations_completed (dir : Template) (s0 s1 : Target.t) (t1 : list Event) :
  run Target.handle (exec (loadRelations dir)) s0 = (Completed, s1, t1) ->
  exists allRelations collections,
    blob_relations dir = Some allRelations
    /\ blob_collections dir = Some collections
    /\ Forall (fun relation => alreadyExists (Target.relations s1) relation = true)
              (loadableRelations collections allRelations).
Proof.
  intros Hrun. unfold exec, loadRelations, readFile in Hrun.
  destruct (blob_relations dir) as [allRelations|]; [|discriminate].
  destruct (blob_collections dir) as [collections|]; [|discriminate].
  exists allRelations, collections. do 2 (split; [reflexivity|]).
  unfold_M. cbv zeta in Hrun.
  fold (loadableRelations collections allRelations) in Hrun.
  destruct (0 <? length (loadableRelations collections allRelations))%nat eqn:Hlen.
  2: { apply Nat.ltb_ge in Hlen.
       destruct (loadableRelations collections allRelations); [constructor|].
       cbn in Hlen. lia. }
  cbn [run Target.handle] in Hrun.
  rewrite relationsToAddOf_spec, mapM_cleanRelation in Hrun.
  destruct (forallb _ _); [|discriminate Hrun].
  match type of Hrun with
  | context [run Target.handle (addRelations ?toAdd _) s0] =>
      destruct (run_addRelations_target toAdd s0) as (s' & t & Hadd & Hrelations)
  end.
  rewrite Hadd in Hrun. injection Hrun as <- _.
  apply Forall_forall. intros relation Hin. rewrite Hrelations.
  apply alreadyExists_elem.
  destruct (alreadyExists (Target.relations s0) relation) eqn:Hexists.
  - apply alreadyExists_elem in Hexists as (existing & Hexisting & Hkey).
    exists existing. split; [apply elem_of_app; left; exact Hexisting | exact Hkey].
  - exists (cleared relation). split; [|apply relationKey_cleared].
    apply elem_of_app. right. apply list_elem_of_fmap. exists relation.
    split; [reflexivity|]. apply list_elem_of_In, filter_In.
    split; [apply list_elem_of_In, Hin | rewrite Hexists; reflexivity].
Qed.

(** When every relation that [loadRelations] considers exists on the target,
    it creates none. *)
Lemma loadRelations_existing (dir : Template) (s : Target.t)
    (allRelations : list Relation) (collections : list Collection) :
  blob_relations dir = Some allRelations ->
  blob_collections dir = Some collections ->
  Forall (fun relation => alreadyExists (Target.relations s) relation = true)
         (loadableRelations collections allRelations) ->
  relationsToAddOf (loadableRelations collections allRelations) (Target.relations s)
  = Some []
  /\ exists t,
       run Target.handle (exec (loadRelations dir)) s = (Completed, s, t)
       /\ Forall (fun r => isCreateRelation r = false) (requestsOf t).
Proof.
  intros Hrelations Hcollections Hall.
  assert (relationsToAddOf (loadableRelations collections allRelations)
            (Target.relations s) = Some []) as Hnone.
  { rewrite relationsToAddOf_spec.
    replace (List.filter _ (loadableRelations collections allRelations))
      with (@nil Relation); [reflexivity|].
    induction Hall as [|relation relations Hexists _ IH]; [reflexivity|].
    cbn [List.filter]. rewrite Hexists. exact IH. }
  split; [exact Hnone|].
  unfold exec, loadRelations, readFile. rewrite Hrelations, Hcollections.
  unfold_M. cbv zeta. fold (loadableRelations collections allRelations).
  destruct (0 <? length (loadableRelations collections allRelations))%nat.
  - cbn [run Target.handle]. rewrite Hnone. cbn [addRelations run].
    eexists. split; [reflexivity|]. repeat constructor.
  - exists []. split; [reflexivity | constructor].
Qed.

Lemma covered_difference (dir : Template) (primaryKeyMap : PlainObject)
    (s : Target.t) (item : Collection) (entries rows : list (gmap string JVal))
    (primaryKeyField : string) :
  covered dir primaryKeyMap s item ->
  readFile_allowMissing (collection item) dir = Some (Rows entries) ->
  primaryKeyMap !! collection item = Some primaryKeyField ->
  Target.items s !! collection item = Some rows ->
  skeletonBatches primaryKeyField
    (keysOf primaryKeyField JSet.empty
       [Target.project (Some [primaryKeyField]) <$> rows])
    entries
  = [].
Proof.
  intros Hcovered Hdata Hkey Hrows.
  destruct (Hcovered _ Hdata)
    as (entries' & primaryKeyField' & rows' & [= <-] & Hkey' & _ & Hrows' & Hall).
  rewrite Hkey in Hkey'. injection Hkey' as <-.
  rewrite Hrows in Hrows'. injection Hrows' as <-.
  unfold skeletonBatches.
  replace (List.filter _ entries) with (@nil (gmap string JVal)); [reflexivity|].
  symmetry. clear - Hall.
  induction Hall as [|entry entries [_ Hentry] _ IH]; [reflexivity|].
  cbn [List.filter]. rewrite keysOf_has. cbn [concat]. rewrite app_nil_r.
  rewrite hasKey_project, Hentry. cbn. exact IH.
Qed.

Lemma PlainObject_lookup_union (o : PlainObject) (name : string) :
  o !! name = (ownProperties o ∪ objectPrototype) !! name.
Proof.
  unfold lookup at 1, PlainObject_lookup.
  destruct (ownProperties o !! name) as [v|] eqn:Hown.
  - symmetry. apply lookup_union_Some_l, Hown.
  - symmetry. rewrite lookup_union_r by exact Hown. reflexivity.
Qed.

Lemma sameKeys_decide (primaryKeyMap : PlainObject) (s : Target.t) :
  map_Forall (fun name primaryKeyField =>
                default primaryKeyField (Target.primary s !! name) = primaryKeyField)
             (ownProperties primaryKeyMap ∪ objectPrototype) ->
  sameKeys primaryKeyMap s.
Proof.
  intros Hall name primaryKeyField primaryKeyField' Hkey Hprimary.
  rewrite PlainObject_lookup_union in Hkey.
  specialize (Hall name primaryKeyField Hkey). cbn beta in Hall.
  rewrite Hprimary in Hall. exact Hall.
Qed.

(** C3.  Take a run of [loadRelations] and a run of [loadData] on the
    reference target that complete, with a template whose primary-key fields
    are those of the target.  Then on any later state of the target (one that
    has kept the keys, the relations and the collections), [loadRelations]
    finds no relation to add and asks for none to be created, and [loadData]
    asks for no item to be created: every collection of its filter chain has
    all its keys on the target, the difference that the skeleton phase
    computes is empty, and the skeleton phase only reads and leaves the
    target as it is. *)
Theorem second_apply_creates_nothing (rounds : nat) (dir : Template)
    (r0 r1 s0 s1 : Target.t) (tr t1 : list Event) :
  run Target.handle (exec (loadRelations dir)) r0 = (Completed, r1, tr) ->
  run Target.handle (exec (loadData rounds dir)) s0 = (Completed, s1, t1) ->
  (forall fields,
     blob_fields dir = Some fields -> sameKeys (primaryKeysOf fields) s0) ->
  (forall r,
     Target.extends r1 r ->
     exists allRelations collections,
       blob_relations dir = Some allRelations
       /\ blob_collections dir = Some collections
       /\ relationsToAddOf (loadableRelations collections allRelations)
            (Target.relations r) = Some []
       /\ exists t,
            run Target.handle (exec (loadRelations dir)) r = (Completed, r, t)
            /\ Forall (fun q => isCreateRelation q = false) (requestsOf t))
  /\ (forall s rounds2,
        Target.extends s1 s ->
        exists collections fields userCollections,
          let targetCollections : gset string :=
            list_to_set (collection <$> Target.collections s) in
          blob_collections dir = Some collections
          /\ blob_fields dir = Some fields
          /\ userCollectionsIn collections targetCollections = Some userCollections
          /\ Forall (covered dir (primaryKeysOf fields) s) userCollections
          /\ (forall item entries rows primaryKeyField,
                item ∈ userCollections ->
                readFile_allowMissing (collection item) dir = Some (Rows entries) ->
                primaryKeysOf fields !! collection item = Some primaryKeyField ->
                Target.items s !! collection item = Some rows ->
                skeletonBatches primaryKeyField
                  (keysOf primaryKeyField JSet.empty
                     [Target.project (Some [primaryKeyField]) <$> rows])
                  entries
                = [])
          /\ Forall (fun q => isCreateItems q = false)
                    (requestsOf
                       (run Target.handle (exec (loadData rounds2 dir)) s).2)
          /\ exists o t,
               run Target.handle
                 (exec (loadSkeletonRecords rounds2 dir targetCollections)) s
               = (o, s, t)
               /\ Forall (fun q => isReadItems q = true) (requestsOf t)
               /\ (enoughRounds s rounds2 -> o = Completed)).
Proof.
  intros Hrelations Hdata Hsame. split.
  - intros r Hextends.
    destruct (loadRelations_completed dir r0 r1 tr Hrelations)
      as (allRelations & collections & Hblob1 & Hblob2 & Hall).
    exists allRelations, collections. do 2 (split; [assumption|]).
    apply loadRelations_existing; try assumption.
    eapply Forall_impl; [exact Hall|]. intros relation.
    apply alreadyExists_extends, Hextends.
  - intros s rounds2 Hextends.
    destruct (loadData_completed_covered rounds dir s0 s1 t1 Hdata)
      as (collections & fields & userCollections & Hblob1 & Hblob2 & Hchain & H01
          & Hcovered).
    specialize (Hcovered (Hsame fields Hblob2)).
    exists collections, fields, userCollections. cbv zeta.
    assert (Target.collections s = Target.collections s0) as Hsamecollections.
    { rewrite (Target.extends_collections _ _ Hextends).
      apply (Target.extends_collections _ _ H01). }
    rewrite Hsamecollections.
    assert (Forall (covered dir (primaryKeysOf fields) s) userCollections) as Hs.
    { eapply Forall_impl; [exact Hcovered|]. intros item Hitem.
      exact (covered_extends _ _ _ _ _ Hitem Hextends). }
    do 4 (split; [assumption|]).
    split; [|split].
    + intros item entries rows primaryKeyField Hin.
      rewrite Forall_forall in Hs. apply covered_difference, Hs, Hin.
    + rewrite <- Hsamecollections in Hchain.
      exact (loadData_covered rounds2 dir s collections fields userCollections
               Hblob1 Hblob2 Hchain Hs).
    + destruct (loadSkeletonRecords_covered rounds2 dir s collections fields
                  (list_to_set (collection <$> Target.collections s0))
                  userCollections (fun _ => Stop) Hblob1 Hblob2 Hchain Hs)
        as (o & t & _ & Hreads & Hdone & Hrun).
      exists o, t. unfold exec. rewrite Hrun.
      destruct o; cbn [run]; rewrite ?app_nil_r; auto.
Qed.

(** ** The properties at work on the small template *)

Example demo_run :
  run Target.handle (exec (loadData 1 demoTemplate)) demoTarget
  = (Completed,
     (run Target.handle (exec (loadData 1 demoTemplate)) demoTarget).1.2,
     answered true ReadCollections ++ answered true demoReadItems
     ++ answered true demoCreate ++ answered true demoUpdate
     ++ answered true demoSingleton).
Proof. vm_compute. reflexivity. Qed.

Lemma loadData_phase_barrier_witness :
  let t1 := answered true ReadCollections ++ answered true demoReadItems
            ++ answered true demoCreate in
  issuedIn isCreateItems t1 = settledIn isCreateItems t1
  /\ issuedIn isReadItems t1 = settledIn isReadItems t1
  /\ Forall (fun ev => forall r', ev = Issued r' -> isCreateItems r' = false)
            (Settled demoUpdate true :: answered true demoSingleton).
Proof.
  destruct (run_steps Target.handle (exec (loadData 1 demoTemplate)) demoTarget)
    as (c & Hsteps & _).
  rewrite demo_run in Hsteps.
  exact (proj1 (loadData_phase_barrier 1 demoTemplate
                  (answered true ReadCollections ++ answered true demoReadItems
                   ++ answered true demoCreate)
                  demoUpdate (Settled demoUpdate true :: answered true demoSingleton)
                  c Hsteps) eq_refl).
Defined.

Lemma fullTarget_serves :
  serves Target.handle "articles" "id" fullTarget 1%Z
    ([Target.project (Some ["id"])
        <$> Target.pageOf 1000%Z (Some 1%Z) (replicate 1000 article1 ++ [article2])]
     ++ [Target.project (Some ["id"])
           <$> Target.pageOf 1000%Z (Some 2%Z) (replicate 1000 article1 ++ [article2])])
    fullTarget.
Proof.
  eapply serves_cons; [apply Target_handle_ReadItems; reflexivity|].
  eapply serves_cons; [apply Target_handle_ReadItems; reflexivity | apply serves_nil].
Defined.

Lemma getExistingPrimaryKeys_pagination_witness :
  run Target.handle (getExistingPrimaryKeys 2 "articles" "id" (fun _ => Stop)) fullTarget
  = (Completed, fullTarget, pageEvents "articles" "id" 1%Z 2)
  /\ requestsOf (pageEvents "articles" "id" 1%Z 2)
     = [ ReadItems "articles"
           {| q_fields := Some ["id"]; q_limit := 1000%Z; q_page := Some 1%Z |};
         ReadItems "articles"
           {| q_fields := Some ["id"]; q_limit := 1000%Z; q_page := Some 2%Z |} ].
Proof.
  destruct (getExistingPrimaryKeys_pagination Target.handle "articles" "id"
              [Target.project (Some ["id"])
                 <$> Target.pageOf 1000%Z (Some 1%Z)
                       (replicate 1000 article1 ++ [article2])]
              (Target.project (Some ["id"])
                 <$> Target.pageOf 1000%Z (Some 2%Z)
                       (replicate 1000 article1 ++ [article2]))
              fullTarget fullTarget 2 (fun _ => Stop))
    as (Hrun & Hrequests & _).
  - exact fullTarget_serves.
  - constructor; [|constructor].
    rewrite length_fmap, Target_pageOf_1000, length_take, length_drop, length_app,
      length_replicate.
    cbn [length]. lia.
  - rewrite length_fmap, Target_pageOf_1000, length_take, length_drop, length_app,
      length_replicate.
    cbn [length]. lia.
  - cbn [length]. lia.
  - split; [|exact Hrequests].
    rewrite Hrun. cbn [run length]. rewrite app_nil_r. reflexivity.
Defined.

Lemma audit_fields_are_stripped_witness : submittedFrom demoTemplate demoUpdate.
Proof.
  destruct (run_steps Target.handle (exec (loadData 1 demoTemplate)) demoTarget)
    as (c & Hsteps & _).
  rewrite demo_run in Hsteps.
  refine (proj1 (audit_fields_are_stripped 1 demoTemplate _ c demoUpdate Hsteps _ _)).
  - apply list_elem_of_lookup. exists 6%nat. reflexivity.
  - reflexivity.
Defined.

Lemma demoTemplate_metaPresent : metaPresent [articles; site].
Proof.
  intros item Hin _ _.
  apply elem_of_cons in Hin as [-> | Hin]; [discriminate|].
  apply elem_of_cons in Hin as [-> | Hin]; [discriminate|].
  inversion Hin.
Defined.

Lemma loadRelations_creates_the_missing_witness :
  requestsOf
    (run Target.handle (exec (loadRelations (withRelations [authorOf; editorOf])))
         usedTarget).2
  = [ReadRelations;
     CreateRelation
       {| rel_collection := "articles"; rel_field := "editor";
          related_collection := Some "authors";
          rel_meta := Some {[ "id" := JUndef; "one_field" := JStr "edited" ]} |}].
Proof.
  destruct (loadRelations_creates_the_missing Target.handle
              (withRelations [authorOf; editorOf]) [authorOf; editorOf]
              [articles; site] (Target.relations usedTarget) usedTarget usedTarget
              eq_refl eq_refl eq_refl)
    as (_ & Hcreated & _).
  destruct Hcreated as (o & s2 & t & Hrun & _ & Hall).
  - discriminate.
  - repeat constructor; eexists; reflexivity.
  - assert (o = Completed) as Ho.
    { apply (f_equal (fun x => x.1.1)) in Hrun. cbn [fst] in Hrun. rewrite <- Hrun.
      vm_compute. reflexivity. }
    rewrite Hrun. cbn [snd]. rewrite requestsOf_app, (Hall Ho).
    vm_compute. reflexivity.
Defined.

(** [editorOf] and [translatorOf] are relations of the blob, involve no
    collection of the [_extensions] group and are not on the target; yet no
    relation is created: clearing the [id] of the [meta] of [translatorOf],
    which is [null], throws. *)
Lemma loadRelations_creates_the_missing_counterexample :
  Target.relations demoTarget = []
  /\ extensionCollectionNamesOf [articles; site] = ∅
  /\ run Target.handle
       (exec (loadRelations (withRelations [editorOf; translatorOf]))) demoTarget
     = (Failed (Uncaught "TypeError: Cannot set properties of null (setting 'id')"),
        demoTarget, [Issued ReadRelations; Settled ReadRelations true]).
Proof.
  split; [reflexivity|]. split; vm_compute; reflexivity.
Qed.

Lemma second_apply_creates_nothing_witness :
  let r1 := (run Target.handle (exec (loadRelations demoTemplate)) demoTarget).1.2 in
  let s1 := (run Target.handle (exec (loadData 1 demoTemplate)) demoTarget).1.2 in
  relationsToAddOf (loadableRelations [articles; site] [authorOf])
    (Target.relations r1) = Some []
  /\ Forall (fun q => isCreateItems q = false)
            (requestsOf (run Target.handle (exec (loadData 1 demoTemplate)) s1).2).
Proof.
  intros r1 s1.
  destruct (second_apply_creates_nothing 1 demoTemplate demoTarget r1 demoTarget s1
              (run Target.handle (exec (loadRelations demoTemplate)) demoTarget).2
              (run Target.handle (exec (loadData 1 demoTemplate)) demoTarget).2)
    as [Hrelations Hdata].
  - vm_compute. reflexivity.
  - vm_compute. reflexivity.
  - intros fields [= <-]. apply sameKeys_decide.
    apply (bool_decide_unpack _). vm_compute. exact I.
  - destruct (Hrelations r1 (extends_refl r1))
      as (allRelations & collections & [= <-] & [= <-] & Hnone & _).
    destruct (Hdata s1 1%nat (extends_refl s1))
      as (_ & _ & _ & _ & _ & _ & _ & _ & Hcreates & _).
    split; [exact Hnone | exact Hcreates].
Defined.


Lemma missing_primary_key_stops_the_phase_witness :
  exec (skeletonRecordsOf 1 keylessTemplate
          (primaryKeysOf
             [ {| field_collection := "articles"; field := "title";
                  field_schema := Some {| is_primary_key := false |} |} ])
          articles)
  = Fail (Fatal "Collection articles not found in collections map"
                [("availableCollections", JArr []);
                 ("collection", JStr "articles");
                 ("operation", JStr "getPrimaryKey")])
  /\ forall t c,
       exchanges (CRun (loadSkeletonRecords 1 keylessTemplate
                          (list_to_set ["articles"; "site"])
                          (fun _ => exec (loadFullData keylessTemplate
                                            (list_to_set ["articles"; "site"])))))
                 t c ->
       c <> CRun Stop.
Proof.
  destruct (missing_primary_key_stops_the_phase 1 keylessTemplate [articles; site]
              [ {| field_collection := "articles"; field := "title";
                   field_schema := Some {| is_primary_key := false |} |} ]
              (list_to_set ["articles"; "site"]) articles
              (Rows [article1; article2]))
    as [Hunit Hphase].
  - reflexivity.
  - reflexivity.
  - exact demoTemplate_metaPresent.
  - vm_compute. left.
  - vm_compute. reflexivity.
  - intros f Hin _. apply list_elem_of_singleton in Hin as ->. discriminate.
  - vm_compute. reflexivity.
  - split; [exact Hunit|]. intros t c H.
    destruct (Hphase _ t c H) as [[_ ->] | (cs & -> & _)]; discriminate.
Defined.

(** * More on the content loader *)

(** ** Which collections [loadData] touches *)

Lemma filter_throwing_Some {A} (f : A -> option bool) (array kept : list A) :
  filter_throwing f array = Some kept ->
  Forall (fun x => x ∈ array /\ f x = Some true) kept.
Proof.
  revert kept. induction array as [|x array IH]; intros kept Hkept.
  - injection Hkept as <-. constructor.
  - cbn [filter_throwing] in Hkept.
    destruct (f x) as [keep|] eqn:Hx; [|discriminate].
    destruct (filter_throwing f array) as [rest|]; [|discriminate].
    injection Hkept as <-. specialize (IH rest eq_refl).
    assert (Forall (fun y => y ∈ x :: array /\ f y = Some true) rest) as Hrest.
    { eapply Forall_impl; [exact IH|]. intros y [Hy Hfy]. split; [right|]; assumption. }
    destruct keep; [|exact Hrest].
    constructor; [split; [left | exact Hx] | exact Hrest].
Qed.

Lemma filter_throwing_None {A} (f : A -> option bool) (array : list A) (x : A) :
  x ∈ array -> f x = None -> filter_throwing f array = None.
Proof.
  intros Hin Hx. induction array as [|y array IH]; [inversion Hin|].
  cbn [filter_throwing]. apply elem_of_cons in Hin as [<- | Hin].
  - rewrite Hx. reflexivity.
  - rewrite (IH Hin). destruct (f y); reflexivity.
Qed.

Lemma uses_userCollectionsOf (R : Request -> Prop) (collections : list Collection)
    (targetCollections : gset string) (k : list Collection -> Prog) :
  (forall userCollections,
     Forall (fun item => item ∈ collections /\ eligible targetCollections item = true)
            userCollections ->
     uses R (k userCollections)) ->
  uses R (userCollectionsOf collections targetCollections k).
Proof.
  intros Hk. unfold userCollectionsOf. cbv zeta.
  destruct (filter_throwing _ _) as [step3|] eqn:Hstep3; [|exact I].
  apply Hk. apply filter_throwing_Some in Hstep3.
  apply Forall_forall. intros item Hin.
  apply list_elem_of_In, filter_In in Hin as [Hin Htarget].
  apply list_elem_of_In in Hin. rewrite Forall_forall in Hstep3.
  destruct (Hstep3 item Hin) as [Hstep2 Hmeta].
  apply list_elem_of_In, filter_In in Hstep2 as [Hstep1 Hschema].
  apply filter_In in Hstep1 as [Hblob Hprefix].
  split; [apply list_elem_of_In, Hblob|].
  unfold eligible. rewrite Hprefix, Hschema, Htarget.
  destruct (meta item) as [m|]; [|discriminate].
  cbn in Hmeta. injection Hmeta as Hm. cbn [from_option]. rewrite Hm. reflexivity.
Qed.

Lemma uses_singletonCollectionsOf (R : Request -> Prop)
    (collections : list Collection) (targetCollections : gset string)
    (k : list Collection -> Prog) :
  (forall singletonCollections,
     Forall (fun item => item ∈ collections
                         /\ eligibleSingleton targetCollections item = true)
            singletonCollections ->
     uses R (k singletonCollections)) ->
  uses R (singletonCollectionsOf collections targetCollections k).
Proof.
  intros Hk. unfold singletonCollectionsOf. cbv zeta.
  destruct (filter_throwing _ _) as [step2|] eqn:Hstep2; [|exact I].
  apply Hk. apply filter_throwing_Some in Hstep2.
  apply Forall_forall. intros item Hin.
  apply list_elem_of_In, filter_In in Hin as [Hin Htarget].
  apply list_elem_of_In in Hin. rewrite Forall_forall in Hstep2.
  destruct (Hstep2 item Hin) as [Hstep1 Hmeta].
  apply list_elem_of_In, filter_In in Hstep1 as [Hblob Hprefix].
  split; [apply list_elem_of_In, Hblob|].
  unfold eligibleSingleton. rewrite Hprefix, Htarget.
  destruct (meta item) as [m|]; [|discriminate].
  cbn in Hmeta. injection Hmeta as Hm. cbn [from_option]. rewrite Hm. reflexivity.
Qed.

Lemma uses_getExistingPrimaryKeys_named (R : Request -> Prop) (rounds : nat)
    (name primaryKeyField : string) (existingKeys : JSet.t) (page : Z)
    (k : JSet.t -> Prog) :
  (forall query, R (ReadItems name query)) ->
  (forall keys, uses R (k keys)) ->
  uses R (getExistingPrimaryKeys_from rounds name primaryKeyField existingKeys page k).
Proof.
  intros HR Hk. revert existingKeys page.
  induction rounds as [|rounds IH]; intros existingKeys page; [exact I|].
  cbn [getExistingPrimaryKeys_from]. unfold_M. cbn [uses].
  split; [apply HR|].
  intros [response|error]; [|exact I].
  destruct (length response =? 0)%nat; [apply Hk|].
  destruct (_ <? _)%Z; [apply Hk | apply IH].
Qed.

Section WithinChain.
Context (dir : Template) (collections : list Collection)
        (targetCollections : gset string).

Lemma uses_skeletonRecordsOf_within (rounds : nat)
    (primaryKeyMap : PlainObject) (item : Collection) :
  item ∈ collections -> eligible targetCollections item = true ->
  uses (withinChain dir collections targetCollections)
       (exec (skeletonRecordsOf rounds dir primaryKeyMap item)).
Proof.
  intros Hin Heligible.
  assert (is_Some (readFile_allowMissing (collection item) dir) ->
          forall r, requestCollection r = Some (collection item) ->
                    isUpdateSingleton r = false ->
                    withinChain dir collections targetCollections r) as Hwithin.
  { intros Hdata r Hr Hkind name Hname. rewrite Hr in Hname. injection Hname as <-.
    exists item. rewrite Hkind. auto. }
  unfold exec, skeletonRecordsOf.
  destruct (readFile_allowMissing _ _) as [data|]; [|exact I].
  specialize (Hwithin ltac:(eexists; reflexivity)).
  unfold getPrimaryKey, getExistingPrimaryKeys. unfold_M.
  destruct (negb _); [exact I|].
  apply uses_getExistingPrimaryKeys_named.
  { intros query. apply Hwithin; reflexivity. }
  intros keys. destruct data as [data|row]; [|exact I].
  cbv zeta. destruct (_ =? 0)%nat; [exact I|].
  cbn [uses]. split; [|exact I].
  apply foldr_and_Forall, Forall_imap. intros index batch.
  unfold uploadBatch. unfold_M. cbn [uses].
  split; [apply Hwithin; reflexivity|]. intros [done|error]; exact I.
Qed.

Lemma uses_fullDataOf_within (item : Collection) :
  item ∈ collections -> eligible targetCollections item = true ->
  uses (withinChain dir collections targetCollections) (exec (fullDataOf dir item)).
Proof.
  intros Hin Heligible. unfold exec, fullDataOf.
  destruct (readFile_allowMissing _ _) as [data|] eqn:Hdata; [|exact I].
  cbv zeta. apply uses_promiseAll; [|exact I].
  apply Forall_imap. intros index batch.
  apply uses_uploadBatch; [|exact I].
  intros name [= <-]. exists item. rewrite Hdata. cbn [isUpdateSingleton]. eauto.
Qed.

Lemma uses_singletonOf_within (item : Collection) :
  item ∈ collections -> eligibleSingleton targetCollections item = true ->
  uses (withinChain dir collections targetCollections) (exec (singletonOf dir item)).
Proof.
  intros Hin Heligible. unfold exec, singletonOf.
  destruct (readFile_allowMissing _ _) as [data|] eqn:Hdata; [|exact I].
  unfold_M. cbn [uses]. split; [|intros [[]|error]; exact I].
  intros name [= <-]. exists item. rewrite Hdata. cbn [isUpdateSingleton]. eauto.
Qed.

Lemma uses_phases_within (rounds : nat) :
  blob_collections dir = Some collections ->
  uses (withinChain dir collections targetCollections)
       (loadSkeletonRecords rounds dir targetCollections
          (fun _ => loadFullData dir targetCollections
                      (fun _ => loadSingletons dir targetCollections
                                  (fun _ => Stop)))).
Proof.
  intros Hblob.
  unfold loadSkeletonRecords, loadFullData, loadSingletons, getCollectionPrimaryKeys,
    readFile.
  rewrite Hblob. unfold_M.
  destruct (blob_fields dir) as [fields|]; [|exact I].
  apply uses_userCollectionsOf. intros userCollections Hchain.
  cbn [uses]. split.
  { apply foldr_and_Forall, Forall_fmap. eapply Forall_impl; [exact Hchain|].
    intros item [Hin Heligible]. apply uses_skeletonRecordsOf_within; assumption. }
  apply uses_userCollectionsOf. intros userCollections' Hchain'.
  cbn [uses]. split.
  { apply foldr_and_Forall, Forall_fmap. eapply Forall_impl; [exact Hchain'|].
    intros item [Hin Heligible]. apply uses_fullDataOf_within; assumption. }
  apply uses_singletonCollectionsOf. intros singletonCollections Hsingle.
  cbn [uses]. split; [|exact I].
  apply foldr_and_Forall, Forall_fmap. eapply Forall_impl; [exact Hsingle|].
  intros item [Hin Heligible]. apply uses_singletonOf_within; assumption.
Qed.

End WithinChain.

(** X1.  Once the target has given its collections, every request of
    [loadData] about the items of a collection is about a collection of the
    collections blob that has a content blob and passes the filter chain of
    its phase: its name does not start with [directus_] and is the name of a
    collection of the target; it has a schema and is no singleton when the
    request reads, creates or updates items, and it is a singleton when the
    request updates a singleton. *)
Theorem loadData_touches_only_its_collections {St : Type}
    (handle : St -> forall r : Request, Reply r * St)
    (rounds : nat) (dir : Template) (collections targets : list Collection)
    (s s1 : St) :
  blob_collections dir = Some collections ->
  handle s ReadCollections = (Resolved targets, s1) ->
  let targetCollections : gset string := list_to_set (collection <$> targets) in
  Forall (fun r =>
            withinChain dir collections targetCollections r
            /\ forall name,
                 requestCollection r = Some name ->
                 String.prefix "directus_" name = false
                 /\ name ∈ collection <$> targets
                 /\ name ∈ collection <$> collections)
         (requestsOf (run handle (exec (loadData rounds dir)) s).2).
Proof.
  intros Hblob Hhandle targetCollections.
  assert (forall r, withinChain dir collections targetCollections r ->
            forall name,
              requestCollection r = Some name ->
              String.prefix "directus_" name = false
              /\ name ∈ collection <$> targets
              /\ name ∈ collection <$> collections) as Hnames.
  { intros r Hr name Hname.
    destruct (Hr name Hname) as (item & Hin & <- & _ & Hchain).
    assert (String.prefix "directus_" (collection item) = false
            /\ collection item ∈ targetCollections) as [Hprefix Htarget].
    { unfold eligible, eligibleSingleton in Hchain.
      destruct (isUpdateSingleton r);
        repeat (apply andb_true_iff in Hchain as [Hchain ?]);
        (split; [apply negb_true_iff; assumption
                | eapply bool_decide_eq_true_1; eassumption]). }
    split; [exact Hprefix|]. split.
    - apply elem_of_list_to_set in Htarget. exact Htarget.
    - apply list_elem_of_fmap. exists item. auto. }
  unfold exec, loadData, getTargetCollectionNames. rewrite Hblob.
  unfold readFile at 1. unfold_M. cbn [run]. rewrite Hhandle.
  match goal with
  | |- context [run handle ?p s1] =>
      pose proof (run_uses handle (withinChain dir collections targetCollections) p s1
                    (uses_phases_within dir collections targetCollections rounds Hblob))
        as Hrest;
      destruct (run handle p s1) as [[o s2] t]
  end.
  cbn [snd] in *. unfold requestsOf. cbn [omap list_omap]. fold (requestsOf t).
  constructor.
  - split; intros name Hname; discriminate.
  - eapply Forall_impl; [exact Hrest|]. intros r Hr. split; [exact Hr | apply Hnames, Hr].
Qed.

Lemma loadData_touches_only_its_collections_witness :
  Forall (fun r => forall name,
            requestCollection r = Some name ->
            String.prefix "directus_" name = false
            /\ name ∈ collection <$> [articles; site])
         (requestsOf (run Target.handle (exec (loadData 1 demoTemplate)) demoTarget).2).
Proof.
  pose proof (loadData_touches_only_its_collections Target.handle 1 demoTemplate
                [articles; site] [articles; site] demoTarget demoTarget
                eq_refl eq_refl) as Hall.
  eapply Forall_impl; [exact Hall|].
  intros r [_ Hnames] name Hname. destruct (Hnames name Hname) as (Hprefix & Htarget & _).
  split; assumption.
Defined.

(** ** Failures before the first write *)

(** X2.  [loadData] stops before it reads or writes any item when the target
    does not give its collections (the rejection is not caught), and when
    the collections blob holds a collection outside [directus_], with a
    schema, whose [meta] is [null]: the filter chain of the skeleton phase
    throws a [TypeError] on [item.meta.singleton], after the one request for
    the target's collections. *)
Theorem loadData_fails_before_any_write {St : Type}
    (handle : St -> forall r : Request, Reply r * St)
    (rounds : nat) (dir : Template) (collections : list Collection)
    (fields : list Field) (s : St) :
  blob_collections dir = Some collections ->
  blob_fields dir = Some fields ->
  (forall error s1,
     handle s ReadCollections = (Rejected error, s1) ->
     run handle (exec (loadData rounds dir)) s
     = (Failed (Uncaught error), s1, answered false ReadCollections))
  /\ (forall targets s1 item,
        handle s ReadCollections = (Resolved targets, s1) ->
        item ∈ collections ->
        String.prefix "directus_" (collection item) = false ->
        schema item <> None ->
        meta item = None ->
        run handle (exec (loadData rounds dir)) s
        = (Failed (nullDeref "singleton"), s1, answered true ReadCollections)).
Proof.
  intros Hblob Hfields. split.
  - intros error s1 Hhandle.
    unfold exec, loadData, getTargetCollectionNames, readFile. rewrite Hblob.
    unfold_M. cbn [run]. rewrite Hhandle. reflexivity.
  - intros targets s1 item Hhandle Hin Hprefix Hschema Hmeta.
    unfold exec, loadData, getTargetCollectionNames, loadSkeletonRecords,
      getCollectionPrimaryKeys, readFile.
    rewrite Hblob, Hfields. unfold_M. cbn [run]. rewrite Hhandle.
    unfold userCollectionsOf at 1. cbv zeta.
    rewrite (filter_throwing_None _ _ item); [reflexivity | | rewrite Hmeta; reflexivity].
    apply list_elem_of_In, filter_In. split.
    + apply filter_In. split; [apply list_elem_of_In, Hin | rewrite Hprefix; reflexivity].
    + apply bool_decide_eq_true_2, Hschema.
Qed.

(** ** The number of pages *)

(** One round of the loop against the reference instance. *)
Lemma run_page_target (s : Target.t) (name primaryKeyField : string)
    (rows : list (gmap string JVal)) (k : JSet.t -> Prog) (rounds : nat) (page : Z)
    (keys : JSet.t) :
  Target.items s !! name = Some rows ->
  let rest := drop ((Z.to_nat page - 1) * 1000) rows in
  let response := Target.project (Some [primaryKeyField]) <$> take 1000 rest in
  let keys1 :=
    fold_left (fun keys item => JSet.add keys (getProp item primaryKeyField))
              response keys in
  run Target.handle
      (getExistingPrimaryKeys_from (S rounds) name primaryKeyField keys page k) s
  = let '(o, s', t) :=
      run Target.handle
        (if (length rest =? 0)%nat then k keys
         else if (length rest <? 1000)%nat then k keys1
              else getExistingPrimaryKeys_from rounds name primaryKeyField keys1
                     (page + 1)%Z k) s in
    (o, s', answered true
              (ReadItems name {| q_fields := Some [primaryKeyField];
                                 q_limit := 1000%Z; q_page := Some page |}) ++ t).
Proof.
  intros Hrows rest response keys1.
  cbn [getExistingPrimaryKeys_from]. unfold_M. cbn [run].
  rewrite (Target_handle_ReadItems s name _ rows Hrows).
  cbn [q_fields q_limit q_page]. rewrite Target_pageOf_1000. fold rest. fold response.
  assert (length response = (1000 `min` length rest)%nat) as Hlength
    by (unfold response; rewrite length_fmap, length_take; reflexivity).
  rewrite Hlength.
  destruct (length rest =? 0)%nat eqn:Hzero.
  - apply Nat.eqb_eq in Hzero. rewrite Hzero. reflexivity.
  - apply Nat.eqb_neq in Hzero.
    replace (1000 `min` length rest =? 0)%nat with false
      by (symmetry; apply Nat.eqb_neq; lia).
    destruct (length rest <? 1000)%nat eqn:Hshort.
    + apply Nat.ltb_lt in Hshort.
      replace (Z.of_nat (1000 `min` length rest) <? 1000)%Z with true
        by (symmetry; apply Z.ltb_lt; lia).
      reflexivity.
    + apply Nat.ltb_ge in Hshort.
      replace (Z.of_nat (1000 `min` length rest) <? 1000)%Z with false
        by (symmetry; apply Z.ltb_ge; lia).
      reflexivity.
Qed.

Lemma run_pagination_count (s : Target.t) (name primaryKeyField : string)
    (rows : list (gmap string JVal)) (k : JSet.t -> Prog) :
  Target.items s !! name = Some rows ->
  forall (rounds : nat) (page : Z) (keys : JSet.t),
    (1 <= page)%Z ->
    let rest := drop ((Z.to_nat page - 1) * 1000) rows in
    (length rest < 1000 * rounds)%nat ->
    run Target.handle
        (getExistingPrimaryKeys_from rounds name primaryKeyField keys page k) s
    = (let '(o, s', t) :=
         run Target.handle
           (k (keysOf primaryKeyField keys
                 [Target.project (Some [primaryKeyField]) <$> rest])) s in
       (o, s', pageEvents name primaryKeyField page (length rest / 1000 + 1) ++ t)).
Proof.
  intros Hrows rounds. induction rounds as [|rounds IH]; intros page keys Hpage rest Hlt;
    [lia|].
  rewrite (run_page_target s name primaryKeyField rows k rounds page keys Hrows).
  fold rest. cbv zeta. unfold keysOf. cbn [concat]. rewrite app_nil_r.
  destruct (length rest =? 0)%nat eqn:Hzero.
  - apply Nat.eqb_eq in Hzero.
    assert (rest = []) as -> by (apply nil_length_inv; exact Hzero).
    cbn [length fmap list_fmap fold_left]. rewrite Nat.Div0.div_0_l.
    destruct (run Target.handle (k keys) s) as [[o s'] t]. reflexivity.
  - destruct (length rest <? 1000)%nat eqn:Hshort.
    + apply Nat.ltb_lt in Hshort. rewrite take_ge by lia.
      rewrite Nat.div_small by exact Hshort.
      destruct (run Target.handle (k _) s) as [[o s'] t]. reflexivity.
    + apply Nat.ltb_ge in Hshort.
      assert (Hnext : drop ((Z.to_nat (page + 1) - 1) * 1000) rows = drop 1000 rest).
      { unfold rest. rewrite drop_drop. f_equal. lia. }
      rewrite (IH (page + 1)%Z _ ltac:(lia)); rewrite Hnext;
        [|rewrite length_drop; lia].
      unfold keysOf. cbn [concat]. rewrite app_nil_r, <- fold_left_app, <- fmap_app,
        take_drop.
      destruct (run Target.handle (k _) s) as [[o s'] t].
      rewrite length_drop.
      replace (length rest / 1000 + 1)%nat
        with (S ((length rest - 1000) / 1000 + 1))%nat.
      * rewrite pageEvents_S, <- app_assoc. reflexivity.
      * replace (length rest) with ((length rest - 1000) + 1 * 1000)%nat at 2 by lia.
        rewrite Nat.div_add by lia. lia.
Qed.

(** X3.  Against a target that serves the rows of a collection in slices of
    1000, [getExistingPrimaryKeys] asks for [n / 1000 + 1] pages when the
    collection has [n] rows, so one more page, an empty one, when [n] is a
    multiple of 1000; it hands the caller a set that holds a value exactly
    when a row has it as key, and leaves the target as it is. *)
Theorem getExistingPrimaryKeys_page_count (s : Target.t)
    (name primaryKeyField : string) (rows : list (gmap string JVal))
    (rounds : nat) :
  Target.items s !! name = Some rows ->
  (length rows < 1000 * rounds)%nat ->
  exists keys,
    (forall k,
       run Target.handle (getExistingPrimaryKeys rounds name primaryKeyField k) s
       = (let '(o, s', t) := run Target.handle (k keys) s in
          (o, s', pageEvents name primaryKeyField 1%Z (length rows / 1000 + 1) ++ t)))
    /\ (forall v, JSet.has keys v = Target.hasKey primaryKeyField rows v)
    /\ length (pageRequests name primaryKeyField 1%Z (length rows / 1000 + 1))
       = (length rows / 1000 + 1)%nat.
Proof.
  intros Hrows Hlt.
  exists (keysOf primaryKeyField JSet.empty
            [Target.project (Some [primaryKeyField]) <$> rows]).
  split; [|split].
  - intros k. unfold getExistingPrimaryKeys.
    exact (run_pagination_count s name primaryKeyField rows k Hrows rounds 1%Z
             JSet.empty ltac:(lia) Hlt).
  - intros v. rewrite keysOf_has. cbn [concat]. rewrite app_nil_r.
    rewrite hasKey_project. reflexivity.
  - generalize (length rows / 1000 + 1)%nat as n. generalize 1%Z as page.
    intros page n. revert page. induction n as [|n IH]; intros page; [reflexivity|].
    cbn [pageRequests length]. rewrite IH. reflexivity.
Qed.

Lemma getExistingPrimaryKeys_page_count_witness :
  exists keys,
    (forall k,
       run Target.handle (getExistingPrimaryKeys 2 "articles" "id" k) fullTarget
       = (let '(o, s', t) := run Target.handle (k keys) fullTarget in
          (o, s', pageEvents "articles" "id" 1%Z 2 ++ t)))
    /\ JSet.has keys (JNum 2) = true.
Proof.
  destruct (getExistingPrimaryKeys_page_count fullTarget "articles" "id"
              (replicate 1000 article1 ++ [article2]) 2)
    as (keys & Hrun & Hhas & _).
  - reflexivity.
  - rewrite length_app, length_replicate. cbn. lia.
  - exists keys. split.
    + intros k. rewrite (Hrun k), length_app, length_replicate. reflexivity.
    + rewrite Hhas, hasKey_app. apply orb_true_iff. right. reflexivity.
Defined.

(** ** The full-data phase sends every record *)

Lemma exchanges_uploads_asked (name : string)
    (method : string -> list (gmap string JVal) -> Request)
    (batches : list (list (gmap string JVal))) (k : Prog) :
  forall (index : nat -> nat) (before : list Cfg),
  exists waiting,
    exchanges
      (CJoin (before
              ++ (CRun <$> imap (fun i batch =>
                                   exec (uploadBatch name batch method (index i)))
                                batches)) k)
      (Asked <$> (method name <$> batches))
      (CJoin (before ++ waiting) k).
Proof.
  induction batches as [|batch batches IH]; intros index before.
  - exists []. constructor.
  - cbn [imap fmap list_fmap].
    assert (exists k0, exec (uploadBatch name batch method (index 0%nat))
                       = Await (method name batch) k0) as [k0 ->]
      by (eexists; reflexivity).
    destruct (IH (index ∘ Datatypes.S) (before ++ [CWait (method name batch) k0]))
      as (waiting & Hrest).
    exists (CWait (method name batch) k0 :: waiting).
    eapply (exchanges_cons _ (Some (Asked (method name batch)))).
    + apply exchange_branch. apply exchange_issue.
    + rewrite <- !app_assoc in Hrest. exact Hrest.
Qed.

(** X4.  For a collection whose content blob holds rows, the full-data phase
    takes no difference.  Its batches are the rows of the blob, in the order
    of the blob and without their two audit fields, cut into runs of at most
    50.  In every execution of the interleaving semantics, whatever the
    target answers, each batch is submitted as an update at most once, and
    when the callback has returned every batch has been submitted.  The
    batches are submitted under one [Promise.all]: there is an execution in
    which all of them have been submitted, in order, before any answer. *)
Theorem fullDataOf_submits_every_row (dir : Template) (item : Collection)
    (rows : list (gmap string JVal)) :
  readFile_allowMissing (collection item) dir = Some (Rows rows) ->
  let batches :=
    (fun batch : list (gmap string JVal) => stripUserFields <$> batch)
      <$> chunkArray rows BATCH_SIZE in
  let updates := UpdateItemsBatch (collection item) <$> batches in
  concat batches
  = (fun row : gmap string JVal => delete "user_updated" (delete "user_created" row))
      <$> rows
  /\ Forall (fun batch => (0 < length batch <= 50)%nat) batches
  /\ (forall t c,
        exchanges (CRun (exec (fullDataOf dir item))) t c ->
        asked t ⊆+ updates /\ (c = CRun Stop -> asked t ≡ₚ updates))
  /\ (exists c,
        exchanges (CRun (exec (fullDataOf dir item))) (Asked <$> updates) c).
Proof.
  intros Hdata batches updates. split; [|split; [|split]].
  - unfold batches. rewrite concat_fmap_fmap, chunkArray_concat; [reflexivity|].
    unfold BATCH_SIZE. lia.
  - unfold batches. apply Forall_fmap.
    eapply Forall_impl; [apply chunkArray_sizes; unfold BATCH_SIZE; lia|].
    intros batch Hbatch. cbn. rewrite length_fmap. exact Hbatch.
  - intros t c H. unfold exec, fullDataOf in H. rewrite Hdata in H.
    cbv zeta in H. fold batches in H. unfold promiseAll in H.
    exact (exchanges_uploads _ UpdateItemsBatch _ _ _ H).
  - unfold exec, fullDataOf. rewrite Hdata. cbv zeta. fold batches.
    unfold promiseAll.
    destruct (exchanges_uploads_asked (collection item) UpdateItemsBatch batches
                Stop id []) as (waiting & H).
    exists (CJoin waiting Stop).
    apply (exchanges_cons _ None _ _ _ (exchange_fork _ _)). exact H.
Qed.

Lemma fullDataOf_submits_every_row_witness :
  (forall t c,
     exchanges (CRun (exec (fullDataOf demoTemplate articles))) t c ->
     asked t ⊆+ [demoUpdate] /\ (c = CRun Stop -> asked t ≡ₚ [demoUpdate]))
  /\ exists c,
       exchanges (CRun (exec (fullDataOf demoTemplate articles))) [Asked demoUpdate] c.
Proof.
  destruct (fullDataOf_submits_every_row demoTemplate articles
              [article1; article2] eq_refl)
    as (_ & _ & Hall & Hsome).
  split; [exact Hall | exact Hsome].
Defined.

(** ** The identity key of a relation *)

Lemma append_colon_inj (a b c d : string) :
  colonFree a = true -> colonFree c = true ->
  a +:+ ":" +:+ b = c +:+ ":" +:+ d -> a = c /\ b = d.
Proof.
  revert c. induction a as [|x a IH]; intros [|y c] Ha Hc Heq.
  - injection Heq as Heq. split; [reflexivity | exact Heq].
  - cbn in Heq, Hc. injection Heq as <- _. cbn in Hc. discriminate.
  - cbn in Heq, Ha. injection Heq as -> _. cbn in Ha. discriminate.
  - cbn in Heq, Ha, Hc. injection Heq as -> Heq.
    apply andb_true_iff in Ha as [_ Ha]. apply andb_true_iff in Hc as [_ Hc].
    destruct (IH c Ha Hc Heq) as [-> ->]. split; reflexivity.
Qed.

(** X5.  When the names of the collections and of the fields hold no colon,
    two relations have the same identity key exactly when they have the same
    collection, the same field and the same related collection, a missing
    related collection counting as one named [null]; the [meta] of the
    relations plays no part. *)
Theorem relationKey_identifies (r1 r2 : Relation) :
  colonFree (rel_collection r1) = true -> colonFree (rel_field r1) = true ->
  colonFree (rel_collection r2) = true -> colonFree (rel_field r2) = true ->
  relationKey r1 = relationKey r2
  <-> rel_collection r1 = rel_collection r2
      /\ rel_field r1 = rel_field r2
      /\ default "null" (related_collection r1)
         = default "null" (related_collection r2).
Proof.
  intros Hc1 Hf1 Hc2 Hf2. unfold relationKey. split.
  - intros Hkey.
    apply append_colon_inj in Hkey as [Hcollection Hrest]; [|assumption..].
    apply append_colon_inj in Hrest as [Hfield Hrelated]; [|assumption..].
    auto.
  - intros (-> & -> & ->). reflexivity.
Qed.

Lemma relationKey_identifies_witness :
  relationKey authorOf
  = relationKey {| rel_collection := "articles"; rel_field := "author";
                   related_collection := Some "authors"; rel_meta := None |}.
Proof.
  apply (relationKey_identifies authorOf
           {| rel_collection := "articles"; rel_field := "author";
              related_collection := Some "authors"; rel_meta := None |});
    try reflexivity.
  repeat split.
Defined.

Lemma loadData_fails_before_any_write_witness :
  run Target.handle (exec (loadData 1 folderTemplate)) demoTarget
  = (Failed (nullDeref "singleton"), demoTarget, answered true ReadCollections).
Proof.
  destruct (loadData_fails_before_any_write Target.handle 1 folderTemplate
              [articles;
               {| collection := "drafts";
                  schema := Some {| schema_name := "drafts" |};
                  meta := None |}]
              [ {| field_collection := "articles"; field := "id";
                   field_schema := Some {| is_primary_key := true |} |};
                {| field_collection := "articles"; field := "title";
                   field_schema := Some {| is_primary_key := false |} |} ]
              demoTarget eq_refl eq_refl) as [_ Hmeta].
  apply (Hmeta [articles; site] demoTarget
           {| collection := "drafts";
              schema := Some {| schema_name := "drafts" |};
              meta := None |}).
  - reflexivity.
  - right. left.
  - reflexivity.
  - discriminate.
  - reflexivity.
Defined.

(** * More on the HTTP wrapper and the utilities *)

(** ** The credential that [authMiddleware] looks at *)

(** X6.  A non-empty [Authorization] header hides the [X-API-Key] header:
    the decision of [authMiddleware] does not depend on the key then.  So,
    with a token configured, a request whose [Authorization] header is
    [Bearer ] followed by nothing is answered 401 even when its [X-API-Key]
    header carries the configured token. *)
Theorem authorization_header_hides_api_key (API_AUTH_TOKEN : option string)
    (authHeader : string) (apiKey apiKey' : option string) :
  authHeader <> "" ->
  authMiddleware API_AUTH_TOKEN
    {| authorization := Some authHeader; x_api_key := apiKey |}
  = authMiddleware API_AUTH_TOKEN
      {| authorization := Some authHeader; x_api_key := apiKey' |}
  /\ (isAuthEnabled API_AUTH_TOKEN = true ->
      authMiddleware API_AUTH_TOKEN
        {| authorization := Some "Bearer "; x_api_key := API_AUTH_TOKEN |}
      = status_json 401 "Unauthorized"
          ("Authentication token is required. "
           +:+ "Provide it via Authorization header or X-API-Key header.")).
Proof.
  intros Hheader. split.
  - unfold authMiddleware, providedTokenOf. cbn [authorization x_api_key from_option].
    replace (truthy authHeader) with true
      by (symmetry; unfold truthy; apply negb_true_iff, String.eqb_neq; exact Hheader).
    reflexivity.
  - intros Henabled. destruct API_AUTH_TOKEN as [token|]; [|discriminate].
    rewrite (authMiddleware_enabled token _ Henabled). reflexivity.
Qed.

Lemma authorization_header_hides_api_key_witness :
  authMiddleware (Some "secret")
    {| authorization := Some "Bearer wrong"; x_api_key := Some "secret" |}
  = status_json 403 "Forbidden" "Invalid authentication token.".
Proof.
  destruct (authorization_header_hides_api_key (Some "secret") "Bearer wrong"
              (Some "secret") None ltac:(discriminate)) as [-> _].
  reflexivity.
Defined.

(** X7.  The configured token is compared as it is, while only its trimmed
    length decides whether authentication is on: when the token starts or
    ends with white space, no request whose credential has no white space
    around it is let through. *)
Theorem padded_token_matches_no_trimmed_credential (token : string)
    (headers : Headers) :
  isAuthEnabled (Some token) = true ->
  trim token <> token ->
  from_option (fun provided => trim provided = provided) True
              (providedTokenOf headers) ->
  authMiddleware (Some token) headers <> next.
Proof.
  intros Henabled Hpadded Hprovided.
  rewrite (authMiddleware_enabled token headers Henabled).
  destruct (negb (from_option truthy false (providedTokenOf headers)));
    [discriminate|].
  case_bool_decide as Htoken; [|discriminate].
  rewrite Htoken in Hprovided. cbn in Hprovided. contradiction.
Qed.

Lemma padded_token_matches_no_trimmed_credential_witness :
  authMiddleware (Some " secret ")
    {| authorization := Some "Bearer secret"; x_api_key := None |} <> next.
Proof.
  apply padded_token_matches_no_trimmed_credential.
  - reflexivity.
  - vm_compute. discriminate.
  - vm_compute. reflexivity.
Defined.

(** ** [sanitizeFlags] *)

(** X8.  [sanitizeFlags] removes [userEmail], [userPassword] and
    [directusToken] and nothing else: every other flag keeps its value, and
    sanitizing twice is sanitizing once. *)
Theorem sanitizeFlags_removes_the_credentials (flags : gmap string JVal) :
  (forall key,
     key ∈ ["userEmail"; "userPassword"; "directusToken"] ->
     sanitizeFlags flags !! key = None)
  /\ (forall key,
        key ∉ ["userEmail"; "userPassword"; "directusToken"] ->
        sanitizeFlags flags !! key = flags !! key)
  /\ sanitizeFlags (sanitizeFlags flags) = sanitizeFlags flags
  /\ sanitizeFlags flags ⊆ flags.
Proof.
  assert (forall key, key ∈ SENSITIVE_FLAGS
                      <-> key ∈ ["userEmail"; "userPassword"; "directusToken"])
    as Hsensitive by (intros key; unfold SENSITIVE_FLAGS; apply elem_of_list_to_set).
  split; [|split; [|split]].
  - intros key Hkey. unfold sanitizeFlags. apply map_lookup_filter_None. right.
    intros v _ Hkeep. apply Hkeep, Hsensitive, Hkey.
  - intros key Hkey. unfold sanitizeFlags.
    destruct (flags !! key) as [v|] eqn:Hv.
    + apply map_lookup_filter_Some. split; [exact Hv|].
      cbn. rewrite Hsensitive. exact Hkey.
    + apply map_lookup_filter_None. left. exact Hv.
  - unfold sanitizeFlags at 1. apply map_filter_id. intros key v Hv.
    apply map_lookup_filter_Some in Hv as [_ Hkeep]. exact Hkeep.
  - apply map_filter_subseteq.
Qed.

(** ** [buildBooleanDefaults] *)

Lemma buildBooleanDefaults_fold (body : gmap string JVal) (fields : list string)
    (result : gmap string bool) (field : string) :
  fold_left
    (fun (result : gmap string bool) field =>
       <[field := negb (strictEquals (getProp body field) (JBool false))]> result)
    fields result !! field
  = if bool_decide (field ∈ fields)
    then Some (negb (strictEquals (getProp body field) (JBool false)))
    else result !! field.
Proof.
  revert result. induction fields as [|f fields IH]; intros result; [reflexivity|].
  cbn [fold_left]. rewrite IH.
  destruct (decide (field = f)) as [->|Hne].
  - rewrite lookup_insert_eq. rewrite (bool_decide_eq_true_2 (f ∈ f :: fields)) by left.
    destruct (bool_decide (f ∈ fields)); reflexivity.
  - rewrite lookup_insert_ne by congruence.
    rewrite (bool_decide_ext (field ∈ f :: fields) (field ∈ fields));
      [reflexivity|].
    rewrite elem_of_cons. tauto.
Qed.

(** X9.  The object that [buildBooleanDefaults] returns has the given
    fields and no other; a field is [false] in it exactly when the body holds
    the boolean [false] for it, and [true] in every other case: when the
    body does not have the field, and when it holds [null], [0], an empty
    string or the string [false]. *)
Theorem buildBooleanDefaults_true_unless_false (body : gmap string JVal)
    (fields : list string) (field : string) :
  (field ∉ fields -> buildBooleanDefaults body fields !! field = None)
  /\ (field ∈ fields ->
      exists value,
        buildBooleanDefaults body fields !! field = Some value
        /\ (value = false <-> body !! field = Some (JBool false)))
  /\ (field ∈ fields ->
      body !! field ∈ [None; Some JNull; Some (JNum 0); Some (JStr "");
                       Some (JStr "false")] ->
      buildBooleanDefaults body fields !! field = Some true).
Proof.
  assert (field ∈ fields ->
          buildBooleanDefaults body fields !! field
          = Some (negb (strictEquals (getProp body field) (JBool false))))
    as Hin.
  { intros Hfield. unfold buildBooleanDefaults. rewrite buildBooleanDefaults_fold.
    rewrite bool_decide_eq_true_2 by exact Hfield. reflexivity. }
  split; [|split].
  - intros Hfield. unfold buildBooleanDefaults. rewrite buildBooleanDefaults_fold.
    rewrite bool_decide_eq_false_2 by exact Hfield. reflexivity.
  - intros Hfield. eexists. split; [exact (Hin Hfield)|].
    unfold getProp, strictEquals.
    destruct (body !! field) as [[| |[|]| | | |]|]; cbn;
      split; intros H; try discriminate; reflexivity.
  - intros Hfield Hvalue. rewrite (Hin Hfield). unfold getProp.
    repeat (apply elem_of_cons in Hvalue as [-> | Hvalue]); try reflexivity.
    inversion Hvalue.
Qed.

(** ** [waitFor] *)

Lemma waitFor_loop_failed (failures : nat) (message : string) (delay : Z) :
  forall (attempts : nat) (answers : list (Thrown + bool)),
    runScript checking (waitFor_loop (failures + attempts) message delay)
              (replicate failures (inr false) ++ answers)
    = let '(o, s, t) :=
        runScript checking (waitFor_loop attempts message delay) answers in
      (o, s, failedAttempts failures delay ++ t).
Proof.
  induction failures as [|failures IH]; intros attempts answers.
  - cbn [Nat.add replicate app]. unfold failedAttempts. cbn [replicate concat app].
    destruct (runScript checking _ answers) as [[o s] t]. reflexivity.
  - cbn [Nat.add replicate app waitFor_loop].
    unfold mbind, Script_bind, call. cbn [andThen runScript checking].
    rewrite IH.
    destruct (runScript checking (waitFor_loop attempts message delay) answers)
      as [[o s] t].
    reflexivity.
Qed.

(** X10.  [waitFor] polls one check at a time and waits [interval] after a
    check that fails.  When the answer that follows [failures] failed checks
    comes within [maxAttempts], it decides: if it is [true], [waitFor]
    returns [true], and if the check throws, [waitFor] throws the same; in
    both cases no check and no wait follows.  The options that are left out
    are 30 attempts and 2000 ms. *)
Theorem waitFor_stops_at_the_first_answer (options : WaitOptions)
    (failures : nat) (rest : list (Thrown + bool)) :
  (failures < Z.to_nat (default 30%Z (maxAttempts options)))%nat ->
  let delay := default 2000%Z (interval options) in
  runScript checking (waitFor options) (replicate failures (inr false) ++ inr true :: rest)
  = (inr true, rest, failedAttempts failures delay ++ [CheckFn])
  /\ forall e,
       runScript checking (waitFor options)
                 (replicate failures (inr false) ++ inl e :: rest)
       = (inl e, rest, failedAttempts failures delay ++ [CheckFn]).
Proof.
  intros Hlt delay. unfold waitFor. fold delay.
  set (attempts := Z.to_nat (default 30%Z (maxAttempts options))) in *.
  replace attempts with (failures + S (attempts - S failures))%nat by lia.
  split; [|intros e]; rewrite waitFor_loop_failed; reflexivity.
Qed.

Lemma waitFor_stops_at_the_first_answer_witness :
  runScript checking
    (waitFor {| errorMessage := None; interval := Some 500%Z; maxAttempts := Some 3%Z |})
    [inr false; inr false; inr true; inr true]
  = (inr true, [inr true],
     [CheckFn; SetTimeout 500; CheckFn; SetTimeout 500; CheckFn]).
Proof.
  exact (proj1 (waitFor_stops_at_the_first_answer
                  {| errorMessage := None; interval := Some 500%Z;
                     maxAttempts := Some 3%Z |}
                  2 [inr true] ltac:(cbn; lia))).
Defined.

(** X11.  When the first [maxAttempts] checks all fail, [waitFor] throws an
    [Error] with the message of the options ([Operation timed out] when
    there is none) after exactly [maxAttempts] checks, each followed by a
    wait, the last one included; with [maxAttempts] zero or negative it
    throws at once, without a check. *)
Theorem waitFor_times_out (options : WaitOptions) (rest : list (Thrown + bool)) :
  let attempts := Z.to_nat (default 30%Z (maxAttempts options)) in
  runScript checking (waitFor options) (replicate attempts (inr false) ++ rest)
  = (inl (ErrorObject "Error" (default "Operation timed out" (errorMessage options))),
     rest, failedAttempts attempts (default 2000%Z (interval options)))
  /\ ((default 30 (maxAttempts options) <= 0)%Z ->
      forall answers,
        runScript checking (waitFor options) answers
        = (inl (ErrorObject "Error"
                  (default "Operation timed out" (errorMessage options))),
           answers, [])).
Proof.
  intros attempts. split.
  - unfold waitFor. fold attempts.
    replace attempts with (attempts + 0)%nat at 1 by lia.
    rewrite waitFor_loop_failed. cbn [waitFor_loop runScript].
    rewrite app_nil_r. reflexivity.
  - intros Hnone answers. unfold waitFor.
    replace (Z.to_nat (default 30%Z (maxAttempts options))) with 0%nat by lia.
    reflexivity.
Qed.

(** ** The handlers *)

Lemma runScript_everyRun {Rq : Type} {Rp : Rq -> Type} {St A : Type}
    (allowed : forall r : Rq, Thrown + Rp r -> Prop)
    (handle : St -> forall r : Rq, (Thrown + Rp r) * St)
    (m : Script Rq Rp A) :
  answersWithin allowed handle ->
  forall (P : list Rq -> Thrown + A -> Prop) (s : St),
    everyRun allowed m P ->
    P (runScript handle m s).2 (runScript handle m s).1.1.
Proof.
  intros Hallowed. induction m as [a|e|r k IH]; intros P s Hm; cbn [everyRun runScript] in *;
    try exact Hm.
  pose proof (Hallowed s r) as Hr.
  destruct (handle s r) as [x s1]. cbn [fst] in Hr.
  specialize (IH x (fun t o => P (r :: t) o) s1 (Hm x Hr)).
  destruct (runScript handle (k x) s1) as [[o s2] t]. exact IH.
Qed.

Ltac unfold_script :=
  unfold api, call, pure, logError, mbind, Script_bind, mret, Script_ret in *.

(** One step of the exploration of the runs of a handler. *)
Ltac explore_step :=
  first
    [ progress cbn [everyRun tryCatch andThen]
    | match goal with
      | |- forall x, responding ?r x -> _ =>
          let e := fresh "e" in
          let v := fresh "v" in
          let H := fresh "Hanswer" in
          intros [e|v] H;
          [try (destruct (H eq_refl) as [? [=]])|]
      | |- context [asPath ?P ?v] => destruct (asPath P v) eqn:?
      | |- context [if ?b then _ else _] => destruct b eqn:?
      | |- context [match ?x with Some _ => _ | None => _ end] => destruct x eqn:?
      end ].

Ltac last_is_response :=
  first
    [ exists []; eexists; split; [reflexivity | repeat constructor]
    | eexists [_]; eexists; split; [reflexivity | repeat constructor]
    | eexists [_; _]; eexists; split; [reflexivity | repeat constructor]
    | eexists [_; _; _]; eexists; split; [reflexivity | repeat constructor]
    | eexists [_; _; _; _]; eexists; split; [reflexivity | repeat constructor]
    | eexists [_; _; _; _; _]; eexists; split; [reflexivity | repeat constructor]
    | eexists [_; _; _; _; _; _]; eexists; split; [reflexivity | repeat constructor] ].

(** X16.  As long as writing to the log and sending a response do not throw,
    [applyTemplate] lets no exception escape and answers every request
    exactly once, as the last thing it does: whatever the helpers return or
    throw, the calls of a run end with one response and hold no other. *)
Theorem applyTemplate_responds_once {St : Type}
    (handle : St -> forall r : Api.Call, (Thrown + Api.Reply r) * St)
    (body : gmap string JVal) (s : St) :
  answersWithin responding handle ->
  exists s' calls response,
    runScript handle (applyTemplate body) s
    = (inr tt, s', calls ++ [Api.respond response])
    /\ Forall (fun r => isRespond r = false) calls.
Proof.
  intros Hhandle.
  pose proof (runScript_everyRun responding handle (applyTemplate body) Hhandle
                (fun t o => o = inr tt
                            /\ exists calls response,
                                 t = calls ++ [Api.respond response]
                                 /\ Forall (fun r => isRespond r = false) calls) s)
    as Hrun.
  destruct (runScript handle (applyTemplate body) s) as [[o s'] t].
  cbn [fst snd] in Hrun.
  destruct Hrun as (-> & calls & response & -> & Hcalls).
  - unfold applyTemplate, applyFrom. unfold_script.
    repeat explore_step;
      (split; [match goal with |- inr ?v = _ => destruct v end; reflexivity
              | last_is_response]).
  - exists s', calls, response. split; [reflexivity | exact Hcalls].
Qed.

Lemma everyRun_impl {Rq : Type} {Rp : Rq -> Type} {A : Type}
    (allowed : forall r : Rq, Thrown + Rp r -> Prop) (m : Script Rq Rp A) :
  forall P Q : list Rq -> Thrown + A -> Prop,
    (forall t o, P t o -> Q t o) ->
    everyRun allowed m P -> everyRun allowed m Q.
Proof.
  induction m as [a|e|r k IH]; intros P Q Himp; cbn [everyRun]; auto.
  intros Hm x Hx. eapply IH; [|apply Hm, Hx]. intros t o. apply Himp.
Qed.

Lemma everyRun_True {Rq : Type} {Rp : Rq -> Type} {A : Type}
    (allowed : forall r : Rq, Thrown + Rp r -> Prop) (m : Script Rq Rp A) :
  everyRun allowed m (fun _ _ => True).
Proof.
  induction m as [a|e|r k IH]; cbn [everyRun]; auto.
Qed.

Lemma everyRun_respond {A : Type} (response : HttpResponse)
    (k : Thrown + unit -> Script Api.Call Api.Reply A)
    (P : list Api.Call -> Thrown + A -> Prop) :
  everyRun responding (k (inr tt)) (fun t o => P (Api.respond response :: t) o) ->
  everyRun responding (Call (Api.respond response) k) P.
Proof.
  intros Hk. cbn [everyRun]. intros [e|[]] Hanswer; [|exact Hk].
  destruct (Hanswer eq_refl) as [v [=]].
Qed.

(** X17.  In an environment where writing to the log and sending a response
    do not throw, [applyTemplate] checks the body before it calls anything: without
    [directusUrl], without credentials (a token, or an email and a
    password), or without [templateLocation], the only call of the run is a
    400 response with the message of the first check that fails; otherwise
    the first call is [initializeDirectusApi] with the four values of the
    body.  A value that JavaScript takes for false (an empty string, [null],
    0) counts as missing. *)
Theorem applyTemplate_validates_before_any_call {St : Type}
    (handle : St -> forall r : Api.Call, (Thrown + Api.Reply r) * St)
    (body : gmap string JVal) (s : St) :
  answersWithin responding handle ->
  let calls := (runScript handle (applyTemplate body) s).2 in
  let given name := truthyValue (getProp body name) in
  (given "directusUrl" = false ->
   calls = [Api.respond (badRequest "directusUrl is required")])
  /\ (given "directusUrl" = true ->
      given "directusToken" = false ->
      given "userEmail" && given "userPassword" = false ->
      calls = [Api.respond
                 (badRequest "Either directusToken or both userEmail and userPassword are required")])
  /\ (given "directusUrl" = true ->
      given "directusToken" || given "userEmail" && given "userPassword" = true ->
      given "templateLocation" = false ->
      calls = [Api.respond (badRequest "templateLocation is required")])
  /\ (given "directusUrl" = true ->
      given "directusToken" || given "userEmail" && given "userPassword" = true ->
      given "templateLocation" = true ->
      exists rest,
        calls = Api.initializeDirectusApi
                  (getProp body "directusToken") (getProp body "directusUrl")
                  (getProp body "userEmail") (getProp body "userPassword") :: rest).
Proof.
  intros Hhandle calls given. subst calls given. cbv beta.
  assert (forall P : list Api.Call -> Thrown + unit -> Prop,
            everyRun responding (applyTemplate body) P ->
            P (runScript handle (applyTemplate body) s).2
              (runScript handle (applyTemplate body) s).1.1) as Hrun.
  { intros P. apply runScript_everyRun. exact Hhandle. }
  unfold applyTemplate, missingCredentials in Hrun. unfold_script.
  split; [|split; [|split]].
  - intros Hurl. apply (Hrun (fun t _ => t = _)). rewrite Hurl.
    cbn [negb tryCatch]. apply everyRun_respond. reflexivity.
  - intros Hurl Htoken Hpair. apply (Hrun (fun t _ => t = _)). rewrite Hurl, Htoken.
    apply andb_false_iff in Hpair.
    replace (negb (truthyValue (getProp body "userEmail"))
             || negb (truthyValue (getProp body "userPassword"))) with true
      by (destruct Hpair as [-> | ->]; rewrite ?orb_true_r; reflexivity).
    cbn [negb andb tryCatch]. apply everyRun_respond. reflexivity.
  - intros Hurl Hcredentials Hlocation. apply (Hrun (fun t _ => t = _)).
    rewrite Hurl, Hlocation.
    replace (negb (truthyValue (getProp body "directusToken"))
             && (negb (truthyValue (getProp body "userEmail"))
                 || negb (truthyValue (getProp body "userPassword"))))
      with false
      by (rewrite <- negb_andb, <- negb_orb, Hcredentials; reflexivity).
    cbn [negb tryCatch]. apply everyRun_respond. reflexivity.
  - intros Hurl Hcredentials Hlocation.
    apply (Hrun (fun t _ => exists rest, t = _ :: rest)).
    rewrite Hurl, Hlocation.
    replace (negb (truthyValue (getProp body "directusToken"))
             && (negb (truthyValue (getProp body "userEmail"))
                 || negb (truthyValue (getProp body "userPassword"))))
      with false
      by (rewrite <- negb_andb, <- negb_orb, Hcredentials; reflexivity).
    cbn [negb tryCatch andThen everyRun]. intros x _.
    eapply everyRun_impl; [|apply everyRun_True].
    intros t o _. eexists. reflexivity.
Qed.

Lemma strictEquals_eq (a b : JVal) : strictEquals a b = true -> a = b.
Proof. apply sameValueZero_eq. Qed.

(** The places of a call in a list of calls that is known. *)
Ltac find_call H :=
  repeat
    match type of H with
    | [] = ?before ++ _ :: _ => destruct before; discriminate H
    | _ :: _ = ?before ++ _ :: _ =>
        let r := fresh "r" in
        destruct before as [|r before]; cbn [app] in H;
        [ first [ discriminate H | injection H as H ]
        | let Hhead := fresh "Hhead" in injection H as Hhead H; subst r ]
    end.

Lemma applyFlagsOf_capability (body : gmap string JVal) (templateType : JVal)
    (capability : string) :
  capability ∈ capabilities ->
  exists value,
    applyFlagsOf body templateType !! capability = Some (JBool value)
    /\ (value = false <-> body !! capability = Some (JBool false)).
Proof.
  intros Hin.
  destruct (buildBooleanDefaults_true_unless_false body capabilities capability)
    as (_ & Hvalue & _).
  destruct (Hvalue Hin) as (value & Hlookup & Hfalse).
  exists value. split; [|exact Hfalse].
  unfold applyFlagsOf. cbv zeta. cbn [list_to_map foldr fst snd uncurry].
  unfold capabilities in Hin.
  repeat (apply elem_of_cons in Hin as [-> | Hin];
          [repeat (rewrite lookup_insert_ne by discriminate);
           rewrite lookup_insert_eq, Hlookup; reflexivity|]).
  inversion Hin.
Qed.

(** X18.  Whatever the helpers return or throw, the flags that
    [applyTemplate] hands to [validateApplyFlags] are built from the body
    with [templateType] one of [local], [community] and [github]: every
    capability is [true] unless the body holds the boolean [false] for it,
    [programmatic] is [true], and a missing token, email or password is the
    empty string.  [apply] is called only right after the validation, and
    only a log entry and the response follow it. *)
Theorem applyTemplate_applies_validated_flags {St : Type}
    (handle : St -> forall r : Api.Call, (Thrown + Api.Reply r) * St)
    (body : gmap string JVal) (s : St) :
  (forall flags,
     Api.validateApplyFlags flags ∈ (runScript handle (applyTemplate body) s).2 ->
     exists templateType,
       templateType ∈ ["local"; "community"; "github"]
       /\ flags = applyFlagsOf body (JStr templateType))
  /\ (forall before templateDir flags after,
        (runScript handle (applyTemplate body) s).2
        = before ++ Api.apply templateDir flags :: after ->
        (exists before' submitted,
           before = before' ++ [Api.validateApplyFlags submitted])
        /\ Forall (fun r => isRespond r || isLog r = true) after)
  /\ (forall templateType,
        let flags := applyFlagsOf body templateType in
        flags !! "programmatic" = Some (JBool true)
        /\ flags !! "templateType" = Some templateType
        /\ flags !! "directusToken"
           = Some (orElse (getProp body "directusToken") (JStr ""))
        /\ flags !! "userEmail" = Some (orElse (getProp body "userEmail") (JStr ""))
        /\ flags !! "userPassword"
           = Some (orElse (getProp body "userPassword") (JStr ""))
        /\ forall capability,
             capability ∈ capabilities ->
             exists value,
               flags !! capability = Some (JBool value)
               /\ (value = false <-> body !! capability = Some (JBool false))).
Proof.
  assert (answersWithin (fun _ _ => True) handle) as Hhandle by (intros ? ?; exact I).
  split; [|split].
  - apply (runScript_everyRun _ handle (applyTemplate body) Hhandle
             (fun t _ => forall flags,
                           Api.validateApplyFlags flags ∈ t ->
                           exists templateType,
                             templateType ∈ ["local"; "community"; "github"]
                             /\ flags = applyFlagsOf body (JStr templateType))).
    unfold applyTemplate, applyFrom. unfold_script.
    repeat first
      [ progress cbn [everyRun tryCatch andThen]
      | match goal with
        | |- forall x, True -> _ => intros [?|?] _
        | |- context [if ?b then _ else _] => destruct b eqn:?
        | |- context [match ?x with Some _ => _ | None => _ end] => destruct x eqn:?
        end ];
      intros flags Hin;
      repeat (apply elem_of_cons in Hin as [Hin | Hin]; [try discriminate Hin|]);
      try (inversion Hin; fail);
      injection Hin as ->;
      repeat match goal with
             | H : strictEquals _ _ = true |- _ =>
                 apply strictEquals_eq in H; rewrite H
             end;
      eexists; (split; [|reflexivity]); set_solver.
  - apply (runScript_everyRun _ handle (applyTemplate body) Hhandle
             (fun t _ => forall before templateDir flags after,
                           t = before ++ Api.apply templateDir flags :: after ->
                           (exists before' submitted,
                              before = before' ++ [Api.validateApplyFlags submitted])
                           /\ Forall (fun r => isRespond r || isLog r = true) after)).
    unfold applyTemplate, applyFrom. unfold_script.
    repeat first
      [ progress cbn [everyRun tryCatch andThen]
      | match goal with
        | |- forall x, True -> _ => intros [?|?] _
        | |- context [if ?b then _ else _] => destruct b eqn:?
        | |- context [match ?x with Some _ => _ | None => _ end] => destruct x eqn:?
        end ];
      intros before templateDir flags after Hcalls;
      find_call Hcalls; subst;
      (split; [first [ exists []; eexists; reflexivity
                     | eexists [_]; eexists; reflexivity
                     | eexists [_; _]; eexists; reflexivity
                     | eexists [_; _; _]; eexists; reflexivity ]
              | repeat constructor]).
  - intros templateType flags. subst flags.
    repeat split;
      try (unfold applyFlagsOf; cbv zeta; cbn [list_to_map foldr fst snd uncurry];
           repeat (rewrite lookup_insert_ne by discriminate);
           rewrite lookup_insert_eq; reflexivity).
    intros capability. apply applyFlagsOf_capability.
Qed.

Lemma serveApi_responding : answersWithin responding serveApi.
Proof.
  intros s r Hr. destruct r; try discriminate Hr; exists tt; reflexivity.
Qed.

Lemma applyTemplate_responds_once_witness :
  exists s' calls response,
    runScript serveApi (applyTemplate demoApplyBody) []
    = (inr tt, s', calls ++ [Api.respond response])
    /\ Forall (fun r => isRespond r = false) calls.
Proof.
  exact (applyTemplate_responds_once serveApi demoApplyBody [] serveApi_responding).
Defined.

Lemma applyTemplate_validates_before_any_call_witness :
  (runScript serveApi (applyTemplate (delete "directusToken" demoApplyBody)) []).2
  = [Api.respond
       (badRequest "Either directusToken or both userEmail and userPassword are required")].
Proof.
  destruct (applyTemplate_validates_before_any_call serveApi
              (delete "directusToken" demoApplyBody) [] serveApi_responding)
    as (_ & Hcredentials & _).
  apply Hcredentials; reflexivity.
Defined.

(** X19.  In an environment where writing to the log and sending a response
    do not throw, [extractTemplate] checks the body before it calls anything:
    without [directusUrl], without credentials, without [templateName], or
    with neither [returnArchive] nor [templateLocation], the only call of
    the run is a 400 response with the message of the first check that
    fails; otherwise the first call is [initializeDirectusApi].  A
    [templateLocation] is not asked for when [returnArchive] is set. *)
Theorem extractTemplate_validates_before_any_call {St : Type}
    (handle : St -> forall r : Api.Call, (Thrown + Api.Reply r) * St)
    (P : Platform) (body : gmap string JVal) (s : St) :
  answersWithin responding handle ->
  let calls := (runScript handle (extractTemplate P body) s).2 in
  let given name := truthyValue (getProp body name) in
  (given "directusUrl" = false ->
   calls = [Api.respond (badRequest "directusUrl is required")])
  /\ (given "directusUrl" = true ->
      given "directusToken" = false ->
      given "userEmail" && given "userPassword" = false ->
      calls = [Api.respond
                 (badRequest "Either directusToken or both userEmail and userPassword are required")])
  /\ (given "directusUrl" = true ->
      given "directusToken" || given "userEmail" && given "userPassword" = true ->
      given "templateName" = false ->
      calls = [Api.respond (badRequest "templateName is required")])
  /\ (given "directusUrl" = true ->
      given "directusToken" || given "userEmail" && given "userPassword" = true ->
      given "templateName" = true ->
      given "returnArchive" = false ->
      given "templateLocation" = false ->
      calls = [Api.respond
                 (badRequest "templateLocation is required when returnArchive is not set")])
  /\ (given "directusUrl" = true ->
      given "directusToken" || given "userEmail" && given "userPassword" = true ->
      given "templateName" = true ->
      given "returnArchive" || given "templateLocation" = true ->
      exists rest,
        calls = Api.initializeDirectusApi
                  (getProp body "directusToken") (getProp body "directusUrl")
                  (getProp body "userEmail") (getProp body "userPassword") :: rest).
Proof.
  intros Hhandle calls given. subst calls given. cbv beta.
  assert (forall Q : list Api.Call -> Thrown + unit -> Prop,
            everyRun responding (extractTemplate P body) Q ->
            Q (runScript handle (extractTemplate P body) s).2
              (runScript handle (extractTemplate P body) s).1.1) as Hrun.
  { intros Q. apply runScript_everyRun. exact Hhandle. }
  unfold extractTemplate, extractPrologue, missingCredentials in Hrun. unfold_script.
  assert (forall a b c,
            a || b && c = true -> negb a && (negb b || negb c) = false) as Hgiven
    by (intros [] [] []; cbn; congruence).
  split; [|split; [|split; [|split]]].
  - intros Hurl. apply (Hrun (fun t _ => t = _)). rewrite Hurl.
    cbn [negb tryCatch andThen]. apply everyRun_respond. reflexivity.
  - intros Hurl Htoken Hpair. apply (Hrun (fun t _ => t = _)). rewrite Hurl, Htoken.
    apply andb_false_iff in Hpair.
    replace (negb (truthyValue (getProp body "userEmail"))
             || negb (truthyValue (getProp body "userPassword"))) with true
      by (destruct Hpair as [-> | ->]; rewrite ?orb_true_r; reflexivity).
    cbn [negb andb tryCatch andThen]. apply everyRun_respond. reflexivity.
  - intros Hurl Hcredentials Hname. apply (Hrun (fun t _ => t = _)).
    rewrite Hurl, Hname, (Hgiven _ _ _ Hcredentials).
    cbn [negb tryCatch andThen]. apply everyRun_respond. reflexivity.
  - intros Hurl Hcredentials Hname Harchive Hlocation.
    apply (Hrun (fun t _ => t = _)).
    rewrite Hurl, Hname, Harchive, Hlocation, (Hgiven _ _ _ Hcredentials).
    cbn [negb andb tryCatch andThen]. apply everyRun_respond. reflexivity.
  - intros Hurl Hcredentials Hname Hmode.
    apply (Hrun (fun t _ => exists rest, t = _ :: rest)).
    rewrite Hurl, Hname, (Hgiven _ _ _ Hcredentials).
    replace (negb (truthyValue (getProp body "returnArchive"))
             && negb (truthyValue (getProp body "templateLocation"))) with false
      by (rewrite <- negb_orb, Hmode; reflexivity).
    cbn [negb tryCatch andThen everyRun]. intros x _.
    eapply everyRun_impl; [|apply everyRun_True].
    intros t o _. eexists. reflexivity.
Qed.

Lemma ends_with {A : Type} (l : list A) (a b : A) :
  take 2 (rev l) = [b; a] -> exists front, l = front ++ [a; b].
Proof.
  intros Hlast. rewrite <- (rev_involutive l).
  destruct (rev l) as [|x [|y rest]]; try discriminate.
  cbn [take] in Hlast. injection Hlast as -> ->.
  exists (rev rest). cbn [rev]. rewrite <- app_assoc. reflexivity.
Qed.

(** One step of the exploration of the runs of [extractTemplate] in a tidy
    environment. *)
Ltac explore_tidy :=
  first
    [ progress cbn [everyRun tryCatch andThen]
    | match goal with
      | |- forall x, tidy _ (Api.respond _) x -> _ =>
          let H := fresh "Hanswer" in intros ? H; cbn [tidy] in H; subst
      | |- forall x, tidy _ (Api.log _ _ _) x -> _ =>
          let H := fresh "Hanswer" in intros ? H; cbn [tidy] in H; subst
      | |- forall x, tidy _ (Api.mkdtempSync _) x -> _ =>
          let H := fresh "Hanswer" in intros ? H; cbn [tidy] in H; subst
      | |- forall x, tidy ?d (Api.rmSync ?d) x -> _ =>
          let H := fresh "Hanswer" in
          intros ? H; cbn [tidy] in H; specialize (H eq_refl); subst
      | |- forall x, tidy ?d (Api.existsSync ?d) x -> _ =>
          let H := fresh "Hanswer" in
          intros ? H; cbn [tidy] in H; specialize (H eq_refl); subst
      | |- forall x, tidy _ _ x -> _ => intros [?|?] _
      | |- context [asPath ?P ?v] => destruct (asPath P v) eqn:?
      | |- context [if ?b then _ else _] => destruct b eqn:?
      end ].

(** X20.  In an environment where the temporary directory is created,
    found and removed without an exception and where writing to the log and
    sending a response do not throw, [extractTemplate] lets no exception escape and answers every
    request exactly once.  When it has created the temporary directory (the
    archive mode), the last two calls of the run besides the response and the
    log entry are looking for that directory and removing it, whether the extraction
    succeeded or failed; when it has not, it removes nothing. *)
Theorem extractTemplate_cleans_up {St : Type}
    (handle : St -> forall r : Api.Call, (Thrown + Api.Reply r) * St)
    (P : Platform) (body : gmap string JVal) (tempDir : string) (s : St) :
  answersWithin (tidy tempDir) handle ->
  tempDir <> "" ->
  exists s' calls,
    runScript handle (extractTemplate P body) s = (inr tt, s', calls)
    /\ length (List.filter isRespond calls) = 1%nat
    /\ ((exists prefix, Api.mkdtempSync prefix ∈ calls) ->
        exists front,
          otherCalls calls = front ++ [Api.existsSync tempDir; Api.rmSync tempDir])
    /\ ((forall prefix, Api.mkdtempSync prefix ∉ calls) ->
        forall dir, Api.rmSync dir ∉ calls).
Proof.
  intros Hhandle Hnamed.
  assert (truthy tempDir = true) as Htruthy
    by (unfold truthy; apply negb_true_iff, String.eqb_neq; exact Hnamed).
  set (Q := fun (t : list Api.Call) (o : Thrown + unit) =>
              o = inr tt
              /\ length (List.filter isRespond t) = 1%nat
              /\ (if existsb (fun r => match r with
                                       | Api.mkdtempSync _ => true
                                       | _ => false
                                       end) t
                  then take 2 (rev (otherCalls t))
                       = [Api.rmSync tempDir; Api.existsSync tempDir]
                  else forallb (fun r => match r with
                                         | Api.rmSync _ => false
                                         | _ => true
                                         end) t = true)).
  pose proof (runScript_everyRun (tidy tempDir) handle (extractTemplate P body) Hhandle
                Q s) as Hrun.
  destruct (runScript handle (extractTemplate P body) s) as [[o s'] t].
  cbn [fst snd] in Hrun.
  destruct Hrun as (-> & Honce & Hclean).
  - unfold extractTemplate, extractPrologue, extractArchive, extractToDisk,
      extractInto, createTarGzArchive, createTarArchive, removeDirectory.
    unfold_script.
    repeat explore_tidy; try discriminate Htruthy;
      subst Q; cbv beta;
      (split; [match goal with
               | |- inr ?v = _ => first [reflexivity | destruct v; reflexivity]
               end
              | split; reflexivity]).
  - exists s', t. split; [reflexivity|]. split; [exact Honce|]. split.
    + intros [prefix Hin].
      replace (existsb _ t) with true in Hclean.
      * apply ends_with, Hclean.
      * symmetry. apply existsb_exists. exists (Api.mkdtempSync prefix).
        split; [apply list_elem_of_In, Hin | reflexivity].
    + intros Hnone dir Hin.
      destruct (existsb _ t) eqn:Hmade.
      * apply existsb_exists in Hmade as ([] & Hr & Hkind); try discriminate.
        eapply Hnone, list_elem_of_In, Hr.
      * rewrite forallb_forall in Hclean.
        specialize (Hclean _ (proj1 (list_elem_of_In _ _) Hin)). discriminate.
Qed.

Lemma serveApi_tidy : answersWithin (tidy "/tmp/t") serveApi.
Proof.
  intros s r. destruct r; cbn [tidy serveApi fst]; try exact I; try reflexivity.
  all: intros ->; reflexivity.
Qed.

Lemma extractTemplate_cleans_up_witness :
  exists s' calls,
    runScript serveApi (extractTemplate demoPlatform demoExtractBody) []
    = (inr tt, s', calls)
    /\ length (List.filter isRespond calls) = 1%nat.
Proof.
  destruct (extractTemplate_cleans_up serveApi demoPlatform demoExtractBody "/tmp/t" []
              serveApi_tidy ltac:(discriminate))
    as (s' & calls & Hrun & Honce & _).
  exists s', calls. split; [exact Hrun | exact Honce].
Defined.

Lemma extractTemplate_validates_before_any_call_witness :
  exists rest,
    (runScript serveApi (extractTemplate demoPlatform demoExtractBody) []).2
    = Api.initializeDirectusApi (JStr "token") (JStr "http://localhost:8055")
        JUndef JUndef :: rest.
Proof.
  destruct (extractTemplate_validates_before_any_call serveApi demoPlatform
              demoExtractBody [] serveApi_responding)
    as (_ & _ & _ & _ & Hvalid).
  apply Hvalid; reflexivity.
Defined.

(** ** The archive *)

Lemma substring_prefix (p s : string) :
  String.substring 0 (String.length p) (p +:+ s) = p.
Proof.
  induction p as [|c p IH]; [destruct s; reflexivity|].
  change (String c p +:+ s) with (String c (p +:+ s)). cbn [String.length String.substring].
  rewrite IH. reflexivity.
Qed.

Lemma substring_split (k : nat) (s : string) :
  (k <= String.length s)%nat ->
  String.substring 0 k s +:+ String.substring k (String.length s - k) s = s.
Proof.
  revert k. induction s as [|c s IH]; intros k Hk.
  - destruct k; [reflexivity | cbn in Hk; lia].
  - destruct k as [|k].
    + cbn [String.length]. rewrite Nat.sub_0_r.
      change (String.substring 0 0 (String c s)) with "".
      change ("" +:+ ?x) with x. exact (substring_all (String c s)).
    + cbn [String.length String.substring Nat.sub] in *.
      change (String c ?a +:+ ?b) with (String c (a +:+ b)).
      rewrite IH by lia. reflexivity.
Qed.

Lemma length_append (p s : string) :
  String.length (p +:+ s) = (String.length p + String.length s)%nat.
Proof.
  induction p as [|c p IH]; [reflexivity|].
  change (String c p +:+ s) with (String c (p +:+ s)). cbn [String.length].
  rewrite IH. reflexivity.
Qed.

Lemma withoutGzSuffix_append (base : string) : withoutGzSuffix (base +:+ ".gz") = base.
Proof.
  unfold withoutGzSuffix. cbv zeta. rewrite length_append.
  change (String.length ".gz") with 3%nat.
  replace (String.length base + 3 - 3)%nat with (String.length base) by lia.
  replace (3 <=? String.length base + 3)%nat with true
    by (symmetry; apply Nat.leb_le; lia).
  pose proof (substring_append base ".gz") as Hsuffix.
  rewrite length_append in Hsuffix.
  replace (String.length base + String.length ".gz" - String.length base)%nat
    with 3%nat in Hsuffix by (cbn; lia).
  rewrite Hsuffix, String.eqb_refl. cbn [andb]. apply substring_prefix.
Qed.

Lemma withoutGzSuffix_cases (outputPath : string) :
  withoutGzSuffix outputPath = outputPath
  \/ outputPath = withoutGzSuffix outputPath +:+ ".gz".
Proof.
  unfold withoutGzSuffix. cbv zeta.
  destruct (3 <=? String.length outputPath)%nat eqn:Hlong; [|left; reflexivity].
  destruct (String.eqb _ ".gz") eqn:Hsuffix; [|left; reflexivity].
  right. cbn [andb]. apply Nat.leb_le in Hlong. apply String.eqb_eq in Hsuffix.
  pose proof (substring_split (String.length outputPath - 3) outputPath ltac:(lia))
    as Hsplit.
  replace (String.length outputPath - (String.length outputPath - 3))%nat
    with 3%nat in Hsplit by lia.
  rewrite Hsuffix in Hsplit. symmetry. exact Hsplit.
Qed.

(** X21.  [createTarGzArchive] makes the tar file at the output path
    without its [.gz] ending, gzips it into the output path and removes the
    tar file, in this order, stopping at the first call that throws.  For an
    output path that ends in [.gz] the tar file is another file than the
    output; for any other output path the tar file is the output itself: it
    is gzipped onto itself and the last call removes it. *)
Theorem createTarGzArchive_removes_the_tar_file {St : Type}
    (handle : St -> forall r : Api.Call, (Thrown + Api.Reply r) * St)
    (P : Platform) (sourceDir outputPath : string) (s : St) :
  let tarPath := withoutGzSuffix outputPath in
  let steps :=
    [Api.execAsync
       ("tar -cf " +:+ doubleQuote +:+ tarPath +:+ doubleQuote
        +:+ " -C " +:+ doubleQuote +:+ path_dirname P sourceDir +:+ doubleQuote
        +:+ " " +:+ doubleQuote +:+ path_basename P sourceDir +:+ doubleQuote);
     Api.gzipPipeline tarPath outputPath;
     Api.unlinkSync tarPath] in
  (runScript handle (createTarGzArchive P sourceDir outputPath) s).2 `prefix_of` steps
  /\ ((runScript handle (createTarGzArchive P sourceDir outputPath) s).1.1 = inr tt ->
      (runScript handle (createTarGzArchive P sourceDir outputPath) s).2 = steps)
  /\ (forall base, withoutGzSuffix (base +:+ ".gz") = base)
  /\ (tarPath = outputPath \/ outputPath = tarPath +:+ ".gz").
Proof.
  intros tarPath steps.
  split; [|split; [|split]].
  - unfold createTarGzArchive, createTarArchive. unfold_script.
    cbn [andThen runScript]. fold tarPath.
    destruct (handle s _) as [[e|[]] s1]; cbn [andThen runScript snd];
      [apply prefix_cons, prefix_nil|].
    destruct (handle s1 _) as [[e|[]] s2]; cbn [andThen runScript snd];
      [apply prefix_cons, prefix_cons, prefix_nil|].
    destruct (handle s2 _) as [[e|[]] s3]; cbn [andThen runScript snd]; reflexivity.
  - unfold createTarGzArchive, createTarArchive. unfold_script.
    cbn [andThen runScript]. fold tarPath.
    destruct (handle s _) as [[e|[]] s1]; cbn [andThen runScript fst snd];
      [discriminate|].
    destruct (handle s1 _) as [[e|[]] s2]; cbn [andThen runScript fst snd];
      [discriminate|].
    destruct (handle s2 _) as [[e|[]] s3]; cbn [andThen runScript fst snd];
      [discriminate | reflexivity].
  - apply withoutGzSuffix_append.
  - apply withoutGzSuffix_cases.
Qed.

(** * The field and relation extractors *)

Lemma elem_of_extensionCollectionNamesOf (collections : list Collection)
    (name : string) :
  name ∈ extensionCollectionNamesOf collections
  <-> exists c, c ∈ collections /\ collection c = name /\ inExtensionsGroup c = true.
Proof.
  unfold extensionCollectionNamesOf.
  rewrite elem_of_list_to_set, list_elem_of_fmap. split.
  - intros (c & -> & Hc). apply list_elem_of_In, filter_In in Hc as [Hin Hgroup].
    exists c. split; [apply list_elem_of_In, Hin | auto].
  - intros (c & Hin & <- & Hgroup). exists c. split; [reflexivity|].
    apply list_elem_of_In, filter_In. split; [apply list_elem_of_In, Hin | exact Hgroup].
Qed.

Lemma extensionCollectionNamesOf_existsb (collections : list Collection)
    (name : string) :
  bool_decide (name ∈ extensionCollectionNamesOf collections)
  = existsb (fun c => String.eqb (collection c) name && inExtensionsGroup c)
            collections.
Proof.
  apply eq_true_iff_eq.
  rewrite bool_decide_eq_true, elem_of_extensionCollectionNamesOf, existsb_exists.
  split.
  - intros (c & Hin & <- & Hgroup). exists c.
    split; [apply list_elem_of_In, Hin|]. rewrite String.eqb_refl, Hgroup. reflexivity.
  - intros (c & Hin & Hboth). apply andb_true_iff in Hboth as [Hname Hgroup].
    apply String.eqb_eq in Hname. exists c.
    split; [apply list_elem_of_In, Hin | split; assumption].
Qed.

(** X12.  When the instance answers and the response is an array,
    [extractFields] reads the collections, reads the fields and writes one
    blob, [fields].  The blob holds, in the order of the response, the fields
    that have a [meta] that is not marked [system] and whose collection is
    not a collection of the [_extensions] group, each without the [id] of its
    [meta] and otherwise as it came; a field whose [meta] is [null] is left
    out. *)
Theorem extractFields_writes_the_custom_fields {St : Type}
    (handle : St -> forall r : Sdk.Call, (Thrown + Sdk.Reply r) * St)
    (dir : string) (collections : list Collection) (response : list FieldRow)
    (s s1 s2 s3 : St) :
  let kept :=
    List.filter
      (fun row =>
         bool_decide (is_Some (row_meta row)) && negb (isSystem row)
         && negb (existsb (fun c => String.eqb (collection c) (row_collection row)
                                    && inExtensionsGroup c) collections))
      response in
  let written :=
    (fun row =>
       {| row_collection := row_collection row;
          row_field := row_field row;
          row_meta := delete "id" <$> row_meta row;
          row_other := row_other row |}) <$> kept in
  handle s Sdk.readCollections = (inr collections, s1) ->
  handle s1 Sdk.readFields = (inr (FieldsArray response), s2) ->
  handle s2 (Sdk.writeToFile "fields" (FieldsBlob written) dir) = (inr tt, s3) ->
  runScript handle (extractFields dir) s
  = (inr tt, s3,
     [Sdk.readCollections; Sdk.readFields;
      Sdk.writeToFile "fields" (FieldsBlob written) dir])
  /\ Forall (fun field => exists m, row_meta field = Some m /\ m !! "id" = None)
            written
  /\ (forall row, row_meta row = None -> row ∉ kept).
Proof.
  intros kept written Hcollections Hfields Hwrite.
  assert (extractedFields collections response = written) as Hwritten.
  { unfold extractedFields, written, kept. cbv zeta.
    rewrite filter_filter_andb. f_equal. apply List.filter_ext. intros row.
    rewrite extensionCollectionNamesOf_existsb. reflexivity. }
  split; [|split].
  - unfold extractFields. rewrite runScript_tryCatch.
    unfold mbind, Script_bind, call. cbn [andThen runScript].
    rewrite Hcollections. cbn [andThen runScript]. rewrite Hfields.
    cbn [andThen runScript]. rewrite Hwritten, Hwrite. reflexivity.
  - apply Forall_fmap, Forall_forall. intros row Hrow.
    apply list_elem_of_In, filter_In in Hrow as [_ Hkeep].
    apply andb_true_iff in Hkeep as [Hkeep _].
    apply andb_true_iff in Hkeep as [Hmeta _].
    apply bool_decide_eq_true_1 in Hmeta as [m Hm].
    exists (delete "id" m). cbn. rewrite Hm.
    split; [reflexivity | apply lookup_delete_eq].
  - intros row Hnone Hrow.
    apply list_elem_of_In, filter_In in Hrow as [_ Hkeep].
    apply andb_true_iff in Hkeep as [Hkeep _].
    apply andb_true_iff in Hkeep as [Hmeta _].
    apply bool_decide_eq_true_1 in Hmeta as [m Hm]. congruence.
Qed.

(** X13.  Whatever goes wrong in [extractFields] goes to the error-capture
    point with [fatal: true] and the operation name, and no blob is written:
    a response of [readFields] that is no array is the [TypeError]
    [Unexpected response format]; when the collections cannot be read the
    fields are not asked for. *)
Theorem extractFields_failures_are_fatal {St : Type}
    (handle : St -> forall r : Sdk.Call, (Thrown + Sdk.Reply r) * St)
    (dir : string) (s : St) :
  let context := [("operation", JStr "extractFields")] in
  (forall error s1,
     handle s Sdk.readCollections = (inl error, s1) ->
     runScript handle (extractFields dir) s
     = (let '(o, s2) := handle s1 (Sdk.catchError error context true) in
        (o, s2, [Sdk.readCollections; Sdk.catchError error context true])))
  /\ (forall collections s1 error s2,
        handle s Sdk.readCollections = (inr collections, s1) ->
        handle s1 Sdk.readFields = (inl error, s2) ->
        runScript handle (extractFields dir) s
        = (let '(o, s3) := handle s2 (Sdk.catchError error context true) in
           (o, s3, [Sdk.readCollections; Sdk.readFields;
                    Sdk.catchError error context true])))
  /\ (forall collections s1 v s2,
        handle s Sdk.readCollections = (inr collections, s1) ->
        handle s1 Sdk.readFields = (inr (NotAnArray v), s2) ->
        let error := ErrorObject "TypeError" "Unexpected response format" in
        runScript handle (extractFields dir) s
        = (let '(o, s3) := handle s2 (Sdk.catchError error context true) in
           (o, s3, [Sdk.readCollections; Sdk.readFields;
                    Sdk.catchError error context true]))).
Proof.
  intros context. unfold extractFields, mbind, Script_bind, call.
  split; [|split].
  - intros error s1 H1. cbn [andThen tryCatch runScript]. rewrite H1.
    cbn [andThen tryCatch runScript].
    destruct (handle s1 _) as [[e|[]] s2]; reflexivity.
  - intros collections s1 error s2 H1 H2. cbn [andThen tryCatch runScript].
    rewrite H1. cbn [andThen tryCatch runScript]. rewrite H2.
    cbn [andThen tryCatch runScript].
    destruct (handle s2 _) as [[e|[]] s3]; reflexivity.
  - intros collections s1 v s2 H1 H2. cbv zeta. cbn [andThen tryCatch runScript].
    rewrite H1. cbn [andThen tryCatch runScript]. rewrite H2.
    cbn [andThen tryCatch runScript].
    destruct (handle s2 _) as [[e|[]] s3]; reflexivity.
Qed.

Lemma mapM_withoutRelationId (relations : list Relation) :
  mapM withoutRelationId relations
  = if forallb (fun relation => bool_decide (is_Some (rel_meta relation))) relations
    then Some (stripped <$> relations)
    else None.
Proof.
  induction relations as [|relation relations IH]; [reflexivity|].
  cbn [mapM forallb fmap list_fmap]. rewrite IH.
  unfold withoutRelationId, stripped. destruct (rel_meta relation) as [m|].
  - rewrite bool_decide_eq_true_2 by eauto. cbn [andb mbind option_bind].
    destruct (forallb _ relations); reflexivity.
  - rewrite bool_decide_eq_false_2 by (intros [? ?]; discriminate). reflexivity.
Qed.

(** X14.  When the instance answers, [extractRelations] reads the
    collections, the relations and the fields, in this order.  It keeps a
    relation of the response when its collection is outside [directus_] or
    has a field of the relation's name that is not marked [system] (a field
    without [meta] counts), and neither its collection nor its related
    collection is a collection of the [_extensions] group.  When every
    relation that it keeps has a [meta], it writes one blob, [relations],
    with the kept relations in the order of the response, each without the
    [id] of its [meta].  When a kept relation has no [meta], removing the
    [id] throws a [TypeError], which goes to the error-capture point with
    [fatal: true], and no blob is written. *)
Theorem extractRelations_writes_the_custom_relations {St : Type}
    (handle : St -> forall r : Sdk.Call, (Thrown + Sdk.Reply r) * St)
    (dir : string) (collections : list Collection) (response : list Relation)
    (fields : list FieldRow) (s s1 s2 s3 : St) :
  let inExtensions name :=
    existsb (fun c => String.eqb (collection c) name && inExtensionsGroup c)
            collections in
  let custom relation :=
    existsb (fun f => negb (isSystem f)
                      && String.eqb (row_collection f) (rel_collection relation)
                      && String.eqb (row_field f) (rel_field relation))
            fields in
  let kept :=
    List.filter
      (fun relation =>
         (negb (String.prefix "directus_" (rel_collection relation)) || custom relation)
         && negb (inExtensions (rel_collection relation))
         && negb (inExtensions (default "" (related_collection relation))))
      response in
  let written :=
    (fun relation =>
       {| rel_collection := rel_collection relation;
          rel_field := rel_field relation;
          related_collection := related_collection relation;
          rel_meta := delete "id" <$> rel_meta relation |}) <$> kept in
  let error := ErrorObject "TypeError" "Cannot convert undefined or null to object" in
  let context := [("operation", JStr "extractRelations")] in
  handle s Sdk.readCollections = (inr collections, s1) ->
  handle s1 Sdk.readRelations = (inr response, s2) ->
  handle s2 Sdk.readFields = (inr (FieldsArray fields), s3) ->
  (Forall (fun relation => is_Some (rel_meta relation)) kept ->
   forall s4,
     handle s3 (Sdk.writeToFile "relations" (RelationsBlob written) dir) = (inr tt, s4) ->
     runScript handle (extractRelations dir) s
     = (inr tt, s4,
        [Sdk.readCollections; Sdk.readRelations; Sdk.readFields;
         Sdk.writeToFile "relations" (RelationsBlob written) dir]))
  /\ (~ Forall (fun relation => is_Some (rel_meta relation)) kept ->
      runScript handle (extractRelations dir) s
      = (let '(o, s4) := handle s3 (Sdk.catchError error context true) in
         (o, s4,
          [Sdk.readCollections; Sdk.readRelations; Sdk.readFields;
           Sdk.catchError error context true]))).
Proof.
  intros inExtensions custom kept written error context Hcollections Hrelations Hfields.
  assert (extractedRelations collections response fields
          = if forallb (fun relation => bool_decide (is_Some (rel_meta relation))) kept
            then Some written else None) as Hextracted.
  { unfold extractedRelations. cbv zeta. rewrite filter_filter_andb.
    replace (List.filter _ response) with kept; [apply mapM_withoutRelationId|].
    apply List.filter_ext. intros relation.
    rewrite !extensionCollectionNamesOf_existsb. fold (inExtensions (rel_collection relation)).
    fold (inExtensions (default "" (related_collection relation))).
    replace (hasCustomField (List.filter (fun i => negb (isSystem i)) fields) relation)
      with (custom relation); [rewrite andb_assoc; reflexivity|].
    unfold custom, hasCustomField. clear.
    induction fields as [|f fields IH]; [reflexivity|].
    cbn [existsb List.filter]. destruct (isSystem f); cbn [negb andb orb existsb];
      rewrite IH; reflexivity. }
  split.
  - intros Hmeta s4 Hwrite.
    unfold extractRelations. rewrite runScript_tryCatch.
    unfold mbind, Script_bind, call. cbn [andThen runScript].
    rewrite Hcollections. cbn [andThen runScript]. rewrite Hrelations.
    cbn [andThen runScript]. rewrite Hfields. cbn [andThen runScript].
    rewrite Hextracted.
    replace (forallb _ kept) with true.
    2: { symmetry. apply forallb_forall. intros relation Hin.
         apply bool_decide_eq_true_2.
         rewrite Forall_forall in Hmeta. apply Hmeta, list_elem_of_In, Hin. }
    cbn [andThen runScript]. rewrite Hwrite. reflexivity.
  - intros Hmeta.
    unfold extractRelations, mbind, Script_bind, call.
    cbn [andThen tryCatch runScript].
    rewrite Hcollections. cbn [andThen tryCatch runScript]. rewrite Hrelations.
    cbn [andThen tryCatch runScript]. rewrite Hfields.
    cbn [andThen tryCatch runScript]. rewrite Hextracted.
    replace (forallb _ kept) with false.
    2: { symmetry. apply not_true_is_false. intros Hall. apply Hmeta.
         apply Forall_forall. intros relation Hin. rewrite forallb_forall in Hall.
         eapply bool_decide_eq_true_1, Hall, list_elem_of_In, Hin. }
    cbn [andThen tryCatch runScript].
    destruct (handle s3 _) as [[e|[]] s4]; reflexivity.
Qed.


Lemma extractFields_writes_the_custom_fields_witness :
  exists s',
    runScript serveSource (extractFields "out") demoSource
    = (inr tt, s',
       [Sdk.readCollections; Sdk.readFields;
        Sdk.writeToFile "fields"
          (FieldsBlob
             [ {| row_collection := "articles"; row_field := "title";
                  row_meta := Some {[ "interface" := JStr "input" ]};
                  row_other := {[ "type" := JStr "string" ]} |};
               {| row_collection := "articles"; row_field := "body";
                  row_meta := Some {[ "system" := JBool false ]};
                  row_other := ∅ |} ])
          "out"]).
Proof.
  eexists.
  destruct (extractFields_writes_the_custom_fields serveSource "out"
              [articles; site; plugin]
              [titleField; emailField; nicknameField; pluginField; bodyField]
              demoSource demoSource demoSource _ eq_refl eq_refl eq_refl)
    as [Hrun _].
  rewrite Hrun. vm_compute. reflexivity.
Defined.

(** A source instance with a relation that is kept and has no [meta]. *)
Lemma extractRelations_writes_the_custom_relations_witness :
  (exists s',
     runScript serveSource (extractRelations "out") demoSource
     = (inr tt, s',
        [Sdk.readCollections; Sdk.readRelations; Sdk.readFields;
         Sdk.writeToFile "relations"
           (RelationsBlob
              [ {| rel_collection := "articles"; rel_field := "author";
                   related_collection := Some "authors";
                   rel_meta := Some {[ "one_field" := JNull ]} |};
                {| rel_collection := "directus_users"; rel_field := "nickname";
                   related_collection := Some "articles";
                   rel_meta := Some ∅ |} ])
           "out"]))
  /\ (runScript serveSource (extractRelations "out")
        {| source_collections := [articles];
           source_fields := FieldsArray [];
           source_relations := [authorOf; translatorOf];
           source_files := [] |}).2
     = [Sdk.readCollections; Sdk.readRelations; Sdk.readFields;
        Sdk.catchError
          (ErrorObject "TypeError" "Cannot convert undefined or null to object")
          [("operation", JStr "extractRelations")] true].
Proof.
  split.
  - eexists.
    destruct (extractRelations_writes_the_custom_relations serveSource "out"
                [articles; site; plugin] [authorOf; nicknameOf; roleOf; logOf]
                [titleField; emailField; nicknameField; pluginField; bodyField]
                demoSource demoSource demoSource demoSource eq_refl eq_refl eq_refl)
      as [Hrun _].
    rewrite (Hrun ltac:(repeat constructor; eexists; reflexivity) _ eq_refl).
    vm_compute. reflexivity.
  - set (bare := {| source_collections := [articles];
                    source_fields := FieldsArray [];
                    source_relations := [authorOf; translatorOf];
                    source_files := [] |}).
    destruct (extractRelations_writes_the_custom_relations serveSource "out"
                [articles] [authorOf; translatorOf] [] bare bare bare bare
                eq_refl eq_refl eq_refl)
      as [_ Hthrown].
    rewrite Hthrown; [reflexivity|].
    intros Hall. apply Forall_cons in Hall as [_ Hall].
    apply Forall_cons in Hall as [[m Hm] _]. discriminate Hm.
Defined.
